(** * Neon Drop: a shallow embedding of the simulation core

    The development follows the JavaScript sources module by module:
    [random.js], [physics-pure.js], [scoring-engine.js], [game-state.js],
    [game-engine.js] and the input routing of [main.js].

    Conventions of the embedding.
    - JavaScript numbers that hold integers are [Z]; timers, which receive
      the fractional tick length [1000 / 60], are exact rationals [Q].
    - [Date.now()] is an explicit argument [now] of every function that
      reads the clock (one reading per engine call).
    - The generator object and the scoring engine are mutable objects that
      every state copy references; here they are fields of the state and
      are threaded through the calls.
    - A thrown exception is the outcome [Err]; so is a score poisoned by
      [NaN], see [scoreLineClears].
    - The particle list and the shadow cache are hand-offs to the renderer
      and are not part of the embedding. *)

From Stdlib Require Import ZArith QArith Qround List String Ascii Bool Lia.
From Stdlib Require Import DecimalString HexadecimalString.
From Stdlib Require Import Permutation Sorted.
Import ListNotations.

#[local] Open Scope string_scope.
#[local] Open Scope list_scope.
#[local] Open Scope Z_scope.

(** ** Outcomes *)

Inductive error : Type :=
| ReferenceError (name : string)
| TypeError (what : string)
| UnknownPieceType
| RNGNotInitialized
| NoPiecesAvailable
| NaNScore.

Inductive result (A : Type) : Type :=
| Ok (a : A)
| Err (e : error).

Arguments Ok {A} a.
Arguments Err {A} e.

(** Sequencing: the first [Err] ends the computation. *)
Notation "x <- r ;; k" :=
  (match r with
   | Ok x => k
   | Err e => Err e
   end)
  (at level 61, r at next level, right associativity).
Notation "' p <- r ;; k" :=
  (match r with
   | Ok p => k
   | Err e => Err e
   end)
  (at level 61, p pattern, r at next level, right associativity).

(** ** Array helpers *)

(** [array.every((elem, index) => ...)], with the index starting at [i]. *)
Fixpoint every_i {A : Type} (f : A -> Z -> bool) (l : list A) (i : Z) : bool :=
  match l with
  | [] => true
  | a :: l' => f a i && every_i f l' (i + 1)
  end.

(** [array.forEach((elem, index) => ...)] threading the mutated value. *)
Fixpoint forEach_i {A B : Type} (f : B -> A -> Z -> B) (l : list A) (i : Z)
  (acc : B) : B :=
  match l with
  | [] => acc
  | a :: l' => forEach_i f l' (i + 1) (f acc a i)
  end.

(** [array[i]] for a number [i]: [undefined] ([None]) out of range. *)
Definition index {A : Type} (l : list A) (i : Z) : option A :=
  if i <? 0 then None else nth_error l (Z.to_nat i).

(** [array[i] = v]; the engine only writes inside the array. *)
Fixpoint assign {A : Type} (l : list A) (i : nat) (v : A) : list A :=
  match l, i with
  | [], _ => []
  | _ :: l', O => v :: l'
  | a :: l', S i' => a :: assign l' i' v
  end.

(** Truthiness of a shape entry ([0] or [1]). *)
Definition truthy (c : Z) : bool := negb (c =? 0).

(** ** random.js *)

Module Random.

(** Rounding of an integer to the nearest IEEE-754 double (53 significant
    bits, ties to even).  Every integer of magnitude at most [2^53] is its
    own rounding, so products and sums of small integers are exact.  The
    overflow to [Infinity] is not modelled: the generator is used on seeds
    of magnitude at most [2^53], the integers a number holds exactly. *)
Definition fl53_pos (z : Z) : Z :=
  if z <=? 2 ^ 53 then z
  else
    let e := Z.log2 z - 52 in
    let q := z / 2 ^ e in
    let r := z mod 2 ^ e in
    let half := 2 ^ (e - 1) in
    if r <? half then q * 2 ^ e
    else if half <? r then (q + 1) * 2 ^ e
    else if Z.even q then q * 2 ^ e
    else (q + 1) * 2 ^ e.

Definition fl53 (z : Z) : Z :=
  if z <? 0 then - fl53_pos (- z) else fl53_pos z.

Definition modulus : Z := 4294967296.

(** [state = (state * 1664525 + 1013904223) % 4294967296]: double
    arithmetic, and [%] takes the sign of the dividend. *)
Definition advance (state : Z) : Z :=
  Z.rem (fl53 (fl53 (state * 1664525) + 1013904223)) modulus.

(** The value [state / 4294967296] a call of [next] returns: a division by
    a power of two, exact in doubles. *)
Definition output (state : Z) : Q := state # 4294967296.

(** The generator object is its internal [state]. *)
Definition RNG : Type := Z.

Definition createRNG (seed : Z) : RNG := seed.

Definition next (rng : RNG) : Q * RNG :=
  let state := advance rng in (output state, state).

Definition seed (rng : RNG) : Z := rng.

(** [Math.floor(rng.next() * array.length)] and the indexing
    [array[index]]; an index outside the array reads [undefined]. *)
Definition choice {A : Type} (array : list A) (rng : RNG) : option A * RNG :=
  let '(value, rng) := next rng in
  let index := Qfloor (value * inject_Z (Z.of_nat (List.length array))) in
  ((if index <? 0 then None else nth_error array (Z.to_nat index)), rng).

(** The destructuring swap
    [[shuffled[i], shuffled[j]] = [shuffled[j], shuffled[i]]] on an array
    whose slots may hold [undefined] ([None]).  A negative [j] reads
    [undefined] and its write makes a property, not an element. *)
Definition swap {A : Type} (shuffled : list (option A)) (i : nat) (j : Z)
  : list (option A) :=
  let atJ := match index shuffled j with Some v => v | None => None end in
  let atI := nth i shuffled None in
  let shuffled := assign shuffled i atJ in
  if j <? 0 then shuffled else assign shuffled (Z.to_nat j) atI.

(** The loop [for (let i = shuffled.length - 1; i > 0; i--)]. *)
Fixpoint shuffle_loop {A : Type} (i : nat) (shuffled : list (option A))
  (rng : RNG) : list (option A) * RNG :=
  match i with
  | O => (shuffled, rng)
  | S i' =>
      let '(value, rng) := next rng in
      let j := Qfloor (value * inject_Z (Z.of_nat (i + 1))) in
      shuffle_loop i' (swap shuffled i j) rng
  end.

Definition shuffle {A : Type} (array : list A) (rng : RNG)
  : list (option A) * RNG :=
  shuffle_loop (List.length array - 1) (List.map Some array) rng.

(** The states and the values of the first [n] calls of [next]. *)
Fixpoint states (n : nat) (rng : RNG) : list Z :=
  match n with
  | O => []
  | S n' => let s := advance rng in s :: states n' s
  end.

Definition outputs (n : nat) (seed : Z) : list Q :=
  List.map output (states n (createRNG seed)).

End Random.


(** ** Data model *)

(** The eleven piece kinds, the keys of [PIECE_DEFINITIONS]. *)
Inductive PieceType : Type :=
| I_ | J_ | L_ | O_ | S_ | T_ | Z_ | FLOAT | PLUS | U_ | DOT.

Definition PieceType_eqb (a b : PieceType) : bool :=
  match a, b with
  | I_, I_ | J_, J_ | L_, L_ | O_, O_ | S_, S_ | T_, T_ | Z_, Z_
  | FLOAT, FLOAT | PLUS, PLUS | U_, U_ | DOT, DOT => true
  | _, _ => false
  end.

Inductive Phase : Type :=
| MENU | FALLING | LOCKING | CLEARING | PAUSED | GAME_OVER.

(** A board cell is [null] ([None]) or a colour token. *)
Definition cell : Type := option string.

Definition Board : Type := list (list cell).

Module Piece.
Record t : Type := Build_t {
  type : PieceType;
  shape : list (list Z);
  color : string;
  gridX : Z;
  gridY : Z;
  rotation : Z;
  upMovesUsed : Z;
  generation : option Z
}.

Definition set_shape (v : list (list Z)) (s : t) : t :=
  {| type := type s; shape := v; color := color s; gridX := gridX s;
     gridY := gridY s; rotation := rotation s; upMovesUsed := upMovesUsed s;
     generation := generation s |}.
Definition set_gridX (v : Z) (s : t) : t :=
  {| type := type s; shape := shape s; color := color s; gridX := v;
     gridY := gridY s; rotation := rotation s; upMovesUsed := upMovesUsed s;
     generation := generation s |}.
Definition set_gridY (v : Z) (s : t) : t :=
  {| type := type s; shape := shape s; color := color s; gridX := gridX s;
     gridY := v; rotation := rotation s; upMovesUsed := upMovesUsed s;
     generation := generation s |}.
Definition set_rotation (v : Z) (s : t) : t :=
  {| type := type s; shape := shape s; color := color s; gridX := gridX s;
     gridY := gridY s; rotation := v; upMovesUsed := upMovesUsed s;
     generation := generation s |}.
Definition set_upMovesUsed (v : Z) (s : t) : t :=
  {| type := type s; shape := shape s; color := color s; gridX := gridX s;
     gridY := gridY s; rotation := rotation s; upMovesUsed := v;
     generation := generation s |}.
Definition set_generation (v : option Z) (s : t) : t :=
  {| type := type s; shape := shape s; color := color s; gridX := gridX s;
     gridY := gridY s; rotation := rotation s; upMovesUsed := upMovesUsed s;
     generation := v |}.
End Piece.

(** The descriptor [state.lastMove]; the two [MOVE] shapes are the one
    [executeMove] writes and the feedback [move] writes when blocked. *)
Module LastMove.
Inductive t : Type :=
| GRAVITY_HIT (hitBottom : bool)
| MOVE (dx dy : Z) (hitBottom : bool)
| MOVE_BLOCKED (dx dy : Z) (hitWall hitFloor hitCeiling : bool)
| ROTATE (direction : Z)
| HARD_DROP.
End LastMove.

(** Input actions by their [type] tag. *)
Module Action.
Inductive t : Type :=
| SPACE
| ENTER
| ESCAPE
| UP_PRESSED
| MOVE (dx dy : Z)
| ROTATE (direction : Z)
| HARD_DROP
| HOLD
| OTHER (type : string).
End Action.

(** [SCORE_EVENTS] *)
Inductive ScoreEventType : Type :=
| SOFT_DROP | HARD_DROP | LINE_CLEAR | SPIN_BONUS | COMBO | BACK_TO_BACK
| PERFECT_CLEAR | LEVEL_BONUS.

(** Values of the metadata objects the engine writes. *)
Inductive JsValue : Type :=
| JNum (n : Z)
| JBool (b : bool).

Definition Metadata : Type := list (string * JsValue).

Module ScoreEvent.
Record t : Type := Build_t {
  frame : Z;
  type : ScoreEventType;
  points : Z;
  metadata : Metadata;
  timestamp : Z;
  hash : string
}.

Definition set_points (v : Z) (s : t) : t :=
  {| frame := frame s; type := type s; points := v;
     metadata := metadata s; timestamp := timestamp s; hash := hash s |}.
End ScoreEvent.

(** The integer counters of [this.stats]; the rates derived from the clock
    ([pps], [apm], [efficiency], [totalTime]) are left out. *)
Module Stats.
Record t : Type := Build_t {
  piecesPlaced : Z;
  linesCleared : Z;
  spinBonuses : Z;
  perfectClears : Z;
  maxCombo : Z
}.

Definition set_piecesPlaced (v : Z) (s : t) : t :=
  {| piecesPlaced := v; linesCleared := linesCleared s;
     spinBonuses := spinBonuses s; perfectClears := perfectClears s;
     maxCombo := maxCombo s |}.
Definition set_linesCleared (v : Z) (s : t) : t :=
  {| piecesPlaced := piecesPlaced s; linesCleared := v;
     spinBonuses := spinBonuses s; perfectClears := perfectClears s;
     maxCombo := maxCombo s |}.
Definition set_spinBonuses (v : Z) (s : t) : t :=
  {| piecesPlaced := piecesPlaced s; linesCleared := linesCleared s;
     spinBonuses := v; perfectClears := perfectClears s;
     maxCombo := maxCombo s |}.
Definition set_perfectClears (v : Z) (s : t) : t :=
  {| piecesPlaced := piecesPlaced s; linesCleared := linesCleared s;
     spinBonuses := spinBonuses s; perfectClears := v;
     maxCombo := maxCombo s |}.
Definition set_maxCombo (v : Z) (s : t) : t :=
  {| piecesPlaced := piecesPlaced s; linesCleared := linesCleared s;
     spinBonuses := spinBonuses s; perfectClears := perfectClears s;
     maxCombo := v |}.
End Stats.

(** The fields of the [ScoringEngine] object the engine writes. *)
Record ScoringEngine : Type := Build_ScoringEngine {
  scoreLedger : list ScoreEvent.t;
  stats : Stats.t;
  frameCount : Z;
  replayStartTime : option Z;
  finalScore : Z;
  verified : bool
}.

Definition set_scoreLedger (v : list ScoreEvent.t) (s : ScoringEngine)
  : ScoringEngine :=
  {| scoreLedger := v; stats := stats s;
     frameCount := frameCount s; replayStartTime := replayStartTime s;
     finalScore := finalScore s; verified := verified s |}.
Definition set_stats (v : Stats.t) (s : ScoringEngine)
  : ScoringEngine :=
  {| scoreLedger := scoreLedger s; stats := v;
     frameCount := frameCount s; replayStartTime := replayStartTime s;
     finalScore := finalScore s; verified := verified s |}.
Definition set_frameCount (v : Z) (s : ScoringEngine)
  : ScoringEngine :=
  {| scoreLedger := scoreLedger s; stats := stats s;
     frameCount := v; replayStartTime := replayStartTime s;
     finalScore := finalScore s; verified := verified s |}.
Definition set_replayStartTime (v : option Z) (s : ScoringEngine)
  : ScoringEngine :=
  {| scoreLedger := scoreLedger s; stats := stats s;
     frameCount := frameCount s; replayStartTime := v;
     finalScore := finalScore s; verified := verified s |}.
Definition set_finalScore (v : Z) (s : ScoringEngine)
  : ScoringEngine :=
  {| scoreLedger := scoreLedger s; stats := stats s;
     frameCount := frameCount s; replayStartTime := replayStartTime s;
     finalScore := v; verified := verified s |}.
Definition set_verified (v : bool) (s : ScoringEngine)
  : ScoringEngine :=
  {| scoreLedger := scoreLedger s; stats := stats s;
     frameCount := frameCount s; replayStartTime := replayStartTime s;
     finalScore := finalScore s; verified := v |}.

(** An entry of [replayData.inputs]. *)
Module ReplayInput.
Record t : Type := Build_t {
  frame : Z;
  action : Action.t;
  timestamp : Z
}.
End ReplayInput.

(** An entry of the run-length encoded inputs; the last run carries no
    [frame]. *)
Module CompressedInput.
Record t : Type := Build_t {
  key : string;
  count : Z;
  frame : option Z
}.
End CompressedInput.

(** An entry of [replayData.stateSnapshots]. *)
Module Snapshot.
Record t : Type := Build_t {
  frame : Z;
  score : Z;
  level : Z;
  lines : Z;
  boardHash : string;
  timestamp : Z
}.
End Snapshot.

(** The result of [getBoardStats]; [density] is [None] where the source
    divides by a zero width. *)
Module BoardStats.
Record t : Type := Build_t {
  filledCells : Z;
  maxHeight : Z;
  density : option Q
}.
End BoardStats.

Module Mode.
Record t : Type := Build_t {
  name : string;
  gravity : Z -> Z;
  lockDelay : Z;
  maxLockTime : Z;
  pieces : list PieceType;
  progressive : bool
}.
End Mode.

Record State : Type := Build_State {
  board : Board;
  current : option Piece.t;
  next : option Piece.t;
  hold : option Piece.t;
  canHold : bool;
  deathPiece : option Piece.t;
  phase : Phase;
  mode : Mode.t;
  score : Z;
  highScore : Z;
  lines : Z;
  level : Z;
  combo : Z;
  backToBackCounter : option Z;
  lockTimer : Q;
  totalLockTime : Q;
  clearTimer : Q;
  gravityAccumulator : Q;
  pieces : Z;
  startTime : option Z;
  generation : Z;
  lastMove : option LastMove.t;
  clearingLines : list Z;
  rng : option Random.RNG;
  scoringEngine : option ScoringEngine
}.

Definition set_board (v : Board) (s : State) : State :=
  {| board := v; current := current s; next := next s; hold := hold s;
     canHold := canHold s; deathPiece := deathPiece s; phase := phase s;
     mode := mode s; score := score s; highScore := highScore s;
     lines := lines s; level := level s; combo := combo s;
     backToBackCounter := backToBackCounter s; lockTimer := lockTimer s;
     totalLockTime := totalLockTime s; clearTimer := clearTimer s;
     gravityAccumulator := gravityAccumulator s; pieces := pieces s;
     startTime := startTime s; generation := generation s;
     lastMove := lastMove s; clearingLines := clearingLines s; rng := rng s;
     scoringEngine := scoringEngine s |}.
Definition set_current (v : option Piece.t) (s : State) : State :=
  {| board := board s; current := v; next := next s; hold := hold s;
     canHold := canHold s; deathPiece := deathPiece s; phase := phase s;
     mode := mode s; score := score s; highScore := highScore s;
     lines := lines s; level := level s; combo := combo s;
     backToBackCounter := backToBackCounter s; lockTimer := lockTimer s;
     totalLockTime := totalLockTime s; clearTimer := clearTimer s;
     gravityAccumulator := gravityAccumulator s; pieces := pieces s;
     startTime := startTime s; generation := generation s;
     lastMove := lastMove s; clearingLines := clearingLines s; rng := rng s;
     scoringEngine := scoringEngine s |}.
Definition set_next (v : option Piece.t) (s : State) : State :=
  {| board := board s; current := current s; next := v; hold := hold s;
     canHold := canHold s; deathPiece := deathPiece s; phase := phase s;
     mode := mode s; score := score s; highScore := highScore s;
     lines := lines s; level := level s; combo := combo s;
     backToBackCounter := backToBackCounter s; lockTimer := lockTimer s;
     totalLockTime := totalLockTime s; clearTimer := clearTimer s;
     gravityAccumulator := gravityAccumulator s; pieces := pieces s;
     startTime := startTime s; generation := generation s;
     lastMove := lastMove s; clearingLines := clearingLines s; rng := rng s;
     scoringEngine := scoringEngine s |}.
Definition set_hold (v : option Piece.t) (s : State) : State :=
  {| board := board s; current := current s; next := next s; hold := v;
     canHold := canHold s; deathPiece := deathPiece s; phase := phase s;
     mode := mode s; score := score s; highScore := highScore s;
     lines := lines s; level := level s; combo := combo s;
     backToBackCounter := backToBackCounter s; lockTimer := lockTimer s;
     totalLockTime := totalLockTime s; clearTimer := clearTimer s;
     gravityAccumulator := gravityAccumulator s; pieces := pieces s;
     startTime := startTime s; generation := generation s;
     lastMove := lastMove s; clearingLines := clearingLines s; rng := rng s;
     scoringEngine := scoringEngine s |}.
Definition set_canHold (v : bool) (s : State) : State :=
  {| board := board s; current := current s; next := next s; hold := hold s;
     canHold := v; deathPiece := deathPiece s; phase := phase s;
     mode := mode s; score := score s; highScore := highScore s;
     lines := lines s; level := level s; combo := combo s;
     backToBackCounter := backToBackCounter s; lockTimer := lockTimer s;
     totalLockTime := totalLockTime s; clearTimer := clearTimer s;
     gravityAccumulator := gravityAccumulator s; pieces := pieces s;
     startTime := startTime s; generation := generation s;
     lastMove := lastMove s; clearingLines := clearingLines s; rng := rng s;
     scoringEngine := scoringEngine s |}.
Definition set_deathPiece (v : option Piece.t) (s : State) : State :=
  {| board := board s; current := current s; next := next s; hold := hold s;
     canHold := canHold s; deathPiece := v; phase := phase s; mode := mode s;
     score := score s; highScore := highScore s; lines := lines s;
     level := level s; combo := combo s;
     backToBackCounter := backToBackCounter s; lockTimer := lockTimer s;
     totalLockTime := totalLockTime s; clearTimer := clearTimer s;
     gravityAccumulator := gravityAccumulator s; pieces := pieces s;
     startTime := startTime s; generation := generation s;
     lastMove := lastMove s; clearingLines := clearingLines s; rng := rng s;
     scoringEngine := scoringEngine s |}.
Definition set_phase (v : Phase) (s : State) : State :=
  {| board := board s; current := current s; next := next s; hold := hold s;
     canHold := canHold s; deathPiece := deathPiece s; phase := v;
     mode := mode s; score := score s; highScore := highScore s;
     lines := lines s; level := level s; combo := combo s;
     backToBackCounter := backToBackCounter s; lockTimer := lockTimer s;
     totalLockTime := totalLockTime s; clearTimer := clearTimer s;
     gravityAccumulator := gravityAccumulator s; pieces := pieces s;
     startTime := startTime s; generation := generation s;
     lastMove := lastMove s; clearingLines := clearingLines s; rng := rng s;
     scoringEngine := scoringEngine s |}.
Definition set_mode (v : Mode.t) (s : State) : State :=
  {| board := board s; current := current s; next := next s; hold := hold s;
     canHold := canHold s; deathPiece := deathPiece s; phase := phase s;
     mode := v; score := score s; highScore := highScore s; lines := lines s;
     level := level s; combo := combo s;
     backToBackCounter := backToBackCounter s; lockTimer := lockTimer s;
     totalLockTime := totalLockTime s; clearTimer := clearTimer s;
     gravityAccumulator := gravityAccumulator s; pieces := pieces s;
     startTime := startTime s; generation := generation s;
     lastMove := lastMove s; clearingLines := clearingLines s; rng := rng s;
     scoringEngine := scoringEngine s |}.
Definition set_score (v : Z) (s : State) : State :=
  {| board := board s; current := current s; next := next s; hold := hold s;
     canHold := canHold s; deathPiece := deathPiece s; phase := phase s;
     mode := mode s; score := v; highScore := highScore s; lines := lines s;
     level := level s; combo := combo s;
     backToBackCounter := backToBackCounter s; lockTimer := lockTimer s;
     totalLockTime := totalLockTime s; clearTimer := clearTimer s;
     gravityAccumulator := gravityAccumulator s; pieces := pieces s;
     startTime := startTime s; generation := generation s;
     lastMove := lastMove s; clearingLines := clearingLines s; rng := rng s;
     scoringEngine := scoringEngine s |}.
Definition set_highScore (v : Z) (s : State) : State :=
  {| board := board s; current := current s; next := next s; hold := hold s;
     canHold := canHold s; deathPiece := deathPiece s; phase := phase s;
     mode := mode s; score := score s; highScore := v; lines := lines s;
     level := level s; combo := combo s;
     backToBackCounter := backToBackCounter s; lockTimer := lockTimer s;
     totalLockTime := totalLockTime s; clearTimer := clearTimer s;
     gravityAccumulator := gravityAccumulator s; pieces := pieces s;
     startTime := startTime s; generation := generation s;
     lastMove := lastMove s; clearingLines := clearingLines s; rng := rng s;
     scoringEngine := scoringEngine s |}.
Definition set_lines (v : Z) (s : State) : State :=
  {| board := board s; current := current s; next := next s; hold := hold s;
     canHold := canHold s; deathPiece := deathPiece s; phase := phase s;
     mode := mode s; score := score s; highScore := highScore s; lines := v;
     level := level s; combo := combo s;
     backToBackCounter := backToBackCounter s; lockTimer := lockTimer s;
     totalLockTime := totalLockTime s; clearTimer := clearTimer s;
     gravityAccumulator := gravityAccumulator s; pieces := pieces s;
     startTime := startTime s; generation := generation s;
     lastMove := lastMove s; clearingLines := clearingLines s; rng := rng s;
     scoringEngine := scoringEngine s |}.
Definition set_level (v : Z) (s : State) : State :=
  {| board := board s; current := current s; next := next s; hold := hold s;
     canHold := canHold s; deathPiece := deathPiece s; phase := phase s;
     mode := mode s; score := score s; highScore := highScore s;
     lines := lines s; level := v; combo := combo s;
     backToBackCounter := backToBackCounter s; lockTimer := lockTimer s;
     totalLockTime := totalLockTime s; clearTimer := clearTimer s;
     gravityAccumulator := gravityAccumulator s; pieces := pieces s;
     startTime := startTime s; generation := generation s;
     lastMove := lastMove s; clearingLines := clearingLines s; rng := rng s;
     scoringEngine := scoringEngine s |}.
Definition set_combo (v : Z) (s : State) : State :=
  {| board := board s; current := current s; next := next s; hold := hold s;
     canHold := canHold s; deathPiece := deathPiece s; phase := phase s;
     mode := mode s; score := score s; highScore := highScore s;
     lines := lines s; level := level s; combo := v;
     backToBackCounter := backToBackCounter s; lockTimer := lockTimer s;
     totalLockTime := totalLockTime s; clearTimer := clearTimer s;
     gravityAccumulator := gravityAccumulator s; pieces := pieces s;
     startTime := startTime s; generation := generation s;
     lastMove := lastMove s; clearingLines := clearingLines s; rng := rng s;
     scoringEngine := scoringEngine s |}.
Definition set_backToBackCounter (v : option Z) (s : State) : State :=
  {| board := board s; current := current s; next := next s; hold := hold s;
     canHold := canHold s; deathPiece := deathPiece s; phase := phase s;
     mode := mode s; score := score s; highScore := highScore s;
     lines := lines s; level := level s; combo := combo s;
     backToBackCounter := v; lockTimer := lockTimer s;
     totalLockTime := totalLockTime s; clearTimer := clearTimer s;
     gravityAccumulator := gravityAccumulator s; pieces := pieces s;
     startTime := startTime s; generation := generation s;
     lastMove := lastMove s; clearingLines := clearingLines s; rng := rng s;
     scoringEngine := scoringEngine s |}.
Definition set_lockTimer (v : Q) (s : State) : State :=
  {| board := board s; current := current s; next := next s; hold := hold s;
     canHold := canHold s; deathPiece := deathPiece s; phase := phase s;
     mode := mode s; score := score s; highScore := highScore s;
     lines := lines s; level := level s; combo := combo s;
     backToBackCounter := backToBackCounter s; lockTimer := v;
     totalLockTime := totalLockTime s; clearTimer := clearTimer s;
     gravityAccumulator := gravityAccumulator s; pieces := pieces s;
     startTime := startTime s; generation := generation s;
     lastMove := lastMove s; clearingLines := clearingLines s; rng := rng s;
     scoringEngine := scoringEngine s |}.
Definition set_totalLockTime (v : Q) (s : State) : State :=
  {| board := board s; current := current s; next := next s; hold := hold s;
     canHold := canHold s; deathPiece := deathPiece s; phase := phase s;
     mode := mode s; score := score s; highScore := highScore s;
     lines := lines s; level := level s; combo := combo s;
     backToBackCounter := backToBackCounter s; lockTimer := lockTimer s;
     totalLockTime := v; clearTimer := clearTimer s;
     gravityAccumulator := gravityAccumulator s; pieces := pieces s;
     startTime := startTime s; generation := generation s;
     lastMove := lastMove s; clearingLines := clearingLines s; rng := rng s;
     scoringEngine := scoringEngine s |}.
Definition set_clearTimer (v : Q) (s : State) : State :=
  {| board := board s; current := current s; next := next s; hold := hold s;
     canHold := canHold s; deathPiece := deathPiece s; phase := phase s;
     mode := mode s; score := score s; highScore := highScore s;
     lines := lines s; level := level s; combo := combo s;
     backToBackCounter := backToBackCounter s; lockTimer := lockTimer s;
     totalLockTime := totalLockTime s; clearTimer := v;
     gravityAccumulator := gravityAccumulator s; pieces := pieces s;
     startTime := startTime s; generation := generation s;
     lastMove := lastMove s; clearingLines := clearingLines s; rng := rng s;
     scoringEngine := scoringEngine s |}.
Definition set_gravityAccumulator (v : Q) (s : State) : State :=
  {| board := board s; current := current s; next := next s; hold := hold s;
     canHold := canHold s; deathPiece := deathPiece s; phase := phase s;
     mode := mode s; score := score s; highScore := highScore s;
     lines := lines s; level := level s; combo := combo s;
     backToBackCounter := backToBackCounter s; lockTimer := lockTimer s;
     totalLockTime := totalLockTime s; clearTimer := clearTimer s;
     gravityAccumulator := v; pieces := pieces s; startTime := startTime s;
     generation := generation s; lastMove := lastMove s;
     clearingLines := clearingLines s; rng := rng s;
     scoringEngine := scoringEngine s |}.
Definition set_pieces (v : Z) (s : State) : State :=
  {| board := board s; current := current s; next := next s; hold := hold s;
     canHold := canHold s; deathPiece := deathPiece s; phase := phase s;
     mode := mode s; score := score s; highScore := highScore s;
     lines := lines s; level := level s; combo := combo s;
     backToBackCounter := backToBackCounter s; lockTimer := lockTimer s;
     totalLockTime := totalLockTime s; clearTimer := clearTimer s;
     gravityAccumulator := gravityAccumulator s; pieces := v;
     startTime := startTime s; generation := generation s;
     lastMove := lastMove s; clearingLines := clearingLines s; rng := rng s;
     scoringEngine := scoringEngine s |}.
Definition set_startTime (v : option Z) (s : State) : State :=
  {| board := board s; current := current s; next := next s; hold := hold s;
     canHold := canHold s; deathPiece := deathPiece s; phase := phase s;
     mode := mode s; score := score s; highScore := highScore s;
     lines := lines s; level := level s; combo := combo s;
     backToBackCounter := backToBackCounter s; lockTimer := lockTimer s;
     totalLockTime := totalLockTime s; clearTimer := clearTimer s;
     gravityAccumulator := gravityAccumulator s; pieces := pieces s;
     startTime := v; generation := generation s; lastMove := lastMove s;
     clearingLines := clearingLines s; rng := rng s;
     scoringEngine := scoringEngine s |}.
Definition set_generation (v : Z) (s : State) : State :=
  {| board := board s; current := current s; next := next s; hold := hold s;
     canHold := canHold s; deathPiece := deathPiece s; phase := phase s;
     mode := mode s; score := score s; highScore := highScore s;
     lines := lines s; level := level s; combo := combo s;
     backToBackCounter := backToBackCounter s; lockTimer := lockTimer s;
     totalLockTime := totalLockTime s; clearTimer := clearTimer s;
     gravityAccumulator := gravityAccumulator s; pieces := pieces s;
     startTime := startTime s; generation := v; lastMove := lastMove s;
     clearingLines := clearingLines s; rng := rng s;
     scoringEngine := scoringEngine s |}.
Definition set_lastMove (v : option LastMove.t) (s : State) : State :=
  {| board := board s; current := current s; next := next s; hold := hold s;
     canHold := canHold s; deathPiece := deathPiece s; phase := phase s;
     mode := mode s; score := score s; highScore := highScore s;
     lines := lines s; level := level s; combo := combo s;
     backToBackCounter := backToBackCounter s; lockTimer := lockTimer s;
     totalLockTime := totalLockTime s; clearTimer := clearTimer s;
     gravityAccumulator := gravityAccumulator s; pieces := pieces s;
     startTime := startTime s; generation := generation s; lastMove := v;
     clearingLines := clearingLines s; rng := rng s;
     scoringEngine := scoringEngine s |}.
Definition set_clearingLines (v : list Z) (s : State) : State :=
  {| board := board s; current := current s; next := next s; hold := hold s;
     canHold := canHold s; deathPiece := deathPiece s; phase := phase s;
     mode := mode s; score := score s; highScore := highScore s;
     lines := lines s; level := level s; combo := combo s;
     backToBackCounter := backToBackCounter s; lockTimer := lockTimer s;
     totalLockTime := totalLockTime s; clearTimer := clearTimer s;
     gravityAccumulator := gravityAccumulator s; pieces := pieces s;
     startTime := startTime s; generation := generation s;
     lastMove := lastMove s; clearingLines := v; rng := rng s;
     scoringEngine := scoringEngine s |}.
Definition set_rng (v : option Random.RNG) (s : State) : State :=
  {| board := board s; current := current s; next := next s; hold := hold s;
     canHold := canHold s; deathPiece := deathPiece s; phase := phase s;
     mode := mode s; score := score s; highScore := highScore s;
     lines := lines s; level := level s; combo := combo s;
     backToBackCounter := backToBackCounter s; lockTimer := lockTimer s;
     totalLockTime := totalLockTime s; clearTimer := clearTimer s;
     gravityAccumulator := gravityAccumulator s; pieces := pieces s;
     startTime := startTime s; generation := generation s;
     lastMove := lastMove s; clearingLines := clearingLines s; rng := v;
     scoringEngine := scoringEngine s |}.
Definition set_scoringEngine (v : option ScoringEngine) (s : State) : State :=
  {| board := board s; current := current s; next := next s; hold := hold s;
     canHold := canHold s; deathPiece := deathPiece s; phase := phase s;
     mode := mode s; score := score s; highScore := highScore s;
     lines := lines s; level := level s; combo := combo s;
     backToBackCounter := backToBackCounter s; lockTimer := lockTimer s;
     totalLockTime := totalLockTime s; clearTimer := clearTimer s;
     gravityAccumulator := gravityAccumulator s; pieces := pieces s;
     startTime := startTime s; generation := generation s;
     lastMove := lastMove s; clearingLines := clearingLines s; rng := rng s;
     scoringEngine := v |}.

(** ** physics-pure.js *)

Module Physics.

(** [board[y][x]].  A missing row makes the source throw; the engine keeps
    every board at 20 rows of 10 cells, and the read is guarded by the
    bounds, so the case is [None] here as for a missing cell. *)
Definition board_get (board : Board) (y x : Z) : option cell :=
  match index board y with
  | Some row => index row x
  | None => None
  end.

(** [board[y][x] === null] *)
Definition is_null (c : option cell) : bool :=
  match c with
  | Some None => true
  | _ => false
  end.

Definition canPieceFitAt (board : Board) (piece : Piece.t) (x y : Z) : bool :=
  every_i (fun row dy =>
    every_i (fun cell dx =>
      if negb (truthy cell) then true
      else
        let boardX := x + dx in
        let boardY := y + dy in
        if (boardX <? 0) || (boardX >=? 10) then false
        else if boardY <? 0 then true
        else if boardY >=? 20 then false
        else is_null (board_get board boardY boardX))
      row 0)
    (Piece.shape piece) 0.

(** The loop [while (shadowY < 20 && canPieceFitAt(...)) shadowY++]; it
    runs at most [20 - piece.gridY] times, the fuel [calculateShadow]
    provides. *)
Fixpoint shadow_loop (fuel : nat) (board : Board) (piece : Piece.t)
  (shadowY : Z) : Z :=
  match fuel with
  | O => shadowY
  | S fuel' =>
      if (shadowY <? 20)
         && canPieceFitAt board piece (Piece.gridX piece) (shadowY + 1)
      then shadow_loop fuel' board piece (shadowY + 1)
      else shadowY
  end.

Definition calculateShadow (board : Board) (piece : Piece.t) : Z :=
  shadow_loop (Z.to_nat (20 - Piece.gridY piece)) board piece
    (Piece.gridY piece).

Definition isResting (board : Board) (piece : Piece.t) : bool :=
  Piece.gridY piece =? calculateShadow board piece.

(** [shape[i][j]]; a column missing from a ragged row reads [undefined],
    as falsy as the [0] used here. *)
Definition shape_get (shape : list (list Z)) (i j : nat) : Z :=
  nth j (nth i shape []) 0.

Definition rotatePiece (piece : Piece.t) (direction : Z) : Piece.t :=
  let n := List.length (Piece.shape piece) in
  let rotated :=
    List.map (fun i =>
      List.map (fun j =>
        if direction =? 1
        then shape_get (Piece.shape piece) (n - 1 - j) i
        else shape_get (Piece.shape piece) j (n - 1 - i))
        (seq 0 n))
      (seq 0 n) in
  Piece.set_rotation (Z.rem (Piece.rotation piece + direction + 4) 4)
    (Piece.set_shape rotated piece).

Definition kick (x y : Z) : Z * Z := (x, y).

Definition kicks_I (fromRot toRot : Z) : list (Z * Z) :=
  match fromRot, toRot with
  | 0, 1 => [kick (-2) 0; kick 1 0; kick (-2) (-1); kick 1 2]
  | 1, 0 => [kick 2 0; kick (-1) 0; kick 2 1; kick (-1) (-2)]
  | 1, 2 => [kick (-1) 0; kick 2 0; kick (-1) 2; kick 2 (-1)]
  | 2, 1 => [kick 1 0; kick (-2) 0; kick 1 (-2); kick (-2) 1]
  | 2, 3 => [kick 2 0; kick (-1) 0; kick 2 1; kick (-1) (-2)]
  | 3, 2 => [kick (-2) 0; kick 1 0; kick (-2) (-1); kick 1 2]
  | 3, 0 => [kick 1 0; kick (-2) 0; kick 1 (-2); kick (-2) 1]
  | 0, 3 => [kick (-1) 0; kick 2 0; kick (-1) 2; kick 2 (-1)]
  | _, _ => []
  end.

Definition kicks_default (fromRot toRot : Z) : list (Z * Z) :=
  match fromRot, toRot with
  | 0, 1 => [kick (-1) 0; kick (-1) 1; kick 0 (-2); kick (-1) (-2)]
  | 1, 0 => [kick 1 0; kick 1 (-1); kick 0 2; kick 1 2]
  | 1, 2 => [kick 1 0; kick 1 (-1); kick 0 2; kick 1 2]
  | 2, 1 => [kick (-1) 0; kick (-1) 1; kick 0 (-2); kick (-1) (-2)]
  | 2, 3 => [kick 1 0; kick 1 1; kick 0 (-2); kick 1 (-2)]
  | 3, 2 => [kick (-1) 0; kick (-1) (-1); kick 0 2; kick (-1) 2]
  | 3, 0 => [kick (-1) 0; kick (-1) (-1); kick 0 2; kick (-1) 2]
  | 0, 3 => [kick 1 0; kick 1 1; kick 0 (-2); kick 1 (-2)]
  | _, _ => []
  end.

Definition getWallKicks (piece : Piece.t) (direction : Z) : list (Z * Z) :=
  let fromRot := Piece.rotation piece in
  let toRot := Z.rem (Piece.rotation piece + direction + 4) 4 in
  match Piece.type piece with
  | I_ => kicks_I fromRot toRot
  | _ => kicks_default fromRot toRot
  end.

(** The loop over the kicks of [tryRotation]. *)
Fixpoint try_kicks (board : Board) (rotated : Piece.t) (kicks : list (Z * Z))
  : option Piece.t :=
  match kicks with
  | [] => None
  | (kx, ky) :: rest =>
      let kickX := Piece.gridX rotated + kx in
      let kickY := Piece.gridY rotated + ky in
      if canPieceFitAt board rotated kickX kickY
      then Some (Piece.set_gridY kickY (Piece.set_gridX kickX rotated))
      else try_kicks board rotated rest
  end.

(** [{ success: true, piece }] is [Some piece], [{ success: false }] is
    [None]. *)
Definition tryRotation (board : Board) (piece : Piece.t) (direction : Z)
  : option Piece.t :=
  let rotated := rotatePiece piece direction in
  if canPieceFitAt board rotated (Piece.gridX rotated) (Piece.gridY rotated)
  then Some rotated
  else
    match Piece.type piece with
    | O_ => None
    | _ => try_kicks board rotated (getWallKicks piece direction)
    end.

(** [newBoard[y][x] = v] *)
Definition board_set (board : Board) (y x : Z) (v : cell) : Board :=
  match index board y with
  | Some row => assign board (Z.to_nat y) (assign row (Z.to_nat x) v)
  | None => board
  end.

Definition placePiece (board : Board) (piece : Piece.t) : Board :=
  forEach_i (fun newBoard row dy =>
    forEach_i (fun newBoard cell dx =>
      if truthy cell then
        let x := Piece.gridX piece + dx in
        let y := Piece.gridY piece + dy in
        if (y >=? 0) && (y <? 20) && (x >=? 0) && (x <? 10)
        then board_set newBoard y x (Some (Piece.color piece))
        else newBoard
      else newBoard)
      row 0 newBoard)
    (Piece.shape piece) 0 board.

(** [row.every(cell => cell !== null)] *)
Definition row_full (row : list cell) : bool :=
  forallb (fun c => match c with Some _ => true | None => false end) row.

Definition findClearedLines (board : Board) : list Z :=
  forEach_i (fun cleared row i =>
    if row_full row then cleared ++ [i] else cleared) board 0 [].

Definition includes (lines : list Z) (i : Z) : bool :=
  existsb (Z.eqb i) lines.

Fixpoint filter_i {A : Type} (f : A -> Z -> bool) (l : list A) (i : Z)
  : list A :=
  match l with
  | [] => []
  | a :: l' => if f a i then a :: filter_i f l' (i + 1)
               else filter_i f l' (i + 1)
  end.

Definition emptyRow : list cell := repeat None 10.

Definition removeClearedLines (board : Board) (lines : list Z) : Board :=
  let newBoard := filter_i (fun _ i => negb (includes lines i)) board 0 in
  repeat emptyRow (20 - List.length newBoard) ++ newBoard.

Definition canSpawn (board : Board) (piece : Piece.t) : bool :=
  canPieceFitAt board piece (Piece.gridX piece) (Piece.gridY piece).

End Physics.

(** ** game-state.js *)

Module GameState.

(** [GAME_MODES.neonDrop] *)
Definition neonDrop : Mode.t :=
  {| Mode.name := "NEON_DROP";
     Mode.gravity := fun level => Z.max 50 (1000 - (level - 1) * 50);
     Mode.lockDelay := 500;
     Mode.maxLockTime := 5000;
     Mode.pieces := [I_; J_; L_; O_; S_; T_; Z_; FLOAT; PLUS; U_; DOT];
     Mode.progressive := true |}.

Definition createEmptyBoard : Board := repeat (repeat None 10) 20.

(** [createInitialState()]; the stored high score is the argument. *)
Definition createInitialState (highScore : Z) : State :=
  {| board := createEmptyBoard;
     current := None;
     next := None;
     hold := None;
     canHold := true;
     deathPiece := None;
     phase := MENU;
     mode := neonDrop;
     score := 0;
     highScore := highScore;
     lines := 0;
     level := 1;
     combo := 0;
     backToBackCounter := None;
     lockTimer := 0;
     totalLockTime := 0;
     clearTimer := 0;
     gravityAccumulator := 0;
     pieces := 0;
     startTime := None;
     generation := 0;
     lastMove := None;
     clearingLines := [];
     rng := None;
     scoringEngine := None |}.

(** [PIECE_DEFINITIONS]: shape, colour and spawn position. *)
Definition definition (type : PieceType) : list (list Z) * string * (Z * Z) :=
  match type with
  | I_ => ([[0;0;0;0]; [1;1;1;1]; [0;0;0;0]; [0;0;0;0]], "#00FFFF", (3, -2))
  | J_ => ([[1;0;0]; [1;1;1]; [0;0;0]], "#0000FF", (3, -2))
  | L_ => ([[0;0;1]; [1;1;1]; [0;0;0]], "#FF7F00", (3, -2))
  | O_ => ([[1;1]; [1;1]], "#FFFF00", (4, -2))
  | S_ => ([[0;1;1]; [1;1;0]; [0;0;0]], "#00FF00", (3, -2))
  | T_ => ([[0;1;0]; [1;1;1]; [0;0;0]], "#8A2BE2", (3, -2))
  | Z_ => ([[1;1;0]; [0;1;1]; [0;0;0]], "#FF0000", (3, -2))
  | FLOAT => ([[1]], "#FFFFFF", (4, -1))
  | PLUS => ([[0;1;0]; [1;1;1]; [0;1;0]], "#FFD700", (3, -3))
  | U_ => ([[1;0;1]; [1;0;1]; [1;1;1]], "#FF69B4", (3, -3))
  | DOT => ([[1;1;0]; [1;0;1]; [0;1;1]], "#00CED1", (3, -3))
  end.

(** [PIECE_PROGRESSION] *)
Definition PIECE_PROGRESSION : list (Z * list PieceType) :=
  [ (0, [I_; O_; T_; L_; FLOAT]);
    (20, [J_]);
    (60, [S_; Z_]);
    (150, [PLUS]);
    (300, [U_; DOT]) ].

(** [createPiece(type)]; the key [undefined] a failed [choice] yields is
    not in the table. *)
Definition createPiece (type : option PieceType) : result Piece.t :=
  match type with
  | None => Err UnknownPieceType
  | Some type =>
      let '(shape, color, (x, y)) := definition type in
      Ok {| Piece.type := type;
            Piece.shape := shape;
            Piece.color := color;
            Piece.gridX := x;
            Piece.gridY := y;
            Piece.rotation := 0;
            Piece.upMovesUsed := 0;
            Piece.generation := None |}
  end.

Definition Qmax (a b : Q) : Q := if Qle_bool a b then b else a.

(** [calculateSkillScore(state)] at the clock reading [now].  The source
    computes in doubles; the embedding computes the same expression in
    exact rationals. *)
Definition calculateSkillScore (state : State) (now : Z) : Z :=
  match startTime state with
  | None => 0
  | Some start =>
      if (start =? 0) || (pieces state =? 0) then 0
      else
        let elapsedSeconds := (inject_Z (now - start) / inject_Z 1000)%Q in
        let pps := (inject_Z (pieces state) / Qmax 1 elapsedSeconds)%Q in
        let efficiency :=
          (inject_Z (lines state) / inject_Z (pieces state))%Q in
        Qfloor (inject_Z (lines state * 2)
                + pps * inject_Z 50
                + efficiency * inject_Z 100
                + inject_Z (combo state * 20))%Q
  end.

Definition getAvailablePieces (state : State) (now : Z) : list PieceType :=
  if negb (Mode.progressive (mode state)) then Mode.pieces (mode state)
  else
    let skillScore := calculateSkillScore state now in
    flat_map snd
      (filter (fun tier => skillScore >=? fst tier) PIECE_PROGRESSION).

(** [PIECE_WEIGHTS[piece] || PIECE_WEIGHTS.DEFAULT], times 100, floored. *)
Definition weight_count (piece : PieceType) : nat :=
  match piece with
  | PLUS | U_ | DOT => 50
  | _ => 100
  end.

(** The test [rng.next() < 0.07] on a value [state / 2^32]: the double
    nearest to 0.07 times [2^32] is 300647710.72..., so for an integer
    state the test agrees with the exact comparison with 7/100. *)
Definition below_7_percent (value : Q) : bool :=
  negb (Qle_bool (7 # 100) value).

Definition selectWeightedPiece (availablePieces : list PieceType)
  (rng : Random.RNG) : option PieceType * Random.RNG :=
  let floatIncluded := existsb (PieceType_eqb FLOAT) availablePieces in
  let '(isFloat, rng1) :=
    if floatIncluded
    then let '(value, rng1) := Random.next rng in
         (below_7_percent value, rng1)
    else (false, rng) in
  if isFloat then (Some FLOAT, rng1)
  else
    let weightedPieces :=
      flat_map (fun piece => repeat piece (weight_count piece))
        (filter (fun piece => negb (PieceType_eqb piece FLOAT))
           availablePieces) in
    Random.choice weightedPieces rng1.

(** [getNextPiece(state)]: the piece and the generator after the draw. *)
Definition getNextPiece (state : State) (now : Z)
  : result (Piece.t * Random.RNG) :=
  match rng state with
  | None => Err RNGNotInitialized
  | Some rng =>
      let availablePieces := getAvailablePieces state now in
      match availablePieces with
      | [] => Err NoPiecesAvailable
      | _ =>
          let '(pieceType, rng') := selectWeightedPiece availablePieces rng in
          piece <- createPiece pieceType ;;
          Ok (piece, rng')
      end
  end.

Definition isGameActive (state : State) : bool :=
  match phase state with
  | FALLING | LOCKING | CLEARING => true
  | _ => false
  end.

Definition canProcessInput (state : State) : bool :=
  match phase state with
  | FALLING | LOCKING => true
  | _ => false
  end.

(** Truthiness of a board cell [board[y][x]]: a non-empty colour token. *)
Definition cellFilled (c : cell) : bool :=
  match c with
  | Some color => negb (String.eqb color EmptyString)
  | None => false
  end.

(** The two nested loops of [getBoardStats]: the running
    [(filledCells, maxHeight)]. *)
Definition countCells (board : Board) : Z * Z :=
  forEach_i (fun acc row y =>
    forEach_i (fun acc c (_ : Z) =>
      if cellFilled c
      then (fst acc + 1,
            Z.max (snd acc) (Z.of_nat (List.length board) - y))
      else acc)
      row 0 acc)
    board 0 (0, 0).

(** [getBoardStats(board)]; [board[0].length] throws on a board without
    rows. *)
Definition getBoardStats (board : Board) : result BoardStats.t :=
  match board with
  | [] => Err (TypeError "board[0] is undefined")
  | row0 :: _ =>
      let '(filledCells, maxHeight) := countCells board in
      let cells := Z.of_nat (List.length board) * Z.of_nat (List.length row0) in
      Ok {| BoardStats.filledCells := filledCells;
            BoardStats.maxHeight := maxHeight;
            BoardStats.density :=
              if cells =? 0 then None
              else Some (inject_Z filledCells / inject_Z cells)%Q |}
  end.

(** [validateState(state)]: the list [errors]; [valid] is its emptiness.
    The check of the current piece's type against [PIECE_DEFINITIONS]
    cannot fail for a [PieceType]. *)
Definition validateState (state : State) : list string :=
  (if negb (Nat.eqb (List.length (board state)) 20)
   then ["Invalid board dimensions"] else [])
  ++ (if existsb (fun row => negb (Nat.eqb (List.length row) 10))
           (board state)
      then ["Invalid board row width"] else [])
  ++ (if level state <? 1 then ["Invalid level"] else [])
  ++ (if (score state <? 0) || (lines state <? 0) || (pieces state <? 0)
      then ["Negative counter values"] else []).

Definition valid (errors : list string) : bool :=
  match errors with
  | [] => true
  | _ => false
  end.

End GameState.

(** ** scoring-engine.js *)

Module Scoring.

(** [SPIN_CORNERS] *)
Definition SPIN_CORNERS : list (Z * Z) :=
  [(-1, -1); (1, -1); (-1, 1); (1, 1)].

(** [new ScoringEngine()] *)
Definition new : ScoringEngine :=
  {| scoreLedger := [];
     stats := {| Stats.piecesPlaced := 0; Stats.linesCleared := 0;
                 Stats.spinBonuses := 0; Stats.perfectClears := 0;
                 Stats.maxCombo := 0 |};
     frameCount := 0;
     replayStartTime := None;
     finalScore := 0;
     verified := false |}.

(** The ledger part of [initializeGame(seed, mode)]. *)
Definition initializeGame (now : Z) : ScoringEngine :=
  set_replayStartTime (Some now) new.

(** *** Hash utilities *)

(** [ToInt32] *)
Definition to_int32 (z : Z) : Z := (z + 2 ^ 31) mod 2 ^ 32 - 2 ^ 31.

(** One round of the loop of [simpleHash] on the code unit [char]:
    [hash = ((hash << 5) - hash) + char; hash = hash & hash]. *)
Definition hash_step (hash : Z) (char : ascii) : Z :=
  to_int32 (to_int32 (hash * 32) - hash + Z.of_N (N_of_ascii char)).

Fixpoint hash_loop (str : string) (hash : Z) : Z :=
  match str with
  | EmptyString => hash
  | String char rest => hash_loop rest (hash_step hash char)
  end.

(** [n.toString(16)] for [n >= 0] *)
Definition to_hex (n : Z) : string :=
  HexadecimalString.NilZero.string_of_uint (N.to_hex_uint (Z.to_N n)).

(** [String(n)] for an integer below [10^21] in magnitude *)
Definition to_dec (n : Z) : string :=
  DecimalString.NilZero.string_of_int (Z.to_int n).

Definition simpleHash (str : string) : string :=
  to_hex (Z.abs (hash_loop str 0)).

Definition type_name (type : ScoreEventType) : string :=
  match type with
  | SOFT_DROP => "SOFT_DROP"
  | HARD_DROP => "HARD_DROP"
  | LINE_CLEAR => "LINE_CLEAR"
  | SPIN_BONUS => "SPIN_BONUS"
  | COMBO => "COMBO"
  | BACK_TO_BACK => "BACK_TO_BACK"
  | PERFECT_CLEAR => "PERFECT_CLEAR"
  | LEVEL_BONUS => "LEVEL_BONUS"
  end.

Definition quote : string := String (ascii_of_nat 34) EmptyString.

Definition stringify_value (v : JsValue) : string :=
  match v with
  | JNum n => to_dec n
  | JBool true => "true"
  | JBool false => "false"
  end.

Fixpoint stringify_fields (fields : Metadata) : string :=
  match fields with
  | [] => EmptyString
  | [(key, v)] => quote ++ key ++ quote ++ ":" ++ stringify_value v
  | (key, v) :: rest =>
      quote ++ key ++ quote ++ ":" ++ stringify_value v ++ ","
      ++ stringify_fields rest
  end.

(** [JSON.stringify(event.metadata)] *)
Definition stringify (metadata : Metadata) : string :=
  "{" ++ stringify_fields metadata ++ "}".

(** [hashEvent(event, prevHash)]; the event's own [hash] and [timestamp]
    are not part of the hashed text. *)
Definition hashEvent (event : ScoreEvent.t) (prevHash : string) : string :=
  simpleHash (prevHash ++ "|" ++ to_dec (ScoreEvent.frame event)
              ++ "|" ++ type_name (ScoreEvent.type event)
              ++ "|" ++ to_dec (ScoreEvent.points event)
              ++ "|" ++ stringify (ScoreEvent.metadata event)).

(** The hash of the last event of the ledger, or ["0"]. *)
Definition lastHash (ledger : list ScoreEvent.t) : string :=
  match List.rev ledger with
  | last :: _ => ScoreEvent.hash last
  | [] => "0"
  end.

Definition addScoreEvent (this : ScoringEngine) (type : ScoreEventType)
  (points : Z) (metadata : Metadata) (now : Z) : ScoringEngine :=
  let event :=
    {| ScoreEvent.frame := frameCount this;
       ScoreEvent.type := type;
       ScoreEvent.points := points;
       ScoreEvent.metadata := metadata;
       ScoreEvent.timestamp :=
         now - match replayStartTime this with Some t => t | None => 0 end;
       ScoreEvent.hash := EmptyString |} in
  let prevHash := lastHash (scoreLedger this) in
  let event :=
    {| ScoreEvent.frame := ScoreEvent.frame event;
       ScoreEvent.type := ScoreEvent.type event;
       ScoreEvent.points := ScoreEvent.points event;
       ScoreEvent.metadata := ScoreEvent.metadata event;
       ScoreEvent.timestamp := ScoreEvent.timestamp event;
       ScoreEvent.hash := hashEvent event prevHash |} in
  set_scoreLedger (scoreLedger this ++ [event]) this.

Definition updateFrame (this : ScoringEngine) : ScoringEngine :=
  set_frameCount (frameCount this + 1) this.

(** The loop of [validateScoreLedger] from the running [prevHash]. *)
Fixpoint validate_from (ledger : list ScoreEvent.t) (prevHash : string)
  : bool :=
  match ledger with
  | [] => true
  | event :: rest =>
      let expectedHash := hashEvent event prevHash in
      if negb (String.eqb (ScoreEvent.hash event) expectedHash) then false
      else validate_from rest (ScoreEvent.hash event)
  end.

Definition validateScoreLedger (this : ScoringEngine) : bool :=
  validate_from (scoreLedger this) "0".

(** *** Scores *)

Definition scoreSoftDrop (this : ScoringEngine) (rows : Z) (now : Z)
  : Z * ScoringEngine :=
  let points := rows * 1 in
  (points, addScoreEvent this SOFT_DROP points [("rows", JNum rows)] now).

Definition scoreHardDrop (this : ScoringEngine) (rows : Z) (now : Z)
  : Z * ScoringEngine :=
  let points := rows * 2 in
  (points, addScoreEvent this HARD_DROP points [("rows", JNum rows)] now).

(** Truthiness of [state.board[y][x]]: a non-empty colour token. *)
Definition cell_truthy (c : option cell) : bool :=
  match c with
  | Some (Some color) => negb (String.eqb color EmptyString)
  | _ => false
  end.

Definition is_rotate (lastMove : option LastMove.t) : bool :=
  match lastMove with
  | Some (LastMove.ROTATE _) => true
  | _ => false
  end.

Definition corner_filled (state : State) (centerX centerY : Z)
  (corner : Z * Z) : bool :=
  let x := centerX + fst corner in
  let y := centerY + snd corner in
  if (x <? 0) || (x >=? 10) || (y >=? 20) then true
  else (y >=? 0) && cell_truthy (Physics.board_get (board state) y x).

Definition detectSpinBonus (state : State) (lastMove : option LastMove.t)
  : bool :=
  match current state with
  | None => false
  | Some piece =>
      if negb (PieceType_eqb (Piece.type piece) T_) then false
      else if negb (is_rotate lastMove) then false
      else
        let centerX := Piece.gridX piece + 1 in
        let centerY := Piece.gridY piece + 1 in
        let filledCorners :=
          List.length
            (filter (corner_filled state centerX centerY) SPIN_CORNERS) in
        (3 <=? filledCorners)%nat
  end.

Definition isPerfectClear (board : Board) : bool :=
  forallb (forallb (fun c : cell =>
                      match c with None => true | Some _ => false end)) board.

(** A table lookup [table[i]].  Outside the table the source reads
    [undefined], the score becomes [NaN], and the source goes on: it
    returns a state whose score is [NaN].  The integers of the embedding
    hold no [NaN]; the computation ends with [Err NaNScore] at this
    point, to be read as "the score is no longer a number", not as a
    throw.  No state of a session gets here. *)
Definition lookup (table : list Z) (i : Z) : result Z :=
  match index table i with
  | Some v => Ok v
  | None => Err NaNScore
  end.

Definition spinTable : list Z := [400; 800; 1200; 1600].
Definition normalTable : list Z := [0; 100; 300; 500; 800].
Definition perfectTable : list Z := [0; 800; 1200; 1800; 2000].

Definition positive_counter (c : option Z) : bool :=
  match c with
  | Some n => 0 <? n
  | None => false
  end.

Definition metadata_of_counter (key : string) (c : option Z) : Metadata :=
  match c with
  | Some n => [(key, JNum n)]
  | None => []
  end.

(** [scoreLineClears(state, linesCleared, lastMove)]: the aggregate score
    and the engine with its new ledger entries and counters. *)
Definition scoreLineClears (this : ScoringEngine) (state : State)
  (linesCleared : Z) (lastMove : option LastMove.t) (now : Z)
  : result (Z * ScoringEngine) :=
  let level := level state in
  let hasSpinBonus := detectSpinBonus state lastMove in
  '(baseScore, this) <-
    (if hasSpinBonus
     then
       baseScore <- lookup spinTable (Z.min (linesCleared - 1) 3) ;;
       Ok (baseScore,
           set_stats
             (Stats.set_spinBonuses (Stats.spinBonuses (stats this) + 1)
                (stats this)) this)
     else
       baseScore <- lookup normalTable (Z.min linesCleared 4) ;;
       Ok (baseScore, this)) ;;
  let score := baseScore * level in
  let isDifficult := (linesCleared =? 4) || hasSpinBonus in
  let '(score, this) :=
    if isDifficult && positive_counter (backToBackCounter state)
    then
      let b2bBonus := (baseScore / 2) * level in
      (score + b2bBonus,
       addScoreEvent this BACK_TO_BACK b2bBonus
         (metadata_of_counter "multiplier" (backToBackCounter state)) now)
    else (score, this) in
  let '(score, this) :=
    if 1 <? combo state
    then
      let comboBonus := 50 * combo state * level in
      (score + comboBonus,
       set_stats
         (Stats.set_maxCombo
            (Z.max (Stats.maxCombo (stats this)) (combo state))
            (stats this))
         (addScoreEvent this COMBO comboBonus
            [("combo", JNum (combo state))] now))
    else (score, this) in
  '(score, this) <-
    (if isPerfectClear (board state)
     then
       bonus <- lookup perfectTable (Z.min linesCleared 4) ;;
       let perfectBonus := bonus * level in
       Ok (score + perfectBonus,
           set_stats
             (Stats.set_perfectClears (Stats.perfectClears (stats this) + 1)
                (stats this))
             (addScoreEvent this PERFECT_CLEAR perfectBonus [] now))
     else Ok (score, this)) ;;
  let this :=
    addScoreEvent this LINE_CLEAR (baseScore * level)
      [("lines", JNum linesCleared); ("spinBonus", JBool hasSpinBonus);
       ("level", JNum level)] now in
  let this :=
    set_stats
      (Stats.set_linesCleared
         (Stats.linesCleared (stats this) + linesCleared) (stats this))
      this in
  Ok (score, this).

(** The counter part of [updateStats(state)]. *)
Definition updateStats (this : ScoringEngine) (pieces : Z) : ScoringEngine :=
  set_stats (Stats.set_piecesPlaced pieces (stats this)) this.

(** The ledger part of [finalizeGame(finalState)]. *)
Definition finalizeGame (this : ScoringEngine) (finalState : State)
  : ScoringEngine :=
  set_verified true
    (set_finalScore (score finalState)
       (updateStats this (pieces finalState))).

(** The loop of [validateSnapshots] from the running [prevFrame] and
    [prevScore]. *)
Fixpoint snapshots_from (snapshots : list Snapshot.t) (prevFrame prevScore : Z)
  : bool :=
  match snapshots with
  | [] => true
  | snapshot :: rest =>
      if Snapshot.frame snapshot <=? prevFrame then false
      else if Snapshot.score snapshot <? prevScore then false
      else snapshots_from rest (Snapshot.frame snapshot)
             (Snapshot.score snapshot)
  end.

(** [validateSnapshots()] on [this.replayData.stateSnapshots]. *)
Definition validateSnapshots (stateSnapshots : list Snapshot.t) : bool :=
  snapshots_from stateSnapshots (-1) (-1).

(** [action.type] *)
Definition action_type (action : Action.t) : string :=
  match action with
  | Action.SPACE => "SPACE"
  | Action.ENTER => "ENTER"
  | Action.ESCAPE => "ESCAPE"
  | Action.UP_PRESSED => "UP_PRESSED"
  | Action.MOVE _ _ => "MOVE"
  | Action.ROTATE _ => "ROTATE"
  | Action.HARD_DROP => "HARD_DROP"
  | Action.HOLD => "HOLD"
  | Action.OTHER type => type
  end.

(** [String(action.dx)] and [String(action.dy)]; the fields are
    [undefined] on the actions that are no moves. *)
Definition action_dx (action : Action.t) : string :=
  match action with
  | Action.MOVE dx _ => to_dec dx
  | _ => "undefined"
  end.

Definition action_dy (action : Action.t) : string :=
  match action with
  | Action.MOVE _ dy => to_dec dy
  | _ => "undefined"
  end.

(** The key [`${input.action.type}|${input.action.dx}|${input.action.dy}`]
    of [compressReplay]. *)
Definition input_key (input : ReplayInput.t) : string :=
  action_type (ReplayInput.action input)
  ++ "|" ++ action_dx (ReplayInput.action input)
  ++ "|" ++ action_dy (ReplayInput.action input).

(** [if (current)]: a string that is neither [null] nor empty. *)
Definition current_truthy (current : option string) : bool :=
  match current with
  | Some key => negb (String.eqb key EmptyString)
  | None => false
  end.

(** The loop of [compressReplay] over [data.inputs], from the running
    [current], [count] and the entries pushed so far. *)
Fixpoint compress_loop (inputs : list ReplayInput.t)
  (current : option string) (count : Z)
  (compressedInputs : list CompressedInput.t) : list CompressedInput.t :=
  match inputs with
  | [] =>
      match current with
      | Some key =>
          if current_truthy current
          then compressedInputs
               ++ [{| CompressedInput.key := key;
                      CompressedInput.count := count;
                      CompressedInput.frame := None |}]
          else compressedInputs
      | None => compressedInputs
      end
  | input :: rest =>
      let key := input_key input in
      let same :=
        match current with
        | Some key' => String.eqb key key'
        | None => false
        end in
      if same then compress_loop rest current (count + 1) compressedInputs
      else
        let compressedInputs :=
          match current with
          | Some key' =>
              if current_truthy current
              then compressedInputs
                   ++ [{| CompressedInput.key := key';
                          CompressedInput.count := count;
                          CompressedInput.frame :=
                            Some (ReplayInput.frame input - count) |}]
              else compressedInputs
          | None => compressedInputs
          end in
        compress_loop rest (Some key) 1 compressedInputs
  end.

(** The [inputs] of [compressReplay(data)]. *)
Definition compressReplay (inputs : list ReplayInput.t)
  : list CompressedInput.t :=
  compress_loop inputs None 0 [].

(** [hashScoreLedger()]: the hashes joined by ["|"], hashed. *)
Definition hashScoreLedger (this : ScoringEngine) : string :=
  simpleHash
    (String.concat "|" (List.map ScoreEvent.hash (scoreLedger this))).

End Scoring.

(** ** game-engine.js *)

Module Engine.

(** [a >= b] on timers *)
Definition Qge_bool (a b : Q) : bool := Qle_bool b a.

(** The piece [state.current] where the source dereferences it. *)
Definition current_piece (state : State) : result Piece.t :=
  match current state with
  | Some piece => Ok piece
  | None => Err (TypeError "state.current is null")
  end.

Definition isFloat (piece : Piece.t) : bool :=
  PieceType_eqb (Piece.type piece) FLOAT.

Definition canFallFrom (board : Board) (piece : Piece.t) : bool :=
  Physics.canPieceFitAt board piece (Piece.gridX piece) (Piece.gridY piece + 1).

Definition gameOver (state : State) : State :=
  let state :=
    match scoringEngine state with
    | Some engine =>
        set_scoringEngine (Some (Scoring.finalizeGame engine state)) state
    | None => state
    end in
  set_next None (set_current None (set_phase GAME_OVER state)).

Definition spawnNextPiece (state : State) (now : Z) : result State :=
  match phase state with
  | GAME_OVER => Ok state
  | _ =>
      match next state with
      | None => Err (TypeError "newPiece.shape is undefined")
      | Some next =>
          let newPiece :=
            Piece.set_upMovesUsed 0
              (Piece.set_generation (Some (generation state + 1)) next) in
          if negb (Physics.canSpawn (board state) newPiece)
          then Ok (gameOver state)
          else
            '(nextPiece, rng') <- GameState.getNextPiece state now ;;
            Ok (set_generation (generation state + 1)
                  (set_phase FALLING
                     (set_pieces (pieces state + 1)
                        (set_next (Some nextPiece)
                           (set_current (Some newPiece)
                              (set_rng (Some rng') state))))))
      end
  end.

Definition lockPiece (state : State) (now : Z) : result State :=
  piece <- current_piece state ;;
  if Piece.gridY piece <? 0 then
    let newBoard := Physics.placePiece (board state) piece in
    Ok (gameOver (set_deathPiece (Some piece) (set_board newBoard state)))
  else
    let newBoard := Physics.placePiece (board state) piece in
    let clearedLines := Physics.findClearedLines newBoard in
    let state :=
      match scoringEngine state with
      | Some engine =>
          set_scoringEngine
            (Some (Scoring.updateStats engine (pieces state + 1))) state
      | None => state
      end in
    match clearedLines with
    | _ :: _ =>
        Ok (set_canHold true
              (set_clearingLines clearedLines
                 (set_clearTimer 0
                    (set_phase CLEARING
                       (set_current None (set_board newBoard state))))))
    | [] =>
        spawnNextPiece
          (set_pieces (pieces state + 1)
             (set_canHold true
                (set_current None (set_board newBoard state)))) now
    end.

Definition finishClearing (state : State) (now : Z) : result State :=
  let newBoard :=
    Physics.removeClearedLines (board state) (clearingLines state) in
  let linesCleared := Z.of_nat (List.length (clearingLines state)) in
  let newState :=
    set_level ((lines state + linesCleared) / 10 + 1)
      (set_lines (lines state + linesCleared)
         (set_clearingLines [] (set_board newBoard state))) in
  newState <-
    match scoringEngine state with
    | Some engine =>
        '(points, engine') <-
          Scoring.scoreLineClears engine state linesCleared
            (lastMove state) now ;;
        Ok (set_combo (if 0 <? linesCleared then combo state + 1 else 0)
              (set_score (score newState + points)
                 (set_scoringEngine (Some engine') newState)))
    | None => Ok newState
    end ;;
  spawnNextPiece newState now.

(** [executeMove(state, newX, newY, dx, dy)].  In the LOCKING phase, when
    the moved piece can fall, the source evaluates [piece.type], and
    [piece] is not declared in that function: a [ReferenceError]. *)
Definition executeMove (state : State) (newX newY dx dy : Z) (now : Z)
  : result State :=
  piece <- current_piece state ;;
  let movedPiece := Piece.set_gridY newY (Piece.set_gridX newX piece) in
  let movedPiece :=
    if isFloat piece && (dy <? 0)
    then Piece.set_upMovesUsed (Piece.upMovesUsed piece + 1) movedPiece
    else movedPiece in
  let newState :=
    set_lastMove
      (Some (LastMove.MOVE dx dy
               ((0 <? dy) && negb (canFallFrom (board state) movedPiece))))
      (set_current (Some movedPiece) state) in
  let newState :=
    if negb (dy =? 0) then set_gravityAccumulator 0 newState
    else newState in
  let canFall := canFallFrom (board state) movedPiece in
  newState <-
    match phase state with
    | FALLING =>
        if negb canFall
        then Ok (set_lockTimer 0 (set_phase LOCKING newState))
        else Ok newState
    | LOCKING =>
        if canFall then Err (ReferenceError "piece")
        else Ok (set_lockTimer 0 newState)
    | _ => Ok newState
    end ;;
  match scoringEngine state with
  | Some engine =>
      if 0 <? dy then
        let '(points, engine') := Scoring.scoreSoftDrop engine dy now in
        Ok (set_score (score newState + points)
              (set_scoringEngine (Some engine') newState))
      else Ok newState
  | None => Ok newState
  end.

Definition move (state : State) (dx dy : Z) (now : Z) : result State :=
  piece <- current_piece state ;;
  let targetX := Piece.gridX piece + dx in
  let targetY := Piece.gridY piece + dy in
  if Physics.canPieceFitAt (board state) piece targetX targetY
  then executeMove state targetX targetY dx dy now
  else
    let altY := targetY + 1 in
    if isFloat piece && negb (dx =? 0) && (dy =? 0)
       && (altY <? 20)
       && Physics.canPieceFitAt (board state) piece targetX altY
    then executeMove state targetX altY dx 1 now
    else
      Ok (set_lastMove
            (Some (LastMove.MOVE_BLOCKED dx dy
                     (negb (dx =? 0)) (0 <? dy) (dy <? 0)))
            state).

Definition rotate (state : State) (direction : Z) : result State :=
  piece <- current_piece state ;;
  match Physics.tryRotation (board state) piece direction with
  | None => Ok state
  | Some rotated =>
      let newState :=
        set_lastMove (Some (LastMove.ROTATE direction))
          (set_current (Some rotated) state) in
      let canFall := canFallFrom (board state) rotated in
      match phase state with
      | FALLING =>
          if negb canFall
          then Ok (set_lockTimer 0 (set_phase LOCKING newState))
          else Ok newState
      | LOCKING =>
          if canFall
          then Ok (set_lockTimer 0 (set_phase FALLING newState))
          else Ok (set_lockTimer 0 newState)
      | _ => Ok newState
      end
  end.

Definition hardDrop (state : State) (now : Z) : result State :=
  piece <- current_piece state ;;
  let shadowY := Physics.calculateShadow (board state) piece in
  let dropDistance := shadowY - Piece.gridY piece in
  let droppedPiece := Piece.set_gridY shadowY piece in
  let newState :=
    set_lastMove (Some LastMove.HARD_DROP)
      (set_current (Some droppedPiece) state) in
  let newState :=
    match scoringEngine state with
    | Some engine =>
        if 0 <? dropDistance then
          let '(points, engine') :=
            Scoring.scoreHardDrop engine dropDistance now in
          set_score (score newState + points)
            (set_scoringEngine (Some engine') newState)
        else newState
    | None => newState
    end in
  lockPiece newState now.

Definition tryHold (state : State) (now : Z) : result State :=
  match current state with
  | None => Ok state
  | Some held =>
      if negb (canHold state) then Ok state
      else
        newCurrent <-
          match hold state, next state with
          | Some piece, _ => Ok piece
          | None, Some piece => Ok piece
          | None, None => Err (TypeError "newCurrent is null")
          end ;;
        heldPiece <- GameState.createPiece (Some (Piece.type held)) ;;
        created <- GameState.createPiece (Some (Piece.type newCurrent)) ;;
        let activePiece :=
          Piece.set_upMovesUsed 0
            (Piece.set_generation (Some (generation state + 1)) created) in
        '(nextPiece, rng') <-
          match hold state with
          | Some _ => Ok (next state, rng state)
          | None =>
              '(piece, rng') <- GameState.getNextPiece state now ;;
              Ok (Some piece, Some rng')
          end ;;
        Ok (set_generation (generation state + 1)
              (set_phase FALLING
                 (set_canHold false
                    (set_next nextPiece
                       (set_hold (Some heldPiece)
                          (set_current (Some activePiece)
                             (set_rng rng' state)))))))
  end.

Definition processFalling (state : State) (deltaTime : Q) : result State :=
  match current state with
  | None => Ok (set_phase GAME_OVER state)
  | Some piece =>
      let newAccumulator := (gravityAccumulator state + deltaTime)%Q in
      let gravityDelay := inject_Z (Mode.gravity (mode state) (level state)) in
      if Qge_bool newAccumulator gravityDelay then
        if canFallFrom (board state) piece then
          let newPiece := Piece.set_gridY (Piece.gridY piece + 1) piece in
          let shadowY := Physics.calculateShadow (board state) newPiece in
          let justHitShadow :=
            (Piece.gridY newPiece =? shadowY)
            && negb (Piece.gridY piece =? shadowY) in
          Ok (set_lastMove
                (if justHitShadow then Some (LastMove.GRAVITY_HIT true)
                 else lastMove state)
                (set_gravityAccumulator 0
                   (set_current (Some newPiece) state)))
        else
          Ok (set_gravityAccumulator 0
                (set_totalLockTime 0
                   (set_lockTimer 0 (set_phase LOCKING state))))
      else Ok (set_gravityAccumulator newAccumulator state)
  end.

Definition processLocking (state : State) (deltaTime : Q) (now : Z)
  : result State :=
  piece <- current_piece state ;;
  let newLockTimer := (lockTimer state + deltaTime)%Q in
  let newTotalLockTime := (totalLockTime state + deltaTime)%Q in
  if canFallFrom (board state) piece then
    Ok (set_totalLockTime 0 (set_lockTimer 0 (set_phase FALLING state)))
  else if Qge_bool newTotalLockTime
            (inject_Z (Mode.maxLockTime (mode state))) then
    lockPiece state now
  else
    let lockDelay :=
      if isFloat piece
      then (inject_Z (Mode.lockDelay (mode state)) * (12 # 10))%Q
      else inject_Z (Mode.lockDelay (mode state)) in
    if Qge_bool newLockTimer lockDelay then lockPiece state now
    else Ok (set_totalLockTime newTotalLockTime
               (set_lockTimer newLockTimer state)).

Definition processClearing (state : State) (deltaTime : Q) (now : Z)
  : result State :=
  let newClearTimer := (clearTimer state + deltaTime)%Q in
  if Qge_bool newClearTimer 300 then finishClearing state now
  else Ok (set_clearTimer newClearTimer state).

Definition tick (state : State) (deltaTime : Q) (now : Z) : result State :=
  match phase state with
  | MENU | PAUSED | GAME_OVER => Ok state
  | FALLING => processFalling state deltaTime
  | LOCKING => processLocking state deltaTime now
  | CLEARING => processClearing state deltaTime now
  end.

Definition handleInput (state : State) (action : Action.t) (now : Z)
  : result State :=
  match phase state with
  | FALLING | LOCKING =>
      match current state with
      | None => Ok state
      | Some piece =>
          match action with
          | Action.UP_PRESSED =>
              if isFloat piece && (Piece.upMovesUsed piece <? 7)
              then move state 0 (-1) now
              else rotate state 1
          | Action.MOVE dx dy => move state dx dy now
          | Action.ROTATE direction => rotate state direction
          | Action.HARD_DROP => hardDrop state now
          | Action.HOLD => tryHold state now
          | _ => Ok state
          end
      end
  | _ => Ok state
  end.

Definition startGame (state : State) (now : Z) : result State :=
  match phase state with
  | FALLING | LOCKING | CLEARING => Ok state
  | _ =>
      let scoringEngine := Scoring.new in
      let rng :=
        match rng state with
        | Some rng => rng
        | None => Random.createRNG now
        end in
      '(firstPiece, rng) <-
        GameState.getNextPiece (set_rng (Some rng) state) now ;;
      '(nextPiece, rng) <-
        GameState.getNextPiece (set_rng (Some rng) state) now ;;
      Ok (set_startTime (Some now)
            (set_gravityAccumulator 0
               (set_rng (Some rng)
                  (set_scoringEngine (Some scoringEngine)
                     (set_generation 1
                        (set_combo 0
                           (set_pieces 1
                              (set_level 1
                                 (set_lines 0
                                    (set_score 0
                                       (set_next (Some nextPiece)
                                          (set_current
                                             (Some (Piece.set_upMovesUsed 0
                                                      (Piece.set_generation
                                                         (Some 1) firstPiece)))
                                             (set_phase FALLING
                                                (set_board
                                                   GameState.createEmptyBoard
                                                   state))))))))))))))
  end.

End Engine.

(** ** main.js: the routing of [handleAction] *)

Module Main.

(** [handleAction(action)] as a transition of [this.state]; [highScore] is
    what [createInitialState] reads from storage on a restart. *)
Definition handleAction (state : State) (action : Action.t) (now : Z)
  (highScore : Z) : result State :=
  match phase state with
  | MENU =>
      match action with
      | Action.SPACE | Action.ENTER => Engine.startGame state now
      | _ => Ok state
      end
  | FALLING | LOCKING =>
      match action with
      | Action.ESCAPE => Ok (set_phase PAUSED state)
      | Action.SPACE => Engine.handleInput state Action.HARD_DROP now
      | _ => Engine.handleInput state action now
      end
  | PAUSED =>
      match action with
      | Action.ESCAPE | Action.SPACE | Action.ENTER =>
          Ok (set_phase FALLING state)
      | _ => Ok state
      end
  | GAME_OVER =>
      match action with
      | Action.SPACE | Action.ENTER | Action.ESCAPE =>
          Ok (GameState.createInitialState highScore)
      | _ => Ok state
      end
  | CLEARING => Ok state
  end.

(** [tickRate = 1000 / 60] *)
Definition tickRate : Q := 1000 # 60.

End Main.

(** ** Runs of the game *)

(** One call of an entry point that returns normally. *)
Inductive step : State -> State -> Prop :=
| step_startGame state now state' :
    Engine.startGame state now = Ok state' -> step state state'
| step_tick state deltaTime now state' :
    Engine.tick state deltaTime now = Ok state' -> step state state'
| step_handleInput state action now state' :
    Engine.handleInput state action now = Ok state' -> step state state'
| step_handleAction state action now highScore state' :
    Main.handleAction state action now highScore = Ok state' ->
    step state state'.

(** The states a session passes through, from [createInitialState()]. *)
Inductive reachable : State -> Prop :=
| reachable_initial highScore :
    reachable (GameState.createInitialState highScore)
| reachable_step state state' :
    reachable state -> step state state' -> reachable state'.

Definition hasCurrent (state : State) : bool :=
  match current state with
  | Some _ => true
  | None => false
  end.

(** The phases of a falling or locking piece. *)
Definition fallingOrLocking (phase : Phase) : bool :=
  match phase with
  | FALLING | LOCKING => true
  | _ => false
  end.

(** The phases in which a piece is kept: a pause keeps it as well. *)
Definition holdsPiece (phase : Phase) : bool :=
  match phase with
  | FALLING | LOCKING | PAUSED => true
  | _ => false
  end.

(** The action types [handleInput] has a case for. *)
Definition recognized (action : Action.t) : bool :=
  match action with
  | Action.UP_PRESSED | Action.MOVE _ _ | Action.ROTATE _
  | Action.HARD_DROP | Action.HOLD => true
  | _ => false
  end.

(** The drift allowance of [move]: a FLOAT piece moving sideways that fits
    one row lower. *)
Definition driftApplies (state : State) (piece : Piece.t) (dx dy : Z) : bool :=
  Engine.isFloat piece && negb (dx =? 0) && (dy =? 0)
  && (Piece.gridY piece + dy + 1 <? 20)
  && Physics.canPieceFitAt (board state) piece (Piece.gridX piece + dx)
       (Piece.gridY piece + dy + 1).

(** The sub-cell [(dx, dy)] of the shape is occupied. *)
Definition occupied (piece : Piece.t) (dx dy : nat) : Prop :=
  exists row cell,
    nth_error (Piece.shape piece) dy = Some row
    /\ nth_error row dx = Some cell
    /\ truthy cell = true.

(** What the test requires of one shape entry at board position
    [(bx, by)]. *)
Definition cell_fits (board : Board) (cell bx by_ : Z) : bool :=
  if negb (truthy cell) then true
  else if (bx <? 0) || (bx >=? 10) then false
  else if by_ <? 0 then true
  else if by_ >=? 20 then false
  else Physics.is_null (Physics.board_get board by_ bx).

(** A 20 x 10 board. *)
Definition wf_board (board : Board) : Prop :=
  List.length board = 20%nat
  /\ Forall (fun row => List.length row = 10%nat) board.

(** The counters of a session. *)
Definition countersValid (state : State) : Prop :=
  0 <= lines state /\ 1 <= level state /\ 0 <= combo state.

(** While a clear is animated the board still holds the full rows, and
    they are the rows recorded for removal. *)
Definition clearingValid (state : State) : Prop :=
  phase state = CLEARING ->
  clearingLines state = Physics.findClearedLines (board state)
  /\ clearingLines state <> [].

Definition sessionInvariant (state : State) : Prop :=
  wf_board (board state) /\ countersValid state /\ clearingValid state.

(** An [n] x [n] shape matrix. *)
Definition square (shape : list (list Z)) : Prop :=
  Forall (fun row => List.length row = List.length shape) shape.

(** The operations on a scoring engine that the game performs. *)
Inductive ledgerOp : Type :=
| OpAddScoreEvent (type : ScoreEventType) (points : Z) (metadata : Metadata)
    (now : Z)
| OpUpdateFrame.

Definition applyOp (this : ScoringEngine) (op : ledgerOp) : ScoringEngine :=
  match op with
  | OpAddScoreEvent type points metadata now =>
      Scoring.addScoreEvent this type points metadata now
  | OpUpdateFrame => Scoring.updateFrame this
  end.

Module Scenario.

Definition T0 : Z := 1700000000000.

(** The initial state with a generator seeded for replay. *)
Definition seeded (seed : Z) : State :=
  set_rng (Some (Random.createRNG seed)) (GameState.createInitialState 0).

Definition started (seed : Z) : result State :=
  Engine.startGame (seeded seed) T0.

(** Start, then drop the first piece [elapsed] milliseconds later. *)
Definition hardDropAfter (seed elapsed : Z) : result State :=
  state <- started seed ;;
  Engine.handleInput state Action.HARD_DROP (T0 + elapsed).

Definition nextKind (run : result State) : option PieceType :=
  match run with
  | Ok state => option_map Piece.type (next state)
  | Err _ => None
  end.

Definition generatorOf (run : result State) : option Random.RNG :=
  match run with
  | Ok state => rng state
  | Err _ => None
  end.

Definition scoreOf (run : result State) : option Z :=
  match run with
  | Ok state => Some (score state)
  | Err _ => None
  end.

Definition unwrap (run : result State) : State :=
  match run with
  | Ok state => state
  | Err _ => GameState.createInitialState 0
  end.

Definition X : cell := Some "#888888".
Definition o : cell := None.

(** A pocket on the floor for a T piece, under an overhang. *)
Definition pocket : Board :=
  (repeat (repeat o 10) 16
   ++ [ [o; o; o; o; o; o; X; o; o; o];
        [o; o; o; X; o; o; X; o; o; o];
        [o; o; o; X; o; o; o; o; o; o];
        [X; X; X; o; o; o; X; X; X; X] ])%list.

(** The T piece upright (rotation 1) above the pocket. *)
Definition uprightT : Piece.t :=
  {| Piece.type := T_;
     Piece.shape := [[0; 1; 0]; [0; 1; 1]; [0; 1; 0]];
     Piece.color := "#8A2BE2";
     Piece.gridX := 3;
     Piece.gridY := 16;
     Piece.rotation := 1;
     Piece.upMovesUsed := 0;
     Piece.generation := Some 1 |}.

Definition withPiece (board : Board) (piece : Piece.t) : result State :=
  state <- started 3 ;;
  Ok (set_current (Some piece) (set_board board state)).

(** The T piece is rotated into the pocket ... *)
Definition spinRotated : result State :=
  state <- withPiece pocket uprightT ;;
  Engine.handleInput state (Action.ROTATE (-1)) (T0 + 100).

(** ... rests until the lock delay expires ... *)
Definition spinLocked : result State :=
  state <- spinRotated ;;
  Engine.tick state 500 (T0 + 700).

(** ... and the clear animation ends. *)
Definition spinCleared : result State :=
  state <- spinLocked ;;
  Engine.tick state 300 (T0 + 1000).

Definition spinDetected (run : result State) : bool :=
  match run with
  | Ok state => Scoring.detectSpinBonus state (lastMove state)
  | Err _ => false
  end.

(** A board whose only filled cells are six cells of the last row. *)
Definition lastRowOpen : Board :=
  (repeat (repeat o 10) 19 ++ [ [X; X; X; o; o; o; o; X; X; X] ])%list.

(** The I piece flat in the gap of the last row. *)
Definition flatI : Piece.t :=
  {| Piece.type := I_;
     Piece.shape := [[0; 0; 0; 0]; [1; 1; 1; 1]; [0; 0; 0; 0]; [0; 0; 0; 0]];
     Piece.color := "#00FFFF";
     Piece.gridX := 3;
     Piece.gridY := 18;
     Piece.rotation := 0;
     Piece.upMovesUsed := 0;
     Piece.generation := Some 1 |}.

Definition perfectLocked : result State :=
  state <- withPiece lastRowOpen flatI ;;
  Engine.handleInput state Action.HARD_DROP (T0 + 100).

Definition perfectCleared : result State :=
  state <- perfectLocked ;;
  Engine.tick state 300 (T0 + 400).

(** The first piece of the seed 3, a T, moved left until it touches the
    wall. *)
Definition atLeftWall : State :=
  unwrap (state <- started 3 ;;
          state <- Engine.handleInput state (Action.MOVE (-1) 0) (T0 + 100) ;;
          state <- Engine.handleInput state (Action.MOVE (-1) 0) (T0 + 200) ;;
          Engine.handleInput state (Action.MOVE (-1) 0) (T0 + 300)).

(** A FLOAT piece resting on the floor of the empty board, locking. *)
Definition restingFloat : result State :=
  state <- started 3 ;;
  Ok (set_phase LOCKING
        (set_current
           (Some {| Piece.type := FLOAT;
                    Piece.shape := [[1]];
                    Piece.color := "#FFFFFF";
                    Piece.gridX := 4;
                    Piece.gridY := 19;
                    Piece.rotation := 0;
                    Piece.upMovesUsed := 0;
                    Piece.generation := Some 1 |})
           state)).

Definition boardOf (run : result State) : option Board :=
  match run with
  | Ok state => Some (board state)
  | Err _ => None
  end.

Definition ledgerOf (run : result State) : list ScoreEvent.t :=
  match run with
  | Ok state =>
      match scoringEngine state with
      | Some engine => scoreLedger engine
      | None => []
      end
  | Err _ => []
  end.

(** A fresh session: SPACE on the menu ... *)
Definition playing : State :=
  unwrap (Main.handleAction (GameState.createInitialState 0) Action.SPACE
            T0 0).

(** ... then a hard drop of the first piece ... *)
Definition dropped : State :=
  unwrap (Engine.handleInput playing Action.HARD_DROP (T0 + 500)).

(** ... or ESCAPE while the first piece falls. *)
Definition paused : State :=
  unwrap (Main.handleAction playing Action.ESCAPE (T0 + 50) 0).

(** A ledger with the one event of a single line clear at level 1. *)
Definition lineClearMetadata : Metadata :=
  [("lines", JNum 1); ("spinBonus", JBool false); ("level", JNum 1)].

Definition oneClear : ScoringEngine :=
  Scoring.addScoreEvent Scoring.new LINE_CLEAR 100 lineClearMetadata T0.

End Scenario.

(** ** Invariants of play *)

(** A piece as [createPiece] returns it. *)
Definition spawnPose (piece : Piece.t) : Prop :=
  GameState.createPiece (Some (Piece.type piece)) = Ok piece.

Definition whenSome {A : Type} (P : A -> Prop) (x : option A) : Prop :=
  match x with
  | Some a => P a
  | None => True
  end.

Definition fitsBoard (board : Board) (piece : Piece.t) : Prop :=
  Physics.canPieceFitAt board piece (Piece.gridX piece) (Piece.gridY piece)
  = true.

(** The phases between [startGame] and the game over. *)
Definition inPlay (phase : Phase) : bool :=
  match phase with
  | FALLING | LOCKING | CLEARING | PAUSED => true
  | _ => false
  end.

(** The sum of the points of the events of a ledger. *)
Definition ledgerPoints (ledger : list ScoreEvent.t) : Z :=
  fold_right (fun event total => ScoreEvent.points event + total) 0 ledger.

(** The ledger validates and accounts for the whole score. *)
Definition ledgerAccounts (state : State) (engine : ScoringEngine) : Prop :=
  Scoring.validateScoreLedger engine = true
  /\ score state = ledgerPoints (scoreLedger engine).

(** A game over records the piece that locked above the board. *)
Definition toppedOut (state : State) : Prop :=
  phase state = GAME_OVER ->
  exists piece, deathPiece state = Some piece /\ Piece.gridY piece < 0.

(** While in play the state holds what the next spawn needs. *)
Definition equipped (state : State) : Prop :=
  inPlay (phase state) = true ->
  next state <> None /\ rng state <> None /\ scoringEngine state <> None.

(** What every state of a session satisfies, whatever its phase. *)
Definition playCore (state : State) : Prop :=
  mode state = GameState.neonDrop
  /\ whenSome spawnPose (next state)
  /\ whenSome spawnPose (hold state)
  /\ level state = lines state / 10 + 1
  /\ 0 <= lines state
  /\ 0 <= combo state
  /\ 0 <= pieces state
  /\ 0 <= score state
  /\ whenSome (ledgerAccounts state) (scoringEngine state).

Definition playInvariant (state : State) : Prop :=
  playCore state
  /\ whenSome (fitsBoard (board state)) (current state)
  /\ equipped state
  /\ toppedOut state.

(** The generator of the state, if any, is in the range where its
    arithmetic is exact. *)
Definition seedInRange (state : State) : Prop :=
  whenSome (fun seed => 0 <= seed <= 2 ^ 53) (rng state).

(** The first row of the board that holds a filled cell. *)
Fixpoint firstFilledRow (board : Board) : option nat :=
  match board with
  | [] => None
  | row :: rest =>
      if existsb GameState.cellFilled row then Some O
      else option_map S (firstFilledRow rest)
  end.

(** The keys a run-length encoded input list stands for. *)
Definition expandRuns (compressedInputs : list CompressedInput.t)
  : list string :=
  flat_map (fun run => repeat (CompressedInput.key run)
                         (Z.to_nat (CompressedInput.count run)))
    compressedInputs.

(** Two recorded inputs that differ at most in the time stamp and in the
    direction of a rotation. *)
Definition sameButDirection (a b : ReplayInput.t) : Prop :=
  ReplayInput.frame a = ReplayInput.frame b
  /\ match ReplayInput.action a, ReplayInput.action b with
     | Action.ROTATE _, Action.ROTATE _ => True
     | x, y => x = y
     end.

(** Frames strictly increase and scores do not decrease from [a] to
    [b]. *)
Definition snapshotOrder (a b : Snapshot.t) : Prop :=
  Snapshot.frame a < Snapshot.frame b /\ Snapshot.score a <= Snapshot.score b.

(** [n] hard drops in a row, 100 ms apart. *)
Fixpoint hardDrops (n : nat) (state : State) (now : Z) : result State :=
  match n with
  | O => Ok state
  | S n' =>
      state' <- Engine.handleInput state Action.HARD_DROP now ;;
      hardDrops n' state' (now + 100)
  end.

(** A session played by hard drops only, until the stack reaches the
    top. *)
Definition stackedOut : State :=
  Scenario.unwrap (hardDrops 30 Scenario.playing (Scenario.T0 + 1000)).


(** The state after the T piece has been rotated into the pocket, with
    the phase overwritten by CLEARING: the piece is still present and no
    line is recorded for clearing; no state of a session either. *)
Definition pieceWhileClearing : State :=
  set_phase CLEARING (Scenario.unwrap Scenario.spinRotated).

(** * Properties *)

(** ** The generator *)

Section Generator.

Lemma fl53_small (z : Z) : Z.abs z <= 2 ^ 53 -> Random.fl53 z = z.
Proof.
  intros Hz. unfold Random.fl53, Random.fl53_pos.
  destruct (Z.ltb_spec z 0) as [Hneg | Hpos].
  - destruct (Z.leb_spec (- z) (2 ^ 53)); lia.
  - destruct (Z.leb_spec z (2 ^ 53)); lia.
Qed.

Lemma fl53_pos_nonneg (z : Z) : 0 <= z -> 0 <= Random.fl53_pos z.
Proof.
  intros Hz. unfold Random.fl53_pos.
  destruct (Z.leb_spec z (2 ^ 53)) as [| Hbig]; [assumption |].
  assert (He : 0 < 2 ^ (Z.log2 z - 52)).
  { apply Z.pow_pos_nonneg; [lia |].
    assert (53 <= Z.log2 z) by (apply Z.log2_le_pow2; lia). lia. }
  assert (Hq : 0 <= z / 2 ^ (Z.log2 z - 52)) by (apply Z.div_pos; lia).
  repeat match goal with
         | |- context [if ?b then _ else _] => destruct b
         end; nia.
Qed.

Lemma fl53_nonneg (z : Z) : 0 <= z -> 0 <= Random.fl53 z.
Proof.
  intros Hz. unfold Random.fl53.
  destruct (Z.ltb_spec z 0); [lia | now apply fl53_pos_nonneg].
Qed.

(** From a non-negative state the next state is a 32-bit natural. *)
Lemma advance_range (state : Z) :
  0 <= state -> 0 <= Random.advance state < Random.modulus.
Proof.
  intros Hs. unfold Random.advance, Random.modulus.
  assert (H1 : 0 <= Random.fl53 (state * 1664525)) by (apply fl53_nonneg; lia).
  assert (H2 : 0 <= Random.fl53 (Random.fl53 (state * 1664525) + 1013904223))
    by (apply fl53_nonneg; lia).
  rewrite Z.rem_mod_nonneg by lia.
  apply Z.mod_pos_bound. lia.
Qed.

(** From a 32-bit state no rounding occurs. *)
Lemma advance_exact (state : Z) :
  0 <= state < Random.modulus ->
  Random.advance state = (state * 1664525 + 1013904223) mod 4294967296.
Proof.
  unfold Random.modulus. intros Hs. unfold Random.advance, Random.modulus.
  assert (E : 2 ^ 53 = 9007199254740992) by reflexivity.
  rewrite (fl53_small (state * 1664525)) by lia.
  rewrite fl53_small by lia.
  apply Z.rem_mod_nonneg; lia.
Qed.

Lemma output_unit_interval (state : Z) :
  0 <= state < Random.modulus ->
  (0 <= Random.output state)%Q /\ (Random.output state < 1)%Q.
Proof.
  unfold Random.modulus, Random.output, Qle, Qlt. cbn. lia.
Qed.

Lemma states_range (n : nat) (rng : Z) :
  0 <= rng -> Forall (fun s => 0 <= s < Random.modulus) (Random.states n rng).
Proof.
  revert rng. induction n as [| n IH]; intros rng Hr; cbn.
  - constructor.
  - pose proof (advance_range rng Hr). constructor; [assumption |].
    apply IH. lia.
Qed.

(** Consecutive states of a run are related by the exact recurrence. *)
Lemma states_chain (n : nat) (rng : Z) (k : nat) (s s' : Z) :
  0 <= rng ->
  nth_error (Random.states n rng) k = Some s ->
  nth_error (Random.states n rng) (S k) = Some s' ->
  s' = (s * 1664525 + 1013904223) mod 4294967296.
Proof.
  revert rng k. induction n as [| n IH]; intros rng k Hr Hk Hk'.
  - destruct k; discriminate.
  - cbn in Hk, Hk'. pose proof (advance_range rng Hr) as Ha.
    destruct k as [| k].
    + cbn in Hk. injection Hk as <-.
      destruct n as [| n]; [discriminate |].
      cbn in Hk'. injection Hk' as <-.
      now apply advance_exact.
    + cbn in Hk. apply (IH (Random.advance rng) k); [lia | assumption |].
      exact Hk'.
Qed.

End Generator.

(** The first call on a wall-clock seed rounds: the state is not the one
    exact integer arithmetic gives. *)
Example advance_rounds_large_seed :
  Random.advance 1700000000001 = 1520345600
  /\ (1700000000001 * 1664525 + 1013904223) mod 4294967296 = 1520345452.
Proof. split; vm_compute; reflexivity. Qed.

(** C9, as stated, fails: from the seed -1000 the first value returned by
    [next] is negative, outside [0, 1). *)
Lemma C9_negative_seed_leaves_unit_interval :
  fst (Random.next (Random.createRNG (-1000))) == (-650620777) # 4294967296
  /\ ~ (0 <= fst (Random.next (Random.createRNG (-1000))))%Q.
Proof.
  split.
  - vm_compute. reflexivity.
  - vm_compute. intros H. apply H. reflexivity.
Qed.

(** C9, amended: for every seed with [0 <= seed <= 2^53], every value of
    the first [n] calls of [next] lies in [0, 1); every state after the
    first call follows from its predecessor by
    [(state * 1664525 + 1013904223) mod 2^32] in exact integer arithmetic,
    and so does the first state when the seed is below [2^32]. *)
Theorem C9_outputs_in_unit_interval (seed : Z) (n : nat) :
  0 <= seed <= 2 ^ 53 ->
  Forall (fun v => (0 <= v)%Q /\ (v < 1)%Q) (Random.outputs n seed)
  /\ (forall k s s',
         nth_error (Random.states n (Random.createRNG seed)) k = Some s ->
         nth_error (Random.states n (Random.createRNG seed)) (S k) = Some s' ->
         s' = (s * 1664525 + 1013904223) mod 4294967296)
  /\ (seed < 4294967296 ->
      forall s,
        nth_error (Random.states n (Random.createRNG seed)) 0 = Some s ->
        s = (seed * 1664525 + 1013904223) mod 4294967296).
Proof.
  intros [Hseed _]. unfold Random.createRNG. split; [| split].
  - unfold Random.outputs, Random.createRNG. apply Forall_map.
    eapply Forall_impl; [| apply states_range; assumption].
    intros s Hs. now apply output_unit_interval.
  - intros k s s'. now apply states_chain.
  - intros Hlt s Hs. destruct n as [| n]; [discriminate |].
    cbn in Hs. injection Hs as <-. apply advance_exact.
    unfold Random.modulus. lia.
Qed.

Lemma C9_outputs_in_unit_interval_witness :
  0 <= 1700000000000 <= 2 ^ 53
  /\ Forall (fun v => (0 <= v)%Q /\ (v < 1)%Q)
       (Random.outputs 3 1700000000000).
Proof.
  assert (H : 0 <= 1700000000000 <= 2 ^ 53) by (cbn; lia).
  split; [exact H |].
  exact (proj1 (C9_outputs_in_unit_interval 1700000000000 3 H)).
Defined.

(** ** The score ledger *)

Section Ledger.

(** The hash the loop of [validateScoreLedger] carries after [ledger]. *)
Let carried (ledger : list ScoreEvent.t) (prevHash : string) : string :=
  fold_left (fun _ event => ScoreEvent.hash event) ledger prevHash.

Lemma lastHash_carried (ledger : list ScoreEvent.t) :
  Scoring.lastHash ledger = carried ledger "0".
Proof.
  unfold Scoring.lastHash, carried.
  destruct ledger as [| e l] using rev_ind; [reflexivity |].
  rewrite rev_app_distr, fold_left_app. reflexivity.
Qed.

Lemma validate_from_app (l1 l2 : list ScoreEvent.t) (prevHash : string) :
  Scoring.validate_from (l1 ++ l2) prevHash
  = Scoring.validate_from l1 prevHash
    && Scoring.validate_from l2 (carried l1 prevHash).
Proof.
  revert prevHash. induction l1 as [| e l1 IH]; intros prevHash; cbn.
  - reflexivity.
  - destruct (String.eqb (ScoreEvent.hash e) (Scoring.hashEvent e prevHash));
      cbn; [apply IH | reflexivity].
Qed.

(** The hashed text does not contain the event's own hash. *)
Lemma hashEvent_ignores_hash (e e' : ScoreEvent.t) (prevHash : string) :
  ScoreEvent.frame e = ScoreEvent.frame e' ->
  ScoreEvent.type e = ScoreEvent.type e' ->
  ScoreEvent.points e = ScoreEvent.points e' ->
  ScoreEvent.metadata e = ScoreEvent.metadata e' ->
  Scoring.hashEvent e prevHash = Scoring.hashEvent e' prevHash.
Proof.
  intros Hf Ht Hp Hm. unfold Scoring.hashEvent.
  now rewrite Hf, Ht, Hp, Hm.
Qed.

Lemma validate_addScoreEvent (this : ScoringEngine) (type : ScoreEventType)
  (points : Z) (metadata : Metadata) (now : Z) :
  Scoring.validateScoreLedger this = true ->
  Scoring.validateScoreLedger
    (Scoring.addScoreEvent this type points metadata now) = true.
Proof.
  unfold Scoring.validateScoreLedger, Scoring.addScoreEvent. cbn.
  intros Hvalid. rewrite validate_from_app, Hvalid. cbn.
  rewrite <- lastHash_carried.
  match goal with
  | |- context [String.eqb ?a ?b] => replace b with a
  end.
  - now rewrite String.eqb_refl.
  - now apply hashEvent_ignores_hash.
Qed.

Lemma validate_applyOp (this : ScoringEngine) (op : ledgerOp) :
  Scoring.validateScoreLedger this = true ->
  Scoring.validateScoreLedger (applyOp this op) = true.
Proof.
  destruct op; cbn.
  - apply validate_addScoreEvent.
  - trivial.
Qed.

Lemma validate_ops (ops : list ledgerOp) (this : ScoringEngine) :
  Scoring.validateScoreLedger this = true ->
  Scoring.validateScoreLedger (fold_left applyOp ops this) = true.
Proof.
  revert this. induction ops as [| op ops IH]; intros this Hvalid; cbn.
  - assumption.
  - apply IH. now apply validate_applyOp.
Qed.

(** Validation after one event of a valid ledger is replaced by an event
    with the same stored hash. *)
Lemma validate_replace (l1 l2 : list ScoreEvent.t) (e e' : ScoreEvent.t) :
  Scoring.validate_from (l1 ++ e :: l2) "0" = true ->
  ScoreEvent.hash e' = ScoreEvent.hash e ->
  Scoring.validate_from (l1 ++ e' :: l2) "0"
  = String.eqb (ScoreEvent.hash e)
      (Scoring.hashEvent e' (Scoring.lastHash l1)).
Proof.
  intros Hvalid Hhash. rewrite validate_from_app in *.
  apply andb_true_iff in Hvalid as [H1 H2]. rewrite H1.
  rewrite lastHash_carried. cbn in *. rewrite Hhash.
  destruct (String.eqb (ScoreEvent.hash e)
              (Scoring.hashEvent e (carried l1 "0"))); [| discriminate].
  cbn in H2. rewrite H2.
  now destruct (String.eqb _ _).
Qed.

End Ledger.

(** C4, as stated, fails: in the ledger with the single event of a line
    clear worth 100 points, the points are changed to 4763231607, and the
    ledger still validates. *)
Lemma C4_colliding_points_still_validate :
  exists event,
    scoreLedger Scenario.oneClear = [event]
    /\ ScoreEvent.points event = 100
    /\ ScoreEvent.points (ScoreEvent.set_points 4763231607 event) <> 100
    /\ Scoring.validateScoreLedger
         (set_scoreLedger [ScoreEvent.set_points 4763231607 event]
            Scenario.oneClear) = true.
Proof.
  eexists. split; [vm_compute; reflexivity |].
  split; [reflexivity |]. split; [cbn; lia |].
  vm_compute. reflexivity.
Qed.

(** C4, amended: the ledger produced by any sequence of [addScoreEvent]
    calls (and frame updates) from a new engine validates; after the
    points of one event are changed, validation succeeds exactly when the
    text of the changed event still hashes to the stored hash, and fails
    otherwise. *)
Theorem C4_ledger_validation (ops : list ledgerOp)
  (l1 l2 : list ScoreEvent.t) (event : ScoreEvent.t) (points' : Z) :
  let engine := fold_left applyOp ops Scoring.new in
  scoreLedger engine = l1 ++ event :: l2 ->
  Scoring.validateScoreLedger engine = true
  /\ Scoring.validateScoreLedger
       (set_scoreLedger (l1 ++ ScoreEvent.set_points points' event :: l2)
          engine)
     = String.eqb (ScoreEvent.hash event)
         (Scoring.hashEvent (ScoreEvent.set_points points' event)
            (Scoring.lastHash l1)).
Proof.
  intros engine Hledger.
  assert (Hvalid : Scoring.validateScoreLedger engine = true)
    by (apply validate_ops; reflexivity).
  split; [assumption |].
  unfold Scoring.validateScoreLedger in *. cbn.
  rewrite Hledger in Hvalid.
  now apply validate_replace.
Qed.

Lemma C4_ledger_validation_witness :
  Scoring.validateScoreLedger
    (fold_left applyOp
       [OpAddScoreEvent HARD_DROP 40 [("rows", JNum 20)] Scenario.T0;
        OpUpdateFrame;
        OpAddScoreEvent LINE_CLEAR 100 Scenario.lineClearMetadata Scenario.T0]
       Scoring.new) = true.
Proof.
  refine (proj1 (C4_ledger_validation _ [] _ _ 41 _)).
  vm_compute. reflexivity.
Defined.

(** ** The fit test *)

Section Fit.

Lemma every_i_true {A : Type} (f : A -> Z -> bool) (l : list A) (i : Z) :
  every_i f l i = true
  <-> forall k a, nth_error l k = Some a -> f a (i + Z.of_nat k) = true.
Proof.
  revert i. induction l as [| x l IH]; intros i; cbn.
  - split; [| reflexivity]. intros _ [| k] a H; discriminate.
  - rewrite andb_true_iff, IH. split.
    + intros [Hx Hl] [| k] a Hk; cbn in Hk.
      * injection Hk as <-. now rewrite Z.add_0_r.
      * replace (i + Z.of_nat (S k)) with (i + 1 + Z.of_nat k) by lia.
        now apply Hl.
    + intros H. split.
      * specialize (H 0%nat x eq_refl). now rewrite Z.add_0_r in H.
      * intros k a Hk.
        replace (i + 1 + Z.of_nat k) with (i + Z.of_nat (S k)) by lia.
        now apply H.
Qed.

Lemma canPieceFitAt_cells (board : Board) (piece : Piece.t) (x y : Z) :
  Physics.canPieceFitAt board piece x y = true
  <-> forall dx dy row cell,
        nth_error (Piece.shape piece) dy = Some row ->
        nth_error row dx = Some cell ->
        cell_fits board cell (x + Z.of_nat dx) (y + Z.of_nat dy) = true.
Proof.
  unfold Physics.canPieceFitAt. rewrite every_i_true. split.
  - intros H dx dy row cell Hrow Hcell.
    specialize (H dy row Hrow). rewrite every_i_true in H.
    specialize (H dx cell Hcell). cbn in H.
    rewrite ?Z.add_0_l in H. exact H.
  - intros H dy row Hrow. rewrite every_i_true. intros dx cell Hcell.
    specialize (H dx dy row cell Hrow Hcell). cbn.
    rewrite ?Z.add_0_l. exact H.
Qed.

Lemma canPieceFitAt_rejects (board : Board) (piece : Piece.t) (x y : Z)
  (dx dy : nat) (row : list Z) (cell : Z) :
  nth_error (Piece.shape piece) dy = Some row ->
  nth_error row dx = Some cell ->
  cell_fits board cell (x + Z.of_nat dx) (y + Z.of_nat dy) = false ->
  Physics.canPieceFitAt board piece x y = false.
Proof.
  intros Hrow Hcell Hfalse.
  destruct (Physics.canPieceFitAt board piece x y) eqn:E; [| reflexivity].
  rewrite canPieceFitAt_cells in E.
  rewrite (E dx dy row cell Hrow Hcell) in Hfalse. discriminate.
Qed.

End Fit.

(** C5: on a 20 x 10 board, (1) the fit test is false when an occupied
    sub-cell maps outside the columns [0, 10) or to a row at or below 20;
    (2) occupied sub-cells that map above the board, inside the columns,
    cause no rejection: the test succeeds when every occupied sub-cell is
    inside the columns and is either above the board or on an empty
    in-bounds cell; (3) the test is false when an occupied sub-cell maps
    to an in-bounds cell that is not empty. *)
Theorem C5_fit_test (board : Board) (piece : Piece.t) (x y : Z) :
  wf_board board ->
  (forall dx dy,
      occupied piece dx dy ->
      x + Z.of_nat dx < 0 \/ 10 <= x + Z.of_nat dx \/ 20 <= y + Z.of_nat dy ->
      Physics.canPieceFitAt board piece x y = false)
  /\ ((forall dx dy,
          occupied piece dx dy ->
          0 <= x + Z.of_nat dx < 10
          /\ (y + Z.of_nat dy < 0
              \/ (y + Z.of_nat dy < 20
                  /\ Physics.board_get board (y + Z.of_nat dy)
                       (x + Z.of_nat dx) = Some None))) ->
      Physics.canPieceFitAt board piece x y = true)
  /\ (forall dx dy color,
         occupied piece dx dy ->
         0 <= x + Z.of_nat dx < 10 ->
         0 <= y + Z.of_nat dy < 20 ->
         Physics.board_get board (y + Z.of_nat dy) (x + Z.of_nat dx)
         = Some (Some color) ->
         Physics.canPieceFitAt board piece x y = false).
Proof.
  intros _. split; [| split].
  - intros dx dy (row & cell & Hrow & Hcell & Hocc) Hout.
    apply (canPieceFitAt_rejects _ _ _ _ dx dy row cell Hrow Hcell).
    unfold cell_fits. rewrite Hocc. cbn.
    destruct (Z.ltb_spec (x + Z.of_nat dx) 0); [reflexivity |].
    destruct (Z.geb_spec (x + Z.of_nat dx) 10); [reflexivity |]. cbn.
    destruct (Z.ltb_spec (y + Z.of_nat dy) 0); [lia |].
    destruct (Z.geb_spec (y + Z.of_nat dy) 20); [reflexivity | lia].
  - intros Hall. apply canPieceFitAt_cells.
    intros dx dy row cell Hrow Hcell. unfold cell_fits.
    destruct (truthy cell) eqn:Hocc; [| reflexivity]. cbn.
    destruct (Hall dx dy) as [Hx Hy]; [now exists row, cell |].
    destruct (Z.ltb_spec (x + Z.of_nat dx) 0); [lia |].
    destruct (Z.geb_spec (x + Z.of_nat dx) 10); [lia |]. cbn.
    destruct (Z.ltb_spec (y + Z.of_nat dy) 0); [reflexivity |].
    destruct (Z.geb_spec (y + Z.of_nat dy) 20); [lia |].
    destruct Hy as [Hy | [_ Hy]]; [lia |]. now rewrite Hy.
  - intros dx dy color (row & cell & Hrow & Hcell & Hocc) Hx Hy Hfilled.
    apply (canPieceFitAt_rejects _ _ _ _ dx dy row cell Hrow Hcell).
    unfold cell_fits. rewrite Hocc, Hfilled. cbn.
    destruct (Z.ltb_spec (x + Z.of_nat dx) 0); [lia |].
    destruct (Z.geb_spec (x + Z.of_nat dx) 10); [lia |]. cbn.
    destruct (Z.ltb_spec (y + Z.of_nat dy) 0); [lia |].
    destruct (Z.geb_spec (y + Z.of_nat dy) 20); [lia | reflexivity].
Qed.

Lemma C5_fit_test_witness :
  wf_board GameState.createEmptyBoard
  /\ Physics.canPieceFitAt GameState.createEmptyBoard Scenario.flatI (-1) 18
     = false.
Proof.
  assert (Hwf : wf_board GameState.createEmptyBoard).
  { split; [reflexivity |]. repeat constructor. }
  split; [exact Hwf |].
  apply (proj1 (C5_fit_test GameState.createEmptyBoard Scenario.flatI (-1) 18
                  Hwf) 0%nat 1%nat).
  - exists [1; 1; 1; 1], 1. repeat split; reflexivity.
  - cbn. lia.
Defined.

(** ** The shadow *)

(** The fuel of [calculateShadow] suffices: the row returned is one where
    the loop of the source stops. *)
Lemma shadow_loop_stops (fuel : nat) (board : Board) (piece : Piece.t)
  (y : Z) :
  20 - y <= Z.of_nat fuel ->
  let shadowY := Physics.shadow_loop fuel board piece y in
  y <= shadowY
  /\ (shadowY <? 20)
     && Physics.canPieceFitAt board piece (Piece.gridX piece) (shadowY + 1)
     = false.
Proof.
  revert y. induction fuel as [| fuel IH]; intros y Hfuel; cbn.
  - split; [lia |]. destruct (Z.ltb_spec y 20); [lia | reflexivity].
  - destruct ((y <? 20)
              && Physics.canPieceFitAt board piece (Piece.gridX piece) (y + 1))
      eqn:Hloop.
    + destruct (IH (y + 1)) as [Hle Hstop]; [lia |]. split; [lia | exact Hstop].
    + split; [lia | exact Hloop].
Qed.

Lemma calculateShadow_stops (board : Board) (piece : Piece.t) :
  let shadowY := Physics.calculateShadow board piece in
  Piece.gridY piece <= shadowY
  /\ (shadowY <? 20)
     && Physics.canPieceFitAt board piece (Piece.gridX piece) (shadowY + 1)
     = false.
Proof.
  unfold Physics.calculateShadow. apply shadow_loop_stops. lia.
Qed.

(** ** Rotation *)

Section Rotation.

Lemma map_seq_nth {A : Type} (l : list A) (d : A) :
  List.map (fun i => nth i l d) (seq 0 (List.length l)) = l.
Proof.
  induction l as [| a l IH]; [reflexivity |].
  cbn [List.length seq List.map nth]. f_equal.
  rewrite <- seq_shift, List.map_map. exact IH.
Qed.

Lemma nth_map_seq {A : Type} (g : nat -> A) (n a : nat) (d : A) :
  (a < n)%nat -> nth a (List.map g (seq 0 n)) d = g a.
Proof.
  intros Ha.
  rewrite (nth_indep _ d (g 0%nat))
    by (rewrite List.length_map, List.length_seq; exact Ha).
  rewrite List.map_nth, seq_nth by exact Ha. reflexivity.
Qed.

(** Reading a matrix built entry by entry. *)
Lemma shape_get_build (f : nat -> nat -> Z) (n a b : nat) :
  (a < n)%nat -> (b < n)%nat ->
  Physics.shape_get
    (List.map (fun i => List.map (fun j => f i j) (seq 0 n)) (seq 0 n)) a b
  = f a b.
Proof.
  intros Ha Hb. unfold Physics.shape_get.
  rewrite nth_map_seq by exact Ha. now rewrite nth_map_seq.
Qed.

(** A square matrix is rebuilt from its entries. *)
Lemma build_shape_get (shape : list (list Z)) :
  square shape ->
  List.map (fun i =>
    List.map (fun j => Physics.shape_get shape i j)
      (seq 0 (List.length shape)))
    (seq 0 (List.length shape))
  = shape.
Proof.
  intros Hsq. etransitivity; [| apply (map_seq_nth shape [])].
  apply List.map_ext_in. intros i Hi. apply in_seq in Hi.
  unfold Physics.shape_get.
  assert (Hlen : List.length (nth i shape []) = List.length shape).
  { unfold square in Hsq. rewrite Forall_forall in Hsq.
    apply Hsq, nth_In. lia. }
  rewrite <- Hlen. apply map_seq_nth.
Qed.

Lemma rotate_twice_shape (shape : list (list Z)) (f : nat -> nat -> Z) :
  square shape ->
  (forall i j,
      (i < List.length shape)%nat -> (j < List.length shape)%nat ->
      f i j = Physics.shape_get shape i j) ->
  List.map (fun i => List.map (fun j => f i j) (seq 0 (List.length shape)))
    (seq 0 (List.length shape))
  = shape.
Proof.
  intros Hsq Hf. etransitivity; [| apply (build_shape_get shape Hsq)].
  apply List.map_ext_in. intros i Hi. apply in_seq in Hi.
  apply List.map_ext_in. intros j Hj. apply in_seq in Hj.
  apply Hf; lia.
Qed.

Lemma rotation_index_round_trip (r : Z) :
  0 <= r <= 3 ->
  Z.rem (Z.rem (r + 1 + 4) 4 + -1 + 4) 4 = r
  /\ Z.rem (Z.rem (r + -1 + 4) 4 + 1 + 4) 4 = r.
Proof.
  intros Hr.
  assert (Hcases : r = 0 \/ r = 1 \/ r = 2 \/ r = 3) by lia.
  destruct Hcases as [-> | [-> | [-> | ->]]]; split; reflexivity.
Qed.

End Rotation.

(** C7: for a piece with a square shape matrix and a rotation index in
    0..3, [rotatePiece] by +1 then -1, and by -1 then +1, gives back the
    piece: the same shape matrix, the same rotation index and every other
    field unchanged. *)
Theorem C7_rotate_round_trip (piece : Piece.t) :
  square (Piece.shape piece) ->
  0 <= Piece.rotation piece <= 3 ->
  Physics.rotatePiece (Physics.rotatePiece piece 1) (-1) = piece
  /\ Physics.rotatePiece (Physics.rotatePiece piece (-1)) 1 = piece.
Proof.
  destruct piece as [type shape color gridX gridY rotation up gen].
  cbn [Piece.shape Piece.rotation]. intros Hsq Hrot.
  destruct (rotation_index_round_trip rotation Hrot) as [Hr1 Hr2].
  unfold Physics.rotatePiece, Piece.set_rotation, Piece.set_shape.
  cbn [Piece.shape Piece.rotation Piece.type Piece.color Piece.gridX
       Piece.gridY Piece.upMovesUsed Piece.generation].
  rewrite !List.length_map, !List.length_seq.
  cbn [Z.eqb Pos.eqb].
  rewrite Hr1, Hr2.
  split; f_equal; apply rotate_twice_shape; try assumption;
    intros i j Hi Hj; cbv beta.
  - rewrite shape_get_build by lia. f_equal; lia.
  - rewrite shape_get_build by lia. f_equal; lia.
Qed.

Lemma C7_rotate_round_trip_witness :
  Physics.rotatePiece (Physics.rotatePiece Scenario.uprightT 1) (-1)
  = Scenario.uprightT
  /\ Physics.rotatePiece (Physics.rotatePiece Scenario.uprightT (-1)) 1
     = Scenario.uprightT.
Proof.
  apply C7_rotate_round_trip.
  - repeat constructor.
  - cbn. lia.
Defined.

(** ** Ignored input *)

Lemma move_blocked (state : State) (piece : Piece.t) (dx dy now : Z) :
  current state = Some piece ->
  Physics.canPieceFitAt (board state) piece (Piece.gridX piece + dx)
    (Piece.gridY piece + dy) = false ->
  driftApplies state piece dx dy = false ->
  Engine.move state dx dy now
  = Ok (set_lastMove
          (Some (LastMove.MOVE_BLOCKED dx dy
                   (negb (dx =? 0)) (0 <? dy) (dy <? 0)))
          state).
Proof.
  intros Hcur Hfit Hdrift. unfold Engine.move, Engine.current_piece.
  rewrite Hcur. cbv beta iota. rewrite Hfit.
  unfold driftApplies in Hdrift. rewrite Hdrift. reflexivity.
Qed.

(** C8, as stated, fails: the T piece of the seed 3 has been moved to the
    left wall; one more move to the left is rejected by the fit test (the
    piece is no FLOAT), and the state returned differs from the input
    state: its last-move descriptor is the blocked move. *)
Lemma C8_blocked_move_writes_lastMove :
  phase Scenario.atLeftWall = FALLING
  /\ option_map Piece.type (current Scenario.atLeftWall) = Some T_
  /\ option_map
       (fun piece =>
          Physics.canPieceFitAt (board Scenario.atLeftWall) piece
            (Piece.gridX piece + -1) (Piece.gridY piece + 0))
       (current Scenario.atLeftWall) = Some false
  /\ lastMove Scenario.atLeftWall = Some (LastMove.MOVE (-1) 0 false)
  /\ Engine.handleInput Scenario.atLeftWall (Action.MOVE (-1) 0)
       (Scenario.T0 + 400)
     = Ok (set_lastMove
             (Some (LastMove.MOVE_BLOCKED (-1) 0 true false false))
             Scenario.atLeftWall)
  /\ Engine.handleInput Scenario.atLeftWall (Action.MOVE (-1) 0)
       (Scenario.T0 + 400)
     <> Ok Scenario.atLeftWall.
Proof.
  repeat split; try (vm_compute; reflexivity).
  intros H.
  apply (f_equal (fun r => match r with
                           | Ok s => lastMove s
                           | Err _ => None
                           end)) in H.
  vm_compute in H. discriminate H.
Qed.

(** C8, amended: [handleInput] returns the state unchanged when the phase
    is neither FALLING nor LOCKING, when there is no current piece, and
    for an action type it has no case for; for a movement rejected by the
    fit test and outside the drift allowance it returns the state with
    the last-move descriptor set to the blocked MOVE and every other field
    unchanged. *)
Theorem C8_ignored_input (state : State) (now : Z) :
  (forall action,
      fallingOrLocking (phase state) = false ->
      Engine.handleInput state action now = Ok state)
  /\ (forall action,
         current state = None ->
         Engine.handleInput state action now = Ok state)
  /\ (forall action,
         recognized action = false ->
         Engine.handleInput state action now = Ok state)
  /\ (forall piece dx dy,
         fallingOrLocking (phase state) = true ->
         current state = Some piece ->
         Physics.canPieceFitAt (board state) piece (Piece.gridX piece + dx)
           (Piece.gridY piece + dy) = false ->
         driftApplies state piece dx dy = false ->
         Engine.handleInput state (Action.MOVE dx dy) now
         = Ok (set_lastMove
                 (Some (LastMove.MOVE_BLOCKED dx dy
                          (negb (dx =? 0)) (0 <? dy) (dy <? 0)))
                 state)).
Proof.
  unfold Engine.handleInput. repeat split.
  - intros action Hphase. destruct (phase state); try discriminate; reflexivity.
  - intros action Hcur. rewrite Hcur. destruct (phase state); reflexivity.
  - intros action Hrec.
    destruct (phase state), (current state), action;
      try discriminate; reflexivity.
  - intros piece dx dy Hphase Hcur Hfit Hdrift. rewrite Hcur.
    destruct (phase state); try discriminate;
      now apply (move_blocked state piece).
Qed.

Lemma C8_ignored_input_witness :
  Engine.handleInput (GameState.createInitialState 0) Action.HOLD 0
  = Ok (GameState.createInitialState 0).
Proof.
  apply (proj1 (C8_ignored_input (GameState.createInitialState 0) 0)).
  reflexivity.
Defined.

(** ** The piece and the phase *)

(** Projections of updated states. *)
Ltac state_simpl :=
  cbn [
    board current next hold canHold deathPiece phase mode score
    highScore lines level combo backToBackCounter lockTimer
    totalLockTime clearTimer gravityAccumulator pieces startTime
    generation lastMove clearingLines rng scoringEngine set_board
    set_current set_next set_hold set_canHold set_deathPiece set_phase
    set_mode set_score set_highScore set_lines set_level set_combo
    set_backToBackCounter set_lockTimer set_totalLockTime
    set_clearTimer set_gravityAccumulator set_pieces set_startTime
    set_generation set_lastMove set_clearingLines set_rng
    set_scoringEngine ].

Lemma Ok_inj {A : Type} (a b : A) : Ok a = Ok b -> a = b.
Proof. intros H. now injection H. Qed.

(** Case analysis on a computation that returned [Ok]. *)
Ltac unfold_ok H :=
  repeat first
    [ discriminate H
    | match type of H with
      | Ok _ = Ok _ => apply Ok_inj in H
      | match (if ?b then _ else _) with _ => _ end = Ok _ =>
          let E := fresh "E" in destruct b eqn:E
      | match (match ?x with _ => _ end) with _ => _ end = Ok _ =>
          let E := fresh "E" in destruct x eqn:E
      | (if ?b then _ else _) = Ok _ =>
          let E := fresh "E" in destruct b eqn:E
      | match ?x with _ => _ end = Ok _ =>
          let E := fresh "E" in destruct x eqn:E
      end ].

Section PieceAndPhase.

(** The invariant: a piece is present exactly in the phases FALLING,
    LOCKING and PAUSED. *)
Let inv (state : State) : Prop :=
  hasCurrent state = holdsPiece (phase state).

Lemma gameOver_inv (state : State) : inv (Engine.gameOver state).
Proof.
  unfold inv, hasCurrent, Engine.gameOver.
  destruct (scoringEngine state); reflexivity.
Qed.

Lemma spawnNextPiece_inv (state state' : State) (now : Z) :
  phase state <> GAME_OVER ->
  Engine.spawnNextPiece state now = Ok state' -> inv state'.
Proof.
  unfold Engine.spawnNextPiece. intros Hphase H.
  destruct (phase state) eqn:Ephase; try congruence;
    unfold_ok H; subst state'; try apply gameOver_inv; reflexivity.
Qed.

Lemma lockPiece_inv (state state' : State) (now : Z) :
  phase state <> GAME_OVER ->
  Engine.lockPiece state now = Ok state' -> inv state'.
Proof.
  unfold Engine.lockPiece, Engine.current_piece. intros Hphase H.
  destruct (current state) as [piece |]; cbv beta iota in H; [| discriminate].
  destruct (Piece.gridY piece <? 0).
  - injection H as <-. apply gameOver_inv.
  - destruct (Physics.findClearedLines _).
    + apply spawnNextPiece_inv in H; [assumption |].
      destruct (scoringEngine state); cbn; exact Hphase.
    + injection H as <-. destruct (scoringEngine state); reflexivity.
Qed.

Lemma finishClearing_inv (state state' : State) (now : Z) :
  phase state <> GAME_OVER ->
  Engine.finishClearing state now = Ok state' -> inv state'.
Proof.
  unfold Engine.finishClearing. intros Hphase H.
  destruct (scoringEngine state) as [engine |]; cbv beta iota in H.
  - destruct (Scoring.scoreLineClears _ _ _ _ _) as [[points engine'] |];
      cbv beta iota in H; [| discriminate].
    apply spawnNextPiece_inv in H; [assumption | cbn; exact Hphase].
  - apply spawnNextPiece_inv in H; [assumption | cbn; exact Hphase].
Qed.

Lemma active_inv (state : State) :
  hasCurrent state = true -> fallingOrLocking (phase state) = true ->
  inv state.
Proof.
  unfold inv. intros ->. now destruct (phase state).
Qed.

Lemma executeMove_inv (state state' : State) (newX newY dx dy now : Z) :
  fallingOrLocking (phase state) = true ->
  Engine.executeMove state newX newY dx dy now = Ok state' -> inv state'.
Proof.
  unfold Engine.executeMove, Engine.current_piece. intros Hphase H.
  destruct (current state) as [piece |]; cbv beta iota in H; [| discriminate].
  destruct (negb (dy =? 0));
    destruct (phase state) eqn:Ephase; try discriminate;
    unfold_ok H; subst state'; unfold inv, hasCurrent; state_simpl;
    rewrite ?Ephase; reflexivity.
Qed.

Lemma move_inv (state state' : State) (dx dy now : Z) :
  hasCurrent state = true ->
  fallingOrLocking (phase state) = true ->
  Engine.move state dx dy now = Ok state' -> inv state'.
Proof.
  unfold Engine.move, Engine.current_piece. intros Hcur Hphase H.
  unfold hasCurrent in Hcur.
  destruct (current state) as [piece |] eqn:Ecur; cbv beta iota in H;
    [| discriminate].
  destruct (Physics.canPieceFitAt _ _ _ _).
  - now apply executeMove_inv in H.
  - match type of H with
    | (if ?b then _ else _) = _ => destruct b
    end.
    + now apply executeMove_inv in H.
    + injection H as <-. apply active_inv; [| exact Hphase].
      unfold hasCurrent. cbn. now rewrite Ecur.
Qed.

Lemma rotate_inv (state state' : State) (direction : Z) :
  hasCurrent state = true ->
  fallingOrLocking (phase state) = true ->
  Engine.rotate state direction = Ok state' -> inv state'.
Proof.
  unfold Engine.rotate, Engine.current_piece. intros Hcur Hphase H.
  destruct (current state) as [piece |] eqn:Ecur; cbv beta iota in H;
    [| discriminate].
  destruct (Physics.tryRotation _ _ _) as [rotated |].
  - destruct (phase state) eqn:Ephase; try discriminate;
      unfold_ok H; subst state'; unfold inv, hasCurrent; state_simpl;
      rewrite ?Ephase; reflexivity.
  - apply Ok_inj in H. subst state'. now apply active_inv.
Qed.

Lemma hardDrop_inv (state state' : State) (now : Z) :
  fallingOrLocking (phase state) = true ->
  Engine.hardDrop state now = Ok state' -> inv state'.
Proof.
  unfold Engine.hardDrop, Engine.current_piece. intros Hphase H.
  destruct (current state) as [piece |]; cbv beta iota in H; [| discriminate].
  apply lockPiece_inv in H; [assumption |].
  destruct (scoringEngine state) as [engine |]; cbn.
  - destruct (0 <? _); cbn; destruct (phase state); discriminate.
  - destruct (phase state); discriminate.
Qed.

Lemma tryHold_inv (state state' : State) (now : Z) :
  inv state -> Engine.tryHold state now = Ok state' -> inv state'.
Proof.
  unfold Engine.tryHold. intros Hinv H.
  destruct (current state) as [held |]; [| now injection H as <-].
  destruct (canHold state); cbn in H; [| now injection H as <-].
  unfold_ok H; subst state'; reflexivity.
Qed.

Lemma handleInput_inv (state state' : State) (action : Action.t) (now : Z) :
  inv state -> Engine.handleInput state action now = Ok state' -> inv state'.
Proof.
  unfold Engine.handleInput. intros Hinv H.
  assert (Hactive :
            fallingOrLocking (phase state) = true ->
            current state <> None ->
            inv state').
  { intros Hphase Hcur.
    assert (Hhas : hasCurrent state = true).
    { unfold hasCurrent. now destruct (current state). }
    destruct (phase state) eqn:Ephase; try discriminate;
      destruct (current state) as [piece |] eqn:Ecur; try congruence;
      destruct action;
      try (injection H as <-; exact Hinv);
      try (destruct (Engine.isFloat piece && _));
      first [ now apply move_inv in H; rewrite ?Ephase
            | now apply rotate_inv in H; rewrite ?Ephase
            | now apply hardDrop_inv in H; rewrite ?Ephase
            | now apply tryHold_inv in H ]. }
  destruct (phase state) eqn:Ephase;
    try (injection H as <-; exact Hinv);
    (destruct (current state) eqn:Ecur;
     [apply Hactive; [reflexivity | discriminate]
     | injection H as <-; exact Hinv]).
Qed.

Lemma processFalling_inv (state state' : State) (deltaTime : Q) :
  phase state = FALLING ->
  Engine.processFalling state deltaTime = Ok state' -> inv state'.
Proof.
  unfold Engine.processFalling. intros Hphase H.
  unfold_ok H; subst state'; unfold inv, hasCurrent; cbn;
    rewrite ?Hphase; try reflexivity;
    match goal with
    | E : current state = _ |- _ => now rewrite E
    end.
Qed.

Lemma processLocking_inv (state state' : State) (deltaTime : Q) (now : Z) :
  phase state = LOCKING ->
  Engine.processLocking state deltaTime now = Ok state' -> inv state'.
Proof.
  unfold Engine.processLocking, Engine.current_piece. intros Hphase H.
  destruct (current state) as [piece |] eqn:Ecur; cbv beta iota in H;
    [| discriminate].
  assert (Hne : phase state <> GAME_OVER) by (rewrite Hphase; discriminate).
  destruct (Engine.canFallFrom _ _).
  { injection H as <-. unfold inv, hasCurrent. cbn. now rewrite Ecur. }
  destruct (Engine.Qge_bool _ _); [now apply lockPiece_inv in H |].
  destruct (Engine.Qge_bool _ _); [now apply lockPiece_inv in H |].
  injection H as <-. unfold inv, hasCurrent. cbn. now rewrite Ecur, Hphase.
Qed.

Lemma tick_inv (state state' : State) (deltaTime : Q) (now : Z) :
  inv state -> Engine.tick state deltaTime now = Ok state' -> inv state'.
Proof.
  unfold Engine.tick. intros Hinv H.
  destruct (phase state) eqn:Ephase;
    try (injection H as <-; exact Hinv).
  - now apply processFalling_inv in H.
  - now apply processLocking_inv in H.
  - unfold Engine.processClearing in H.
    destruct (Engine.Qge_bool _ _).
    + apply finishClearing_inv in H; [assumption |].
      rewrite Ephase. discriminate.
    + injection H as <-. unfold inv in *. cbn. exact Hinv.
Qed.

Lemma startGame_inv (state state' : State) (now : Z) :
  inv state -> Engine.startGame state now = Ok state' -> inv state'.
Proof.
  unfold Engine.startGame. intros Hinv H.
  destruct (phase state);
    try (injection H as <-; exact Hinv);
    unfold_ok H; subst state'; reflexivity.
Qed.

Lemma handleAction_inv (state state' : State) (action : Action.t)
  (now highScore : Z) :
  inv state ->
  Main.handleAction state action now highScore = Ok state' -> inv state'.
Proof.
  unfold Main.handleAction. intros Hinv H.
  destruct (phase state) eqn:Ephase; destruct action;
    try (injection H as <-; first [exact Hinv | reflexivity]);
    try (now apply startGame_inv in H);
    try (now apply handleInput_inv in H);
    injection H as <-; unfold inv, hasCurrent in *; cbn;
    rewrite Ephase in Hinv; exact Hinv.
Qed.

Lemma step_inv (state state' : State) :
  inv state -> step state state' -> inv state'.
Proof.
  intros Hinv Hstep.
  destruct Hstep as [? ? ? H | ? ? ? ? H | ? ? ? ? H | ? ? ? ? ? H].
  - now apply startGame_inv in H.
  - now apply tick_inv in H.
  - now apply handleInput_inv in H.
  - now apply handleAction_inv in H.
Qed.

Lemma reachable_inv (state : State) : reachable state -> inv state.
Proof.
  induction 1 as [highScore | state state' _ IH Hstep].
  - reflexivity.
  - now apply (step_inv state).
Qed.

End PieceAndPhase.

Lemma playing_reachable : reachable Scenario.playing.
Proof.
  apply (reachable_step (GameState.createInitialState 0)).
  - apply reachable_initial.
  - apply (step_handleAction _ Action.SPACE Scenario.T0 0).
    vm_compute. reflexivity.
Qed.

Lemma paused_reachable : reachable Scenario.paused.
Proof.
  apply (reachable_step Scenario.playing).
  - apply playing_reachable.
  - apply (step_handleAction _ Action.ESCAPE (Scenario.T0 + 50) 0).
    vm_compute. reflexivity.
Qed.

(** C6, as stated, fails: the state after SPACE on the menu and ESCAPE is
    reachable, its phase is PAUSED and its current piece is present, so
    both alternatives of the invariant hold at once. *)
Lemma C6_paused_state_keeps_piece :
  reachable Scenario.paused
  /\ phase Scenario.paused = PAUSED
  /\ hasCurrent Scenario.paused = true
  /\ hasCurrent Scenario.paused <> fallingOrLocking (phase Scenario.paused).
Proof.
  split; [apply paused_reachable |].
  repeat split; try (vm_compute; reflexivity).
  vm_compute. discriminate.
Qed.

(** C6, amended: in every state reachable from the initial state by
    [startGame], [tick], [handleInput] and the routing of [handleAction]
    (start, pause, resume, restart), a current piece is present if and
    only if the phase is FALLING, LOCKING or PAUSED; in MENU, CLEARING and
    GAME_OVER there is none. *)
Theorem C6_piece_iff_phase (state : State) :
  reachable state ->
  (current state <> None
   <-> phase state = FALLING \/ phase state = LOCKING
       \/ phase state = PAUSED).
Proof.
  intros Hreach. apply reachable_inv in Hreach.
  unfold hasCurrent in Hreach.
  destruct (current state), (phase state); cbn in Hreach;
    try discriminate; split; intros H;
    try congruence; auto;
    try (destruct H as [H | [H | H]]; discriminate).
Qed.

Lemma C6_piece_iff_phase_witness :
  current Scenario.paused <> None
  <-> phase Scenario.paused = FALLING \/ phase Scenario.paused = LOCKING
      \/ phase Scenario.paused = PAUSED.
Proof.
  apply C6_piece_iff_phase.
  apply (reachable_step Scenario.playing).
  - apply (reachable_step (GameState.createInitialState 0)).
    + apply reachable_initial.
    + apply (step_handleAction _ Action.SPACE Scenario.T0 0).
      vm_compute. reflexivity.
  - apply (step_handleAction _ Action.ESCAPE (Scenario.T0 + 50) 0).
    vm_compute. reflexivity.
Defined.

(** ** Locks that start a clear *)

Lemma gameOver_phase (state : State) :
  phase (Engine.gameOver state) = GAME_OVER.
Proof.
  unfold Engine.gameOver. destruct (scoringEngine state); reflexivity.
Qed.

Lemma spawnNextPiece_not_clearing (state state' : State) (now : Z) :
  Engine.spawnNextPiece state now = Ok state' -> phase state' <> CLEARING.
Proof.
  unfold Engine.spawnNextPiece. intros H.
  destruct (phase state) eqn:Ephase;
    unfold_ok H; subst state'; rewrite ?gameOver_phase, ?Ephase;
    cbn; discriminate.
Qed.

(** A lock that starts a clear leaves no current piece, and the rows
    recorded for clearing are the full rows of the board it leaves. *)
Lemma lockPiece_clearing (state state' : State) (now : Z) :
  Engine.lockPiece state now = Ok state' ->
  phase state' = CLEARING ->
  current state' = None
  /\ clearingLines state' = Physics.findClearedLines (board state')
  /\ clearingLines state' <> [].
Proof.
  unfold Engine.lockPiece, Engine.current_piece. intros H Hphase.
  destruct (current state) as [piece |]; cbv beta iota in H; [| discriminate].
  destruct (Piece.gridY piece <? 0).
  - apply Ok_inj in H. subst state'. rewrite gameOver_phase in Hphase.
    discriminate.
  - destruct (Physics.findClearedLines _) as [| line rest] eqn:Elines.
    + apply spawnNextPiece_not_clearing in H. contradiction.
    + apply Ok_inj in H. subst state'.
      destruct (scoringEngine state); state_simpl; rewrite Elines;
        repeat split; discriminate.
Qed.

Lemma detectSpinBonus_without_piece (state : State)
  (lastMove : option LastMove.t) :
  current state = None -> Scoring.detectSpinBonus state lastMove = false.
Proof. intros H. unfold Scoring.detectSpinBonus. now rewrite H. Qed.

(** ** Boards and counters along a session *)

Section Session.

Lemma forEach_i_preserves {A B : Type} (P : B -> Prop)
  (f : B -> A -> Z -> B) (l : list A) (i : Z) (acc : B) :
  (forall acc a i, P acc -> P (f acc a i)) ->
  P acc -> P (forEach_i f l i acc).
Proof.
  intros Hf. revert i acc. induction l as [| a l IH]; intros i acc Hacc; cbn.
  - exact Hacc.
  - apply IH, Hf, Hacc.
Qed.

Lemma assign_length {A : Type} (l : list A) (i : nat) (v : A) :
  List.length (assign l i v) = List.length l.
Proof.
  revert i. induction l as [| a l IH]; intros [| i]; cbn; auto.
Qed.

Lemma assign_Forall {A : Type} (P : A -> Prop) (l : list A) (i : nat) (v : A) :
  Forall P l -> P v -> Forall P (assign l i v).
Proof.
  intros Hl Hv. revert i.
  induction Hl as [| a l Ha Hl IH]; intros [| i]; cbn; auto.
Qed.

Lemma board_set_wf (board : Board) (y x : Z) (v : cell) :
  wf_board board -> wf_board (Physics.board_set board y x v).
Proof.
  intros [Hlen Hrows]. unfold Physics.board_set, index.
  destruct (y <? 0); [now split |].
  destruct (nth_error board (Z.to_nat y)) as [row |] eqn:Erow; [| now split].
  split.
  - now rewrite assign_length.
  - apply assign_Forall; [exact Hrows |].
    rewrite assign_length. rewrite Forall_forall in Hrows.
    eapply Hrows, nth_error_In, Erow.
Qed.

Lemma placePiece_wf (board : Board) (piece : Piece.t) :
  wf_board board -> wf_board (Physics.placePiece board piece).
Proof.
  unfold Physics.placePiece. apply forEach_i_preserves.
  intros acc row dy. apply forEach_i_preserves.
  intros acc' cell dx Hacc.
  destruct (truthy cell); [| exact Hacc].
  match goal with
  | |- wf_board (if ?b then _ else _) => destruct b
  end; [now apply board_set_wf | exact Hacc].
Qed.

Lemma filter_i_length {A : Type} (f : A -> Z -> bool) (l : list A) (i : Z) :
  (List.length (Physics.filter_i f l i) <= List.length l)%nat.
Proof.
  revert i. induction l as [| a l IH]; intros i; cbn; [lia |].
  specialize (IH (i + 1)). destruct (f a i); cbn; lia.
Qed.

Lemma filter_i_Forall {A : Type} (P : A -> Prop) (f : A -> Z -> bool)
  (l : list A) (i : Z) :
  Forall P l -> Forall P (Physics.filter_i f l i).
Proof.
  intros Hl. revert i. induction Hl as [| a l Ha Hl IH]; intros i; cbn.
  - constructor.
  - destruct (f a i); [constructor |]; auto.
Qed.

Lemma removeClearedLines_wf (board : Board) (lines : list Z) :
  wf_board board -> wf_board (Physics.removeClearedLines board lines).
Proof.
  intros [Hlen Hrows]. unfold Physics.removeClearedLines.
  pose proof (filter_i_length
                (fun (_ : list cell) i => negb (Physics.includes lines i))
                board 0) as Hle.
  split.
  - rewrite List.length_app, List.repeat_length. lia.
  - apply Forall_app. split.
    + apply Forall_forall. intros row Hin.
      apply repeat_spec in Hin. now subst row.
    + now apply filter_i_Forall.
Qed.

Lemma createEmptyBoard_wf : wf_board GameState.createEmptyBoard.
Proof. split; [reflexivity | repeat constructor]. Qed.

(** What a callee needs of the state it is given. *)
Let base (state : State) : Prop :=
  wf_board (board state) /\ countersValid state.

Lemma sessionInvariant_base (state : State) :
  sessionInvariant state -> base state.
Proof. intros (Hwf & Hc & _). now split. Qed.

Lemma base_not_clearing (state : State) :
  base state -> phase state <> CLEARING -> sessionInvariant state.
Proof.
  intros [Hwf Hc] Hphase.
  split; [exact Hwf | split; [exact Hc | intros E; contradiction]].
Qed.

Lemma gameOver_session (state : State) :
  base state -> sessionInvariant (Engine.gameOver state).
Proof.
  intros Hbase. apply base_not_clearing.
  - unfold Engine.gameOver. destruct (scoringEngine state); exact Hbase.
  - rewrite gameOver_phase. discriminate.
Qed.

Lemma spawnNextPiece_session (state state' : State) (now : Z) :
  base state ->
  Engine.spawnNextPiece state now = Ok state' -> sessionInvariant state'.
Proof.
  intros Hbase H. apply base_not_clearing.
  - unfold Engine.spawnNextPiece in H.
    unfold_ok H; subst state';
      try (apply sessionInvariant_base, gameOver_session); exact Hbase.
  - now apply spawnNextPiece_not_clearing in H.
Qed.

Lemma lockPiece_session (state state' : State) (now : Z) :
  base state ->
  Engine.lockPiece state now = Ok state' -> sessionInvariant state'.
Proof.
  intros [Hwf Hc] H.
  assert (Hclearing : clearingValid state').
  { intros Hphase. now apply (lockPiece_clearing state state' now). }
  unfold Engine.lockPiece, Engine.current_piece in H.
  destruct (current state) as [piece |]; cbv beta iota in H; [| discriminate].
  pose proof (placePiece_wf (board state) piece Hwf) as Hplaced.
  destruct (Piece.gridY piece <? 0).
  - apply Ok_inj in H. subst state'. apply gameOver_session.
    split; [exact Hplaced | exact Hc].
  - destruct (Physics.findClearedLines _) as [| line rest].
    + apply spawnNextPiece_session in H; [exact H |].
      destruct (scoringEngine state); split; first [exact Hplaced | exact Hc].
    + split; [| split; [| exact Hclearing]];
        apply Ok_inj in H; subst state';
        destruct (scoringEngine state); first [exact Hplaced | exact Hc].
Qed.

Lemma finishClearing_session (state state' : State) (now : Z) :
  base state ->
  Engine.finishClearing state now = Ok state' -> sessionInvariant state'.
Proof.
  intros [Hwf (Hlines & Hlevel & Hcombo)] H.
  unfold Engine.finishClearing in H.
  pose proof (removeClearedLines_wf (board state) (clearingLines state) Hwf)
    as Hremoved.
  pose proof (Nat2Z.is_nonneg (List.length (clearingLines state))) as Hn.
  assert (Hdiv : 0 <= (lines state
                       + Z.of_nat (List.length (clearingLines state))) / 10)
    by (apply Z.div_pos; lia).
  destruct (scoringEngine state) as [engine |].
  - destruct (Scoring.scoreLineClears _ _ _ _ _) as [[points engine'] |];
      cbv beta iota in H; [| discriminate].
    apply spawnNextPiece_session in H; [exact H |].
    split; [exact Hremoved |]. unfold countersValid. state_simpl.
    destruct (0 <? _); lia.
  - apply spawnNextPiece_session in H; [exact H |].
    split; [exact Hremoved |]. unfold countersValid. state_simpl. lia.
Qed.

Lemma active_session (state : State) :
  base state -> fallingOrLocking (phase state) = true ->
  sessionInvariant state.
Proof.
  intros Hbase Hphase. apply base_not_clearing; [exact Hbase |].
  intros E. rewrite E in Hphase. discriminate.
Qed.

Lemma executeMove_session (state state' : State) (newX newY dx dy now : Z) :
  base state ->
  fallingOrLocking (phase state) = true ->
  Engine.executeMove state newX newY dx dy now = Ok state' ->
  sessionInvariant state'.
Proof.
  unfold Engine.executeMove, Engine.current_piece. intros Hbase Hphase H.
  destruct (current state) as [piece |]; cbv beta iota in H; [| discriminate].
  destruct (negb (dy =? 0));
    destruct (phase state) eqn:Ephase; try discriminate;
    unfold_ok H; subst state';
    (apply base_not_clearing;
     [exact Hbase | state_simpl; rewrite ?Ephase; discriminate]).
Qed.

Lemma move_session (state state' : State) (dx dy now : Z) :
  base state ->
  fallingOrLocking (phase state) = true ->
  Engine.move state dx dy now = Ok state' -> sessionInvariant state'.
Proof.
  unfold Engine.move, Engine.current_piece. intros Hbase Hphase H.
  destruct (current state) as [piece |]; cbv beta iota in H; [| discriminate].
  destruct (Physics.canPieceFitAt _ _ _ _).
  - now apply executeMove_session in H.
  - match type of H with
    | (if ?b then _ else _) = _ => destruct b
    end.
    + now apply executeMove_session in H.
    + apply Ok_inj in H. subst state'. now apply active_session.
Qed.

Lemma rotate_session (state state' : State) (direction : Z) :
  base state ->
  fallingOrLocking (phase state) = true ->
  Engine.rotate state direction = Ok state' -> sessionInvariant state'.
Proof.
  unfold Engine.rotate, Engine.current_piece. intros Hbase Hphase H.
  destruct (current state) as [piece |]; cbv beta iota in H; [| discriminate].
  destruct (Physics.tryRotation _ _ _) as [rotated |].
  - destruct (phase state) eqn:Ephase; try discriminate;
      unfold_ok H; subst state';
      (apply base_not_clearing;
       [exact Hbase | state_simpl; rewrite ?Ephase; discriminate]).
  - apply Ok_inj in H. subst state'. now apply active_session.
Qed.

Lemma hardDrop_session (state state' : State) (now : Z) :
  base state ->
  Engine.hardDrop state now = Ok state' -> sessionInvariant state'.
Proof.
  unfold Engine.hardDrop, Engine.current_piece. intros Hbase H.
  destruct (current state) as [piece |]; cbv beta iota in H; [| discriminate].
  apply lockPiece_session in H; [exact H |].
  destruct (scoringEngine state) as [engine |]; [| exact Hbase].
  destruct (0 <? _); exact Hbase.
Qed.

Lemma tryHold_session (state state' : State) (now : Z) :
  sessionInvariant state ->
  Engine.tryHold state now = Ok state' -> sessionInvariant state'.
Proof.
  unfold Engine.tryHold. intros Hinv H.
  pose proof (sessionInvariant_base state Hinv) as Hbase.
  destruct (current state) as [held |]; [| now apply Ok_inj in H; subst].
  destruct (canHold state); cbv beta iota in H;
    [| now apply Ok_inj in H; subst].
  unfold_ok H; subst state';
    (apply base_not_clearing; [exact Hbase | state_simpl; discriminate]).
Qed.

Lemma handleInput_session (state state' : State) (action : Action.t)
  (now : Z) :
  sessionInvariant state ->
  Engine.handleInput state action now = Ok state' -> sessionInvariant state'.
Proof.
  unfold Engine.handleInput. intros Hinv H.
  pose proof (sessionInvariant_base state Hinv) as Hbase.
  destruct (phase state) eqn:Ephase;
    try (apply Ok_inj in H; subst state'; exact Hinv);
    (destruct (current state) as [piece |];
     [| apply Ok_inj in H; subst state'; exact Hinv]);
    destruct action;
    try (apply Ok_inj in H; subst state'; exact Hinv);
    try (destruct (Engine.isFloat piece && _));
    first [ now apply move_session in H; rewrite ?Ephase
          | now apply rotate_session in H; rewrite ?Ephase
          | now apply hardDrop_session in H
          | now apply tryHold_session in H ].
Qed.

Lemma tick_session (state state' : State) (deltaTime : Q) (now : Z) :
  sessionInvariant state ->
  Engine.tick state deltaTime now = Ok state' -> sessionInvariant state'.
Proof.
  unfold Engine.tick. intros Hinv H.
  pose proof (sessionInvariant_base state Hinv) as Hbase.
  destruct (phase state) eqn:Ephase;
    try (apply Ok_inj in H; subst state'; exact Hinv).
  - unfold Engine.processFalling in H.
    unfold_ok H; subst state';
      (apply base_not_clearing;
       [exact Hbase | state_simpl; rewrite ?Ephase; discriminate]).
  - unfold Engine.processLocking, Engine.current_piece in H.
    destruct (current state) as [piece |]; cbv beta iota in H;
      [| discriminate].
    destruct (Engine.canFallFrom _ _).
    { apply Ok_inj in H. subst state'.
      apply base_not_clearing; [exact Hbase | state_simpl; discriminate]. }
    destruct (Engine.Qge_bool _ _); [now apply lockPiece_session in H |].
    destruct (Engine.Qge_bool _ _); [now apply lockPiece_session in H |].
    apply Ok_inj in H. subst state'.
    apply base_not_clearing;
      [exact Hbase | state_simpl; rewrite Ephase; discriminate].
  - unfold Engine.processClearing in H.
    destruct (Engine.Qge_bool _ _).
    + now apply finishClearing_session in H.
    + apply Ok_inj in H. subst state'. exact Hinv.
Qed.

Lemma initial_session (highScore : Z) :
  sessionInvariant (GameState.createInitialState highScore).
Proof.
  apply base_not_clearing; [| discriminate].
  split; [apply createEmptyBoard_wf |].
  unfold countersValid. cbn. lia.
Qed.

Lemma startGame_session (state state' : State) (now : Z) :
  sessionInvariant state ->
  Engine.startGame state now = Ok state' -> sessionInvariant state'.
Proof.
  unfold Engine.startGame. intros Hinv H.
  destruct (phase state);
    try (apply Ok_inj in H; subst state'; exact Hinv);
    unfold_ok H; subst state';
    (apply base_not_clearing; [| state_simpl; discriminate]);
    (split; [apply createEmptyBoard_wf |]);
    unfold countersValid; state_simpl; lia.
Qed.

Lemma handleAction_session (state state' : State) (action : Action.t)
  (now highScore : Z) :
  sessionInvariant state ->
  Main.handleAction state action now highScore = Ok state' ->
  sessionInvariant state'.
Proof.
  unfold Main.handleAction. intros Hinv H.
  pose proof (sessionInvariant_base state Hinv) as Hbase.
  destruct (phase state) eqn:Ephase; destruct action;
    try (now apply startGame_session in H);
    try (now apply handleInput_session in H);
    apply Ok_inj in H; subst state';
    first [ exact Hinv
          | apply initial_session
          | apply base_not_clearing;
            [exact Hbase | state_simpl; discriminate] ].
Qed.

Lemma step_session (state state' : State) :
  sessionInvariant state -> step state state' -> sessionInvariant state'.
Proof.
  intros Hinv Hstep.
  destruct Hstep as [? ? ? H | ? ? ? ? H | ? ? ? ? H | ? ? ? ? ? H].
  - now apply startGame_session in H.
  - now apply tick_session in H.
  - now apply handleInput_session in H.
  - now apply handleAction_session in H.
Qed.

Lemma reachable_session (state : State) :
  reachable state -> sessionInvariant state.
Proof.
  induction 1 as [highScore | state state' _ IH Hstep].
  - apply initial_session.
  - now apply (step_session state).
Qed.

End Session.

(** ** The score *)

Section Score.

Lemma gameOver_score (state : State) :
  score (Engine.gameOver state) = score state.
Proof.
  unfold Engine.gameOver. destruct (scoringEngine state); reflexivity.
Qed.

Lemma spawnNextPiece_score (state state' : State) (now : Z) :
  Engine.spawnNextPiece state now = Ok state' -> score state' = score state.
Proof.
  unfold Engine.spawnNextPiece. intros H.
  unfold_ok H; subst state'; try apply gameOver_score; reflexivity.
Qed.

Lemma lockPiece_score (state state' : State) (now : Z) :
  Engine.lockPiece state now = Ok state' -> score state' = score state.
Proof.
  unfold Engine.lockPiece, Engine.current_piece. intros H.
  destruct (current state) as [piece |]; cbv beta iota in H; [| discriminate].
  destruct (Piece.gridY piece <? 0).
  - injection H as <-. now rewrite gameOver_score.
  - destruct (Physics.findClearedLines _).
    + apply spawnNextPiece_score in H. rewrite H.
      destruct (scoringEngine state); reflexivity.
    + injection H as <-. destruct (scoringEngine state); reflexivity.
Qed.

Lemma lookup_nonneg (table : list Z) (i v : Z) :
  Forall (fun entry => 0 <= entry) table ->
  Scoring.lookup table i = Ok v -> 0 <= v.
Proof.
  unfold Scoring.lookup, index. intros Htable H.
  destruct (i <? 0); [discriminate |].
  destruct (nth_error table (Z.to_nat i)) as [entry |] eqn:E; [| discriminate].
  injection H as <-. rewrite Forall_forall in Htable.
  eapply Htable, nth_error_In, E.
Qed.

Lemma tables_nonneg :
  Forall (fun entry => 0 <= entry) Scoring.spinTable
  /\ Forall (fun entry => 0 <= entry) Scoring.normalTable
  /\ Forall (fun entry => 0 <= entry) Scoring.perfectTable.
Proof. repeat split; repeat constructor; lia. Qed.

(** Every part of a line-clear score is non-negative. *)
Lemma scoreLineClears_nonneg (this this' : ScoringEngine) (state : State)
  (linesCleared : Z) (lastMove : option LastMove.t) (now points : Z) :
  0 <= level state -> 0 <= combo state ->
  Scoring.scoreLineClears this state linesCleared lastMove now
  = Ok (points, this') ->
  0 <= points.
Proof.
  intros Hlevel Hcombo H. unfold Scoring.scoreLineClears in H.
  destruct tables_nonneg as (Hspin & Hnormal & Hperfect).
  assert (Hc : 0 <= 50 * combo state * level state)
    by (apply Z.mul_nonneg_nonneg; lia).
  unfold_ok H; apply pair_equal_spec in H as [<- _];
    repeat match goal with
      | E : Scoring.lookup _ _ = Ok _ |- _ =>
          apply lookup_nonneg in E; [| assumption]
      end;
    repeat match goal with
      | Hb : 0 <= ?base |- context [?base / 2] =>
          lazymatch goal with
          | _ : 0 <= base / 2 |- _ => fail
          | _ => assert (0 <= base / 2) by (apply Z.div_pos; lia)
          end
      end;
    repeat match goal with
      | Hx : 0 <= ?x |- context [?x * level state] =>
          lazymatch goal with
          | _ : 0 <= x * level state |- _ => fail
          | _ => pose proof (Z.mul_nonneg_nonneg _ _ Hx Hlevel)
          end
      end;
    lia.
Qed.

Lemma finishClearing_score (state state' : State) (now : Z) :
  0 <= level state -> 0 <= combo state ->
  Engine.finishClearing state now = Ok state' -> score state <= score state'.
Proof.
  unfold Engine.finishClearing. intros Hlevel Hcombo H.
  destruct (scoringEngine state) as [engine |]; cbv beta iota in H.
  - destruct (Scoring.scoreLineClears _ _ _ _ _) as [[points engine'] |] eqn:E;
      cbv beta iota in H; [| discriminate].
    apply scoreLineClears_nonneg in E; try assumption.
    apply spawnNextPiece_score in H. rewrite H. cbn. lia.
  - apply spawnNextPiece_score in H. rewrite H. cbn. lia.
Qed.

Lemma executeMove_score (state state' : State) (newX newY dx dy now : Z) :
  Engine.executeMove state newX newY dx dy now = Ok state' ->
  score state <= score state'.
Proof.
  unfold Engine.executeMove, Engine.current_piece, Scoring.scoreSoftDrop.
  intros H.
  destruct (current state) as [piece |]; cbv beta iota in H; [| discriminate].
  destruct (negb (dy =? 0)); destruct (Z.ltb_spec 0 dy);
    unfold_ok H; subst state'; state_simpl; lia.
Qed.

Lemma move_score (state state' : State) (dx dy now : Z) :
  Engine.move state dx dy now = Ok state' -> score state <= score state'.
Proof.
  unfold Engine.move, Engine.current_piece. intros H.
  destruct (current state) as [piece |]; cbv beta iota in H; [| discriminate].
  destruct (Physics.canPieceFitAt _ _ _ _).
  - now apply executeMove_score in H.
  - match type of H with
    | (if ?b then _ else _) = _ => destruct b
    end.
    + now apply executeMove_score in H.
    + injection H as <-. cbn. lia.
Qed.

Lemma rotate_score (state state' : State) (direction : Z) :
  Engine.rotate state direction = Ok state' -> score state <= score state'.
Proof.
  unfold Engine.rotate, Engine.current_piece. intros H.
  destruct (current state) as [piece |]; cbv beta iota in H; [| discriminate].
  unfold_ok H; subst state'; state_simpl; lia.
Qed.

Lemma hardDrop_score (state state' : State) (now : Z) :
  Engine.hardDrop state now = Ok state' -> score state <= score state'.
Proof.
  unfold Engine.hardDrop, Engine.current_piece. intros H.
  destruct (current state) as [piece |]; cbv beta iota in H; [| discriminate].
  apply lockPiece_score in H. rewrite H.
  destruct (scoringEngine state) as [engine |]; cbn; [| lia].
  destruct (Z.ltb_spec 0 (Physics.calculateShadow (board state) piece
                          - Piece.gridY piece)); cbn; lia.
Qed.

Lemma tryHold_score (state state' : State) (now : Z) :
  Engine.tryHold state now = Ok state' -> score state <= score state'.
Proof.
  unfold Engine.tryHold. intros H.
  unfold_ok H; subst state'; cbn; lia.
Qed.

Lemma handleInput_score (state state' : State) (action : Action.t) (now : Z) :
  Engine.handleInput state action now = Ok state' ->
  score state <= score state'.
Proof.
  unfold Engine.handleInput. intros H.
  destruct (phase state);
    try (injection H as <-; lia);
    (destruct (current state) as [piece |]; [| injection H as <-; lia]);
    destruct action;
    try (injection H as <-; lia);
    try (destruct (Engine.isFloat piece && _));
    first [ now apply move_score in H
          | now apply rotate_score in H
          | now apply hardDrop_score in H
          | now apply tryHold_score in H ].
Qed.

Lemma tick_score (state state' : State) (deltaTime : Q) (now : Z) :
  0 <= level state -> 0 <= combo state ->
  Engine.tick state deltaTime now = Ok state' -> score state <= score state'.
Proof.
  unfold Engine.tick. intros Hlevel Hcombo H.
  destruct (phase state); try (injection H as <-; lia).
  - unfold Engine.processFalling in H.
    unfold_ok H; subst state'; cbn; lia.
  - unfold Engine.processLocking, Engine.current_piece in H.
    destruct (current state) as [piece |]; cbv beta iota in H; [| discriminate].
    destruct (Engine.canFallFrom _ _); [injection H as <-; cbn; lia |].
    destruct (Engine.Qge_bool _ _);
      [apply lockPiece_score in H; lia |].
    destruct (Engine.Qge_bool _ _);
      [apply lockPiece_score in H; lia |].
    injection H as <-. cbn. lia.
  - unfold Engine.processClearing in H.
    destruct (Engine.Qge_bool _ _).
    + now apply finishClearing_score in H.
    + injection H as <-. cbn. lia.
Qed.

End Score.

(** Without a current piece [scoreLineClears] reads its tables inside
    their bounds: the score is a number. *)
Lemma scoreLineClears_returns (this : ScoringEngine) (state : State)
  (linesCleared : Z) (lastMove : option LastMove.t) (now : Z) :
  current state = None -> 0 <= linesCleared ->
  exists points this',
    Scoring.scoreLineClears this state linesCleared lastMove now
    = Ok (points, this').
Proof.
  intros Hcur Hlines. unfold Scoring.scoreLineClears.
  rewrite (detectSpinBonus_without_piece state lastMove Hcur).
  assert (Hindex : Z.min linesCleared 4 = 0 \/ Z.min linesCleared 4 = 1
                   \/ Z.min linesCleared 4 = 2 \/ Z.min linesCleared 4 = 3
                   \/ Z.min linesCleared 4 = 4) by lia.
  assert (Hnormal : exists base,
             Scoring.lookup Scoring.normalTable (Z.min linesCleared 4)
             = Ok base)
    by (destruct Hindex as [-> | [-> | [-> | [-> | ->]]]];
        eexists; reflexivity).
  assert (Hperfect : exists bonus,
             Scoring.lookup Scoring.perfectTable (Z.min linesCleared 4)
             = Ok bonus)
    by (destruct Hindex as [-> | [-> | [-> | [-> | ->]]]];
        eexists; reflexivity).
  destruct Hnormal as [base ->]. destruct Hperfect as [bonus ->].
  destruct (_ && Scoring.positive_counter _);
    destruct (1 <? combo state);
    destruct (Scoring.isPerfectClear _);
    do 2 eexists; reflexivity.
Qed.


(** Along a session the score never decreases. *)
Corollary score_monotone_along_session (state state' : State) :
  reachable state ->
  (forall deltaTime now,
      Engine.tick state deltaTime now = Ok state' ->
      score state <= score state')
  /\ (forall action now,
         Engine.handleInput state action now = Ok state' ->
         score state <= score state').
Proof.
  intros Hreach. apply reachable_session in Hreach.
  destruct Hreach as (_ & (Hlines & Hlevel & Hcombo) & _).
  split.
  - intros deltaTime now. apply tick_score; lia.
  - intros action now. apply handleInput_score.
Qed.

(** A call can also throw: [executeMove] reads the undeclared variable
    [piece] when a locking piece is moved to where it can fall, as when
    the resting FLOAT piece is moved up. *)
Example executeMove_reads_undeclared_piece :
  (state <- Scenario.restingFloat ;;
   Engine.handleInput state Action.UP_PRESSED (Scenario.T0 + 100))
  = Err (ReferenceError "piece").
Proof. vm_compute. reflexivity. Qed.


(** Outside a session the score can also stop being a number: with the
    rotated T piece still present while no line is being cleared, the
    source reads [[400, 800, 1200, 1600][-1]] and returns a state whose
    score is [NaN]; here the computation ends with [NaNScore]. *)
Example clear_with_piece_present_has_no_score :
  Engine.tick pieceWhileClearing 300 (Scenario.T0 + 400) = Err NaNScore.
Proof. vm_compute. reflexivity. Qed.



(** ** Piece selection and the clock *)

Lemma getNextPiece_fixed_set (state : State) (now now' : Z) :
  Mode.progressive (mode state) = false ->
  GameState.getNextPiece state now = GameState.getNextPiece state now'.
Proof.
  intros Hmode. unfold GameState.getNextPiece, GameState.getAvailablePieces.
  now rewrite Hmode.
Qed.

Lemma getNextPiece_same_skill (state : State) (now now' : Z) :
  GameState.calculateSkillScore state now
  = GameState.calculateSkillScore state now' ->
  GameState.getNextPiece state now = GameState.getNextPiece state now'.
Proof.
  intros Hskill. unfold GameState.getNextPiece, GameState.getAvailablePieces.
  now rewrite Hskill.
Qed.

(** The skill score of the same state at two clock readings. *)
Example skill_score_reads_the_clock :
  let state :=
    set_pieces 2
      (set_startTime (Some Scenario.T0) (GameState.createInitialState 0)) in
  GameState.calculateSkillScore state (Scenario.T0 + 1000) = 100
  /\ GameState.calculateSkillScore state (Scenario.T0 + 8000) = 12.
Proof. split; vm_compute; reflexivity. Qed.

(** C1: two runs from the seed 3 with the same single input, a hard drop
    of the first piece, one second and eight seconds after the start.
    The generators end in the same state, the piece kinds drawn for
    [next] differ. *)
Theorem C1_piece_kinds_depend_on_clock :
  Scenario.generatorOf (Scenario.hardDropAfter 3 1000)
  = Scenario.generatorOf (Scenario.hardDropAfter 3 8000)
  /\ Scenario.nextKind (Scenario.hardDropAfter 3 1000) = Some Z_
  /\ Scenario.nextKind (Scenario.hardDropAfter 3 8000) = Some L_.
Proof. repeat split; vm_compute; reflexivity. Qed.

(** ** The spin bonus *)

Lemma last_event_addScoreEvent (this : ScoringEngine)
  (type : ScoreEventType) (points : Z) (metadata : Metadata) (now : Z)
  (stats' : Stats.t) :
  exists prefix event,
    scoreLedger
      (set_stats stats'
         (Scoring.addScoreEvent this type points metadata now))
    = (prefix ++ [event])%list
    /\ ScoreEvent.type event = type
    /\ ScoreEvent.points event = points.
Proof.
  unfold Scoring.addScoreEvent. cbn [scoreLedger set_stats set_scoreLedger].
  do 2 eexists. split; [reflexivity |]. split; reflexivity.
Qed.

(** [scoreLineClears] itself scores a detected spin from the spin table:
    the line-clear event it appends last carries that base score. *)
Lemma scoreLineClears_spin_branch (this this' : ScoringEngine)
  (state : State) (linesCleared : Z) (lastMove : option LastMove.t)
  (now points : Z) :
  Scoring.detectSpinBonus state lastMove = true ->
  Scoring.scoreLineClears this state linesCleared lastMove now
  = Ok (points, this') ->
  exists baseScore prefix event,
    Scoring.lookup Scoring.spinTable (Z.min (linesCleared - 1) 3)
    = Ok baseScore
    /\ scoreLedger this' = (prefix ++ [event])%list
    /\ ScoreEvent.type event = LINE_CLEAR
    /\ ScoreEvent.points event = baseScore * level state.
Proof.
  intros Hspin H. unfold Scoring.scoreLineClears in H. rewrite Hspin in H.
  cbv beta iota in H.
  destruct (Scoring.lookup Scoring.spinTable _) as [baseScore |];
    [| discriminate].
  exists baseScore.
  unfold_ok H; apply pair_equal_spec in H as [_ <-];
    match goal with
    | |- context [scoreLedger
                    (set_stats ?s (Scoring.addScoreEvent ?x ?t ?p ?m ?n))] =>
        destruct (last_event_addScoreEvent x t p m n s)
          as (prefix & event & Hledger & Htype & Hpoints)
    end;
    exists prefix, event; repeat split; assumption.
Qed.

(** In a session the spin test never succeeds on a state that is being
    cleared: the piece is gone. *)
Lemma spin_not_detected_while_clearing (state : State)
  (lastMove : option LastMove.t) :
  reachable state -> phase state = CLEARING ->
  Scoring.detectSpinBonus state lastMove = false.
Proof.
  intros Hreach Hphase. apply detectSpinBonus_without_piece.
  apply reachable_inv in Hreach. unfold hasCurrent in Hreach.
  rewrite Hphase in Hreach. now destruct (current state).
Qed.

(** C2: the T piece is rotated into a pocket with three filled corners and
    the spin test succeeds on the resting piece; the lock clears row 19,
    and the clear is scored 100 from the normal table, not 400 from the
    spin table, with [spinBonus] false in the ledger. *)
Theorem C2_spin_scored_as_normal_clear :
  Scenario.spinDetected Scenario.spinRotated = true
  /\ Scenario.scoreOf Scenario.spinRotated = Some 0
  /\ Scenario.spinDetected Scenario.spinLocked = false
  /\ Scenario.scoreOf Scenario.spinCleared = Some 100
  /\ List.map (fun e => (ScoreEvent.type e, ScoreEvent.points e,
                         ScoreEvent.metadata e))
       (Scenario.ledgerOf Scenario.spinCleared)
     = [(LINE_CLEAR, 100,
         [("lines", JNum 1); ("spinBonus", JBool false); ("level", JNum 1)])]
  /\ Scoring.lookup Scoring.spinTable 0 = Ok 400.
Proof. repeat split; vm_compute; reflexivity. Qed.

(** ** The perfect clear *)

Lemma no_full_row_no_lines (board : Board) (i : Z) (cleared : list Z) :
  existsb Physics.row_full board = false ->
  forEach_i (fun cleared row i =>
    if Physics.row_full row then cleared ++ [i] else cleared) board i cleared
  = cleared.
Proof.
  revert i cleared. induction board as [| row board IH]; intros i cleared H;
    cbn in *; [reflexivity |].
  apply orb_false_iff in H as [Hrow Hrest]. rewrite Hrow. now apply IH.
Qed.

(** A board with a row recorded as full is not a perfect clear. *)
Lemma full_row_not_perfect (board : Board) :
  Forall (fun row => row <> []) board ->
  Physics.findClearedLines board <> [] ->
  Scoring.isPerfectClear board = false.
Proof.
  intros Hrows Hlines.
  destruct (existsb Physics.row_full board) eqn:Hfull.
  - apply existsb_exists in Hfull as (row & Hin & Hrow).
    rewrite Forall_forall in Hrows. specialize (Hrows row Hin).
    destruct (Scoring.isPerfectClear board) eqn:Hperfect; [| reflexivity].
    unfold Scoring.isPerfectClear in Hperfect.
    rewrite forallb_forall in Hperfect. specialize (Hperfect row Hin).
    destruct row as [| [color |] row]; [congruence | |]; discriminate.
  - unfold Physics.findClearedLines in Hlines.
    now rewrite no_full_row_no_lines in Hlines.
Qed.

(** In a session the perfect-clear test never succeeds on a state that is
    being cleared: its board still holds the full rows. *)
Lemma perfect_clear_not_detected_while_clearing (state : State) :
  reachable state -> phase state = CLEARING ->
  Scoring.isPerfectClear (board state) = false.
Proof.
  intros Hreach Hphase. apply reachable_session in Hreach.
  destruct Hreach as ([_ Hrows] & _ & Hclearing).
  destruct (Hclearing Hphase) as [Hlines Hne].
  apply full_row_not_perfect.
  - eapply Forall_impl; [| exact Hrows].
    intros row Hlen ->. discriminate.
  - now rewrite <- Hlines.
Qed.

(** C3: the I piece completes the only filled row; removing it leaves the
    board empty, and the clear is scored 100, the base score alone: no
    [PERFECT_CLEAR] event is in the ledger. *)
Theorem C3_perfect_clear_not_awarded :
  Scenario.boardOf Scenario.perfectCleared = Some GameState.createEmptyBoard
  /\ Scenario.scoreOf Scenario.perfectLocked = Some 0
  /\ Scenario.scoreOf Scenario.perfectCleared = Some 100
  /\ List.map ScoreEvent.type (Scenario.ledgerOf Scenario.perfectCleared)
     = [LINE_CLEAR]
  /\ Scoring.lookup Scoring.perfectTable 1 = Ok 800.
Proof. repeat split; vm_compute; reflexivity. Qed.

(** * Further properties *)

(** ** [choice] and [shuffle] *)

Section Choice.

(** The index [Math.floor(value * n)] drawn from a non-negative state. *)
Lemma draw_index_range (rng : Z) (n : nat) :
  0 <= rng -> (0 < n)%nat ->
  let '(value, _) := Random.next rng in
  0 <= Qfloor (value * inject_Z (Z.of_nat n)) < Z.of_nat n.
Proof.
  intros Hrng Hn. unfold Random.next, Random.output.
  pose proof (advance_range rng Hrng) as Hs. unfold Random.modulus in Hs.
  set (s := Random.advance rng) in *.
  unfold Qfloor, Qmult, inject_Z. cbn [Qnum Qden].
  change (Z.pos (4294967296 * 1)) with 4294967296.
  split.
  - apply Z.div_pos; nia.
  - apply Z.div_lt_upper_bound; nia.
Qed.

Lemma choice_some {A : Type} (array : list A) (rng : Z) :
  0 <= rng -> array <> [] ->
  exists a, fst (Random.choice array rng) = Some a /\ In a array.
Proof.
  intros Hrng Hne. unfold Random.choice.
  assert (Hlen : (0 < List.length array)%nat)
    by (destruct array; [congruence | cbn; lia]).
  pose proof (draw_index_range rng (List.length array) Hrng Hlen) as Hidx.
  destruct (Random.next rng) as [value rng']. cbn [fst].
  destruct (Z.ltb_spec (Qfloor (value * inject_Z (Z.of_nat (List.length array)))) 0);
    [lia |].
  destruct (nth_error array _) as [a |] eqn:E.
  - exists a. split; [reflexivity |]. eapply nth_error_In, E.
  - apply nth_error_None in E. lia.
Qed.

Lemma next_state_range (rng : Z) :
  0 <= rng -> 0 <= snd (Random.next rng) < Random.modulus.
Proof. intros H. unfold Random.next. cbn. now apply advance_range. Qed.

End Choice.

(** X1: from a generator whose state is in [0, 2^53] (as after any call
    on such a seed), [choice] on a non-empty array returns an element of
    the array; on the empty array it returns [undefined]. *)
Theorem choice_in_array {A : Type} (array : list A) (rng : Z) :
  0 <= rng <= 2 ^ 53 ->
  (array <> [] ->
   exists a, fst (Random.choice array rng) = Some a /\ In a array)
  /\ fst (Random.choice (@nil A) rng) = None.
Proof.
  intros [Hrng _]. split.
  - now apply choice_some.
  - unfold Random.choice. destruct (Random.next rng) as [value rng'].
    cbn [fst List.length]. destruct (_ <? 0); [reflexivity |].
    now destruct (Z.to_nat _).
Qed.

Lemma choice_in_array_witness :
  exists a, fst (Random.choice [I_; O_; T_] 42) = Some a
            /\ In a [I_; O_; T_].
Proof.
  apply (proj1 (choice_in_array [I_; O_; T_] 42 ltac:(cbn; lia))).
  discriminate.
Defined.

Section Shuffle.

Context {A : Type}.

Lemma assign_map (f : A -> option A) (l : list A) (i : nat) (v : A) :
  assign (List.map f l) i (f v) = List.map f (assign l i v).
Proof.
  revert i. induction l as [| a l IH]; intros [| i]; cbn; try reflexivity.
  now rewrite IH.
Qed.

Lemma assign_same (l : list A) (i : nat) (a : A) :
  nth_error l i = Some a -> assign l i a = l.
Proof.
  revert i. induction l as [| x l IH]; intros [| i] H; cbn in *;
    try discriminate.
  - now injection H as ->.
  - now rewrite IH.
Qed.

Lemma nth_error_assign_other (l : list A) (i j : nat) (v : A) :
  i <> j -> nth_error (assign l i v) j = nth_error l j.
Proof.
  revert i j. induction l as [| x l IH]; intros [| i] [| j] H; cbn;
    try reflexivity; try congruence.
  apply IH. congruence.
Qed.

(** Moving the head into a later slot and that slot's element to the
    front. *)
Lemma assign_head_perm (l : list A) (j : nat) (a b : A) :
  nth_error l j = Some b ->
  Permutation.Permutation (a :: l) (b :: assign l j a).
Proof.
  revert j. induction l as [| c l IH]; intros [| j] H; cbn in *;
    try discriminate.
  - injection H as ->. apply Permutation.perm_swap.
  - eapply Permutation.perm_trans; [apply Permutation.perm_swap |].
    eapply Permutation.perm_trans;
      [apply Permutation.perm_skip, (IH j H) |].
    apply Permutation.perm_swap.
Qed.

(** Exchanging two slots permutes the array. *)
Lemma exchange_perm (l : list A) (i j : nat) (a b : A) :
  nth_error l i = Some a -> nth_error l j = Some b ->
  Permutation.Permutation l (assign (assign l i b) j a).
Proof.
  revert i j. induction l as [| c l IH]; intros [| i] [| j] Hi Hj;
    cbn in *; try discriminate.
  - injection Hi as ->. injection Hj as ->. apply Permutation.Permutation_refl.
  - injection Hi as ->. now apply assign_head_perm.
  - injection Hj as ->. now apply assign_head_perm.
  - apply Permutation.perm_skip. now apply IH.
Qed.

Lemma assign_length' (l : list A) (i : nat) (v : A) :
  List.length (assign l i v) = List.length l.
Proof.
  revert i. induction l as [| a l IH]; intros [| i]; cbn; auto.
Qed.

(** A swap of two slots inside an array without holes. *)
Lemma swap_in_range (l : list A) (i : nat) (j : Z) :
  (i < List.length l)%nat -> 0 <= j < Z.of_nat (List.length l) ->
  exists l',
    Random.swap (List.map Some l) i j = List.map Some l'
    /\ Permutation.Permutation l l'.
Proof.
  intros Hi Hj. unfold Random.swap, index.
  destruct (Z.ltb_spec j 0); [lia |].
  destruct (nth_error l i) as [a |] eqn:Ea;
    [| apply nth_error_None in Ea; lia].
  destruct (nth_error l (Z.to_nat j)) as [b |] eqn:Eb;
    [| apply nth_error_None in Eb; lia].
  exists (assign (assign l i b) (Z.to_nat j) a). split.
  - rewrite nth_error_map, Eb. cbn [option_map].
    rewrite (nth_error_nth (List.map Some l) i None (x := Some a))
      by (rewrite nth_error_map, Ea; reflexivity).
    now rewrite !assign_map.
  - now apply exchange_perm.
Qed.

Lemma shuffle_loop_perm (i : nat) (l : list A) (rng : Z) :
  0 <= rng -> (i < List.length l)%nat \/ i = 0%nat ->
  exists l',
    fst (Random.shuffle_loop i (List.map Some l) rng) = List.map Some l'
    /\ Permutation.Permutation l l'
    /\ 0 <= snd (Random.shuffle_loop i (List.map Some l) rng)
       <= Z.max rng Random.modulus.
Proof.
  revert l rng. induction i as [| i IH]; intros l rng Hrng Hi.
  - exists l. cbn. repeat split;
      [apply Permutation.Permutation_refl | lia | lia].
  - destruct Hi as [Hi | Hi]; [| discriminate].
    cbn [Random.shuffle_loop].
    pose proof (draw_index_range rng (S i + 1) Hrng ltac:(lia)) as Hj.
    pose proof (next_state_range rng Hrng) as Hnext.
    destruct (Random.next rng) as [value rng']. cbn [snd] in Hnext.
    destruct (swap_in_range l (S i)
                (Qfloor (value * inject_Z (Z.of_nat (S i + 1)))) Hi)
      as (l1 & Hswap & Hperm1); [lia |].
    rewrite Hswap.
    destruct (IH l1 rng') as (l2 & Hloop & Hperm2 & Hrng2); [lia | |].
    { left. rewrite <- (Permutation.Permutation_length Hperm1). lia. }
    exists l2. split; [assumption |]. split.
    + eapply Permutation.perm_trans; eassumption.
    + unfold Random.modulus in *. lia.
Qed.

End Shuffle.

(** X2: from a generator whose state is in [0, 2^53], [shuffle] returns
    an array without holes that is a permutation of its argument, and
    leaves the generator in such a state. *)
Theorem shuffle_permutation {A : Type} (array : list A) (rng : Z) :
  0 <= rng <= 2 ^ 53 ->
  exists shuffled,
    fst (Random.shuffle array rng) = List.map Some shuffled
    /\ Permutation.Permutation array shuffled
    /\ 0 <= snd (Random.shuffle array rng) <= 2 ^ 53.
Proof.
  intros Hrng. unfold Random.shuffle.
  destruct (shuffle_loop_perm (List.length array - 1) array rng)
    as (shuffled & Hs & Hperm & Hstate); [lia | |].
  { destruct array; cbn; [right; reflexivity | left; lia]. }
  exists shuffled. repeat split; try assumption; try lia.
  unfold Random.modulus in Hstate.
  assert (E : 2 ^ 53 = 9007199254740992) by reflexivity. lia.
Qed.

Lemma shuffle_permutation_witness :
  exists shuffled,
    fst (Random.shuffle [1; 2; 3; 4] 42) = List.map Some shuffled
    /\ Permutation.Permutation [1; 2; 3; 4] shuffled
    /\ 0 <= snd (Random.shuffle [1; 2; 3; 4] 42) <= 2 ^ 53.
Proof. apply shuffle_permutation. cbn. lia. Defined.

(** ** Physics *)

Section Arrays.

Lemma forEach_i_nth {A B : Type} (P : B -> Prop) (f : B -> A -> Z -> B)
  (l : list A) (i : Z) (acc : B) :
  (forall acc a k,
      nth_error l k = Some a -> P acc -> P (f acc a (i + Z.of_nat k))) ->
  P acc -> P (forEach_i f l i acc).
Proof.
  revert i acc. induction l as [| x l IH]; intros i acc Hf Hacc; cbn.
  - exact Hacc.
  - apply IH.
    + intros acc' a k Hk Hacc'.
      replace (i + 1 + Z.of_nat k) with (i + Z.of_nat (S k)) by lia.
      now apply Hf.
    + specialize (Hf acc x 0%nat eq_refl Hacc).
      now rewrite Z.add_0_r in Hf.
Qed.

(** A property established at one element and kept by the others. *)
Lemma forEach_i_reach {A B : Type} (Q R : B -> Prop) (f : B -> A -> Z -> B)
  (l : list A) (i : Z) (acc : B) (k : nat) (a : A) :
  nth_error l k = Some a ->
  (forall acc a' j, R acc -> R (f acc a' j)) ->
  (forall acc a' j, R acc -> Q acc -> Q (f acc a' j)) ->
  (forall acc, R acc -> Q (f acc a (i + Z.of_nat k))) ->
  R acc -> Q (forEach_i f l i acc).
Proof.
  intros Hk HR HQ Hset. revert i acc k Hk Hset.
  induction l as [| x l IH]; intros i acc [| k] Hk Hset Hacc; cbn in *;
    try discriminate.
  - injection Hk as ->. rewrite Z.add_0_r in Hset.
    apply (forEach_i_nth (fun acc => R acc /\ Q acc)).
    + intros acc' a' j _ [Hr Hq]. split; [now apply HR | now apply HQ].
    + split; [now apply HR | now apply Hset].
  - apply (IH (i + 1) (f acc x i) k Hk).
    + intros acc' Hr.
      replace (i + 1 + Z.of_nat k) with (i + Z.of_nat (S k)) by lia.
      now apply Hset.
    + now apply HR.
Qed.

Lemma nth_error_assign_same {A : Type} (l : list A) (i : nat) (v : A) :
  (i < List.length l)%nat -> nth_error (assign l i v) i = Some v.
Proof.
  revert i. induction l as [| x l IH]; intros [| i] H; cbn in *;
    try lia; [reflexivity |].
  apply IH. lia.
Qed.

End Arrays.

Section BoardCells.

Lemma board_get_set_same (board : Board) (y x : Z) (v : cell) :
  wf_board board -> 0 <= y < 20 -> 0 <= x < 10 ->
  Physics.board_get (Physics.board_set board y x v) y x = Some v.
Proof.
  intros [Hlen Hrows] Hy Hx. unfold Physics.board_set, Physics.board_get, index.
  destruct (Z.ltb_spec y 0); [lia |]. destruct (Z.ltb_spec x 0); [lia |].
  destruct (nth_error board (Z.to_nat y)) as [row |] eqn:Erow;
    [| apply nth_error_None in Erow; lia].
  destruct (Z.ltb_spec y 0); [lia |].
  rewrite nth_error_assign_same by lia.
  apply nth_error_assign_same.
  rewrite Forall_forall in Hrows.
  rewrite (Hrows row (nth_error_In _ _ Erow)). lia.
Qed.

Lemma board_get_set_other (board : Board) (y x y' x' : Z) (v : cell) :
  0 <= x -> x' <> x \/ y' <> y ->
  Physics.board_get (Physics.board_set board y x v) y' x'
  = Physics.board_get board y' x'.
Proof.
  intros Hx Hne. unfold Physics.board_set, Physics.board_get, index.
  destruct (Z.ltb_spec y 0); [reflexivity |].
  destruct (nth_error board (Z.to_nat y)) as [row |] eqn:Erow;
    [| reflexivity].
  destruct (Z.ltb_spec y' 0); [reflexivity |].
  destruct (Z.eq_dec y' y) as [-> | Hy].
  - rewrite nth_error_assign_same
      by (apply nth_error_Some; congruence).
    rewrite Erow. destruct (Z.ltb_spec x' 0); [reflexivity |].
    apply nth_error_assign_other. lia.
  - rewrite nth_error_assign_other by lia. reflexivity.
Qed.

End BoardCells.

(** X3: on a 20 x 10 board, [placePiece] writes the piece's colour into
    every in-bounds cell under an occupied sub-cell, leaves every other
    cell as it was, and keeps the board 20 x 10. *)
Theorem placePiece_cells (board : Board) (piece : Piece.t) :
  wf_board board ->
  (forall dx dy,
      occupied piece dx dy ->
      0 <= Piece.gridX piece + Z.of_nat dx < 10 ->
      0 <= Piece.gridY piece + Z.of_nat dy < 20 ->
      Physics.board_get (Physics.placePiece board piece)
        (Piece.gridY piece + Z.of_nat dy) (Piece.gridX piece + Z.of_nat dx)
      = Some (Some (Piece.color piece)))
  /\ (forall x y,
         (forall dx dy,
             occupied piece dx dy ->
             x <> Piece.gridX piece + Z.of_nat dx
             \/ y <> Piece.gridY piece + Z.of_nat dy) ->
         Physics.board_get (Physics.placePiece board piece) y x
         = Physics.board_get board y x)
  /\ wf_board (Physics.placePiece board piece).
Proof.
  intros Hwf. split; [| split].
  - intros dx dy (row & c & Hrow & Hc & Hocc) Hx Hy.
    unfold Physics.placePiece.
    set (inner := fun (newBoard : Board) (cell : Z) (dx' : Z) (dy' : Z) =>
      if truthy cell then
        if (Piece.gridY piece + dy' >=? 0) && (Piece.gridY piece + dy' <? 20)
           && (Piece.gridX piece + dx' >=? 0)
           && (Piece.gridX piece + dx' <? 10)
        then Physics.board_set newBoard (Piece.gridY piece + dy')
               (Piece.gridX piece + dx') (Some (Piece.color piece))
        else newBoard
      else newBoard).
    set (Q := fun b : Board =>
      Physics.board_get b (Piece.gridY piece + Z.of_nat dy)
        (Piece.gridX piece + Z.of_nat dx) = Some (Some (Piece.color piece))).
    assert (HinnerR : forall acc c' j j', wf_board acc ->
                                          wf_board (inner acc c' j j')).
    { intros acc c' j j' Hacc. unfold inner. destruct (truthy c'); [| easy].
      destruct (_ && _); [now apply board_set_wf | easy]. }
    assert (HinnerQ : forall acc c' j j', wf_board acc -> Q acc ->
                                          Q (inner acc c' j j')).
    { intros acc c' j j' Hacc Hq. unfold inner. destruct (truthy c'); [| easy].
      destruct (_ && _) eqn:Hin; [| easy]. unfold Q.
      destruct (Z.eq_dec (Piece.gridX piece + Z.of_nat dx)
                  (Piece.gridX piece + j)) as [Ex | Ex];
        [destruct (Z.eq_dec (Piece.gridY piece + Z.of_nat dy)
                    (Piece.gridY piece + j')) as [Ey | Ey] |].
      - rewrite <- Ex, <- Ey. now apply board_get_set_same.
      - rewrite board_get_set_other; [exact Hq | lia | now right].
      - rewrite board_get_set_other; [exact Hq | lia | now left]. }
    apply (forEach_i_reach Q wf_board _ _ 0 board dy row Hrow).
    + intros acc row' j Hacc.
      apply (forEach_i_nth wf_board); [| exact Hacc].
      intros acc' c' k _ Hacc'. apply (HinnerR acc' c' (0 + Z.of_nat k) j Hacc').
    + intros acc row' j Hacc Hq.
      apply (forEach_i_nth (fun b => wf_board b /\ Q b)); [| now split].
      intros acc' c' k _ [Hr' Hq']. split.
      * apply (HinnerR acc' c' (0 + Z.of_nat k) j Hr').
      * apply (HinnerQ acc' c' (0 + Z.of_nat k) j Hr' Hq').
    + intros acc Hacc.
      apply (forEach_i_reach Q wf_board _ _ 0 acc dx c Hc).
      * intros acc' c' j Hacc'. apply (HinnerR acc' c' j _ Hacc').
      * intros acc' c' j Hacc' Hq. apply (HinnerQ acc' c' j _ Hacc' Hq).
      * intros acc' Hacc'. rewrite Hocc. rewrite !Z.add_0_l.
        destruct (Z.geb_spec (Piece.gridY piece + Z.of_nat dy) 0); [| lia].
        destruct (Z.ltb_spec (Piece.gridY piece + Z.of_nat dy) 20); [| lia].
        destruct (Z.geb_spec (Piece.gridX piece + Z.of_nat dx) 0); [| lia].
        destruct (Z.ltb_spec (Piece.gridX piece + Z.of_nat dx) 10); [| lia].
        cbn [andb]. unfold Q. now apply board_get_set_same.
      * exact Hacc.
    + exact Hwf.
  - intros x y Hfree. unfold Physics.placePiece.
    apply (forEach_i_nth
             (fun b => Physics.board_get b y x = Physics.board_get board y x));
      [| reflexivity].
    intros acc row dy Hrow Hacc.
    apply (forEach_i_nth
             (fun b => Physics.board_get b y x = Physics.board_get board y x));
      [| exact Hacc].
    intros acc' c dx Hc Hacc'. rewrite !Z.add_0_l.
    destruct (truthy c) eqn:Hocc; [| exact Hacc'].
    destruct (_ && _) eqn:Hin; [| exact Hacc'].
    rewrite board_get_set_other; [exact Hacc' | lia |].
    apply (Hfree dx dy). now exists row, c.
  - now apply placePiece_wf.
Qed.

Lemma placePiece_cells_witness :
  Physics.board_get
    (Physics.placePiece GameState.createEmptyBoard Scenario.flatI) 19 3
  = Some (Some (Piece.color Scenario.flatI)).
Proof.
  apply (proj1 (placePiece_cells GameState.createEmptyBoard Scenario.flatI
                  createEmptyBoard_wf) 0%nat 1%nat).
  - exists [1; 1; 1; 1], 1. repeat split; reflexivity.
  - cbn. lia.
  - cbn. lia.
Defined.

Section Shadow.

Lemma shadow_loop_path (fuel : nat) (board : Board) (piece : Piece.t)
  (y0 : Z) :
  forall y, y0 < y <= Physics.shadow_loop fuel board piece y0 ->
            Physics.canPieceFitAt board piece (Piece.gridX piece) y = true.
Proof.
  revert y0. induction fuel as [| fuel IH]; intros y0 y Hy; cbn in Hy.
  - lia.
  - destruct ((y0 <? 20)
              && Physics.canPieceFitAt board piece (Piece.gridX piece)
                   (y0 + 1)) eqn:Hloop; [| lia].
    destruct (Z.eq_dec y (y0 + 1)) as [-> | Hne].
    + now apply andb_true_iff in Hloop.
    + apply (IH (y0 + 1)). lia.
Qed.

End Shadow.

(** X4: [calculateShadow] returns a row at or below the piece's row, the
    piece fits at every row passed on the way down, and the loop of the
    source has stopped there: the row is 20 or more, or the piece does not
    fit one row further down. *)
Theorem calculateShadow_lands (board : Board) (piece : Piece.t) :
  Piece.gridY piece <= Physics.calculateShadow board piece
  /\ (forall y,
         Piece.gridY piece < y <= Physics.calculateShadow board piece ->
         Physics.canPieceFitAt board piece (Piece.gridX piece) y = true)
  /\ (20 <= Physics.calculateShadow board piece
      \/ Physics.canPieceFitAt board piece (Piece.gridX piece)
           (Physics.calculateShadow board piece + 1) = false).
Proof.
  destruct (calculateShadow_stops board piece) as [Hle Hstop].
  split; [exact Hle | split].
  - apply shadow_loop_path.
  - apply andb_false_iff in Hstop as [Hlt | Hfit]; [left | now right].
    destruct (Z.ltb_spec (Physics.calculateShadow board piece) 20);
      [discriminate | lia].
Qed.

(** X5: a piece with an occupied sub-cell in shape row [dy] that is dropped
    from a row where that sub-cell is on or above the board lands with the
    sub-cell on the board: the shadow never pushes an occupied sub-cell
    below row 19. *)
Theorem calculateShadow_on_board (board : Board) (piece : Piece.t)
  (dx dy : nat) :
  occupied piece dx dy ->
  Piece.gridY piece + Z.of_nat dy < 20 ->
  Physics.calculateShadow board piece + Z.of_nat dy < 20.
Proof.
  intros (row & c & Hrow & Hc & Hocc) Hstart.
  destruct (calculateShadow_stops board piece) as [Hle _].
  destruct (Z.eq_dec (Physics.calculateShadow board piece)
              (Piece.gridY piece)) as [-> | Hne]; [exact Hstart |].
  assert (Hfit : Physics.canPieceFitAt board piece (Piece.gridX piece)
                   (Physics.calculateShadow board piece) = true).
  { apply (shadow_loop_path (Z.to_nat (20 - Piece.gridY piece)) board piece
             (Piece.gridY piece)).
    unfold Physics.calculateShadow in *. lia. }
  rewrite canPieceFitAt_cells in Hfit.
  specialize (Hfit dx dy row c Hrow Hc). unfold cell_fits in Hfit.
  rewrite Hocc in Hfit. cbn [negb] in Hfit.
  destruct (_ || _); [discriminate |].
  destruct (Z.ltb_spec (Physics.calculateShadow board piece + Z.of_nat dy) 0);
    [lia |].
  destruct (Z.geb_spec (Physics.calculateShadow board piece + Z.of_nat dy) 20);
    [discriminate | lia].
Qed.

Lemma calculateShadow_on_board_witness :
  Physics.calculateShadow GameState.createEmptyBoard Scenario.flatI + 1 < 20.
Proof.
  apply (calculateShadow_on_board GameState.createEmptyBoard Scenario.flatI
           0%nat 1%nat).
  - exists [1; 1; 1; 1], 1. repeat split; reflexivity.
  - cbn. lia.
Defined.

(** X6: [isResting] is true exactly when the loop of [calculateShadow]
    does not take its first step: the piece is at row 20 or below, or it
    does not fit one row further down. *)
Theorem isResting_cannot_fall (board : Board) (piece : Piece.t) :
  Physics.isResting board piece
  = negb ((Piece.gridY piece <? 20)
          && Physics.canPieceFitAt board piece (Piece.gridX piece)
               (Piece.gridY piece + 1)).
Proof.
  unfold Physics.isResting, Physics.calculateShadow.
  destruct (Z.ltb_spec (Piece.gridY piece) 20) as [Hlt | Hge]; cbn [andb].
  - destruct (Z.to_nat (20 - Piece.gridY piece)) as [| fuel] eqn:Hfuel;
      [lia |].
    cbn [Physics.shadow_loop].
    destruct (Z.ltb_spec (Piece.gridY piece) 20); [| lia]. cbn [andb].
    destruct (Physics.canPieceFitAt board piece (Piece.gridX piece)
                (Piece.gridY piece + 1)); cbn [negb].
    + apply Z.eqb_neq.
      pose proof (shadow_loop_stops fuel board piece (Piece.gridY piece + 1))
        as Hs.
      cbv zeta in Hs. lia.
    + apply Z.eqb_refl.
  - replace (Z.to_nat (20 - Piece.gridY piece)) with 0%nat by lia.
    cbn. apply Z.eqb_refl.
Qed.

Section Kicks.

Lemma kicks_I_bound (fromRot toRot kx ky : Z) :
  In (kx, ky) (Physics.kicks_I fromRot toRot) ->
  -2 <= kx <= 2 /\ -2 <= ky <= 2.
Proof.
  unfold Physics.kicks_I, Physics.kick.
  destruct fromRot as [| [[p | p |] | [p | p |] |] | p];
    destruct toRot as [| [[q | q |] | [q | q |] |] | q];
    cbn [In]; intros H;
    repeat (destruct H as [H | H]; [injection H as <- <-; lia |]);
    contradiction.
Qed.

Lemma kicks_default_bound (fromRot toRot kx ky : Z) :
  In (kx, ky) (Physics.kicks_default fromRot toRot) ->
  -2 <= kx <= 2 /\ -2 <= ky <= 2.
Proof.
  unfold Physics.kicks_default, Physics.kick.
  destruct fromRot as [| [[p | p |] | [p | p |] |] | p];
    destruct toRot as [| [[q | q |] | [q | q |] |] | q];
    cbn [In]; intros H;
    repeat (destruct H as [H | H]; [injection H as <- <-; lia |]);
    contradiction.
Qed.

Lemma getWallKicks_bound (piece : Piece.t) (direction kx ky : Z) :
  In (kx, ky) (Physics.getWallKicks piece direction) ->
  -2 <= kx <= 2 /\ -2 <= ky <= 2.
Proof.
  unfold Physics.getWallKicks.
  destruct (Piece.type piece);
    first [apply kicks_I_bound | apply kicks_default_bound].
Qed.

Lemma try_kicks_some (board : Board) (rotated p : Piece.t)
  (kicks : list (Z * Z)) :
  Physics.try_kicks board rotated kicks = Some p ->
  exists kx ky,
    In (kx, ky) kicks
    /\ p = Piece.set_gridY (Piece.gridY rotated + ky)
             (Piece.set_gridX (Piece.gridX rotated + kx) rotated)
    /\ Physics.canPieceFitAt board rotated (Piece.gridX rotated + kx)
         (Piece.gridY rotated + ky) = true.
Proof.
  induction kicks as [| [kx ky] rest IH]; cbn; [discriminate |].
  destruct (Physics.canPieceFitAt board rotated (Piece.gridX rotated + kx)
              (Piece.gridY rotated + ky)) eqn:Hfit.
  - intros H. injection H as <-. exists kx, ky. auto.
  - intros H. destruct (IH H) as (kx' & ky' & Hin & Hp & Hfit').
    exists kx', ky'. auto.
Qed.

End Kicks.

Lemma tryRotation_some (board : Board) (piece p : Piece.t)
  (direction : Z) :
  Physics.tryRotation board piece direction = Some p ->
  Physics.canPieceFitAt board p (Piece.gridX p) (Piece.gridY p) = true
  /\ Piece.shape p = Piece.shape (Physics.rotatePiece piece direction)
  /\ Piece.rotation p = Z.rem (Piece.rotation piece + direction + 4) 4
  /\ Piece.type p = Piece.type piece
  /\ -2 <= Piece.gridX p - Piece.gridX piece <= 2
  /\ -2 <= Piece.gridY p - Piece.gridY piece <= 2
  /\ (Piece.type piece = O_ ->
      Piece.gridX p = Piece.gridX piece /\ Piece.gridY p = Piece.gridY piece).
Proof.
  unfold Physics.tryRotation.
  destruct (Physics.canPieceFitAt board (Physics.rotatePiece piece direction)
              (Piece.gridX (Physics.rotatePiece piece direction))
              (Piece.gridY (Physics.rotatePiece piece direction))) eqn:Hbase.
  - intros H. injection H as <-. split; [exact Hbase |].
    unfold Physics.rotatePiece, Piece.set_rotation, Piece.set_shape.
    cbn. repeat split; try reflexivity; lia.
  - assert (Hkick :
      Physics.try_kicks board (Physics.rotatePiece piece direction)
        (Physics.getWallKicks piece direction) = Some p ->
      Physics.canPieceFitAt board p (Piece.gridX p) (Piece.gridY p) = true
      /\ Piece.shape p = Piece.shape (Physics.rotatePiece piece direction)
      /\ Piece.rotation p = Z.rem (Piece.rotation piece + direction + 4) 4
      /\ Piece.type p = Piece.type piece
      /\ -2 <= Piece.gridX p - Piece.gridX piece <= 2
      /\ -2 <= Piece.gridY p - Piece.gridY piece <= 2).
    { intros H. apply try_kicks_some in H as (kx & ky & Hin & -> & Hfit).
      apply getWallKicks_bound in Hin.
      split; [exact Hfit |].
      unfold Physics.rotatePiece, Piece.set_rotation, Piece.set_shape,
        Piece.set_gridX, Piece.set_gridY.
      cbn. repeat split; try reflexivity; lia. }
    destruct (Piece.type piece) eqn:Htype; try discriminate;
      intros H; destruct (Hkick H) as (H1 & H2 & H3 & H4 & H5 & H6);
      repeat split; try assumption; try lia; discriminate.
Qed.

(** X7: a rotation that succeeds returns the rotated shape and rotation
    index of [rotatePiece] at a position where the piece fits the board,
    displaced by at most two cells in each direction; an O piece is never
    displaced. *)
Theorem tryRotation_result (board : Board) (piece p : Piece.t)
  (direction : Z) :
  Physics.tryRotation board piece direction = Some p ->
  Physics.canPieceFitAt board p (Piece.gridX p) (Piece.gridY p) = true
  /\ Piece.shape p = Piece.shape (Physics.rotatePiece piece direction)
  /\ Piece.rotation p = Z.rem (Piece.rotation piece + direction + 4) 4
  /\ Piece.type p = Piece.type piece
  /\ -2 <= Piece.gridX p - Piece.gridX piece <= 2
  /\ -2 <= Piece.gridY p - Piece.gridY piece <= 2
  /\ (Piece.type piece = O_ ->
      Piece.gridX p = Piece.gridX piece /\ Piece.gridY p = Piece.gridY piece).
Proof. apply tryRotation_some. Qed.

Lemma tryRotation_result_witness :
  exists p,
    Physics.tryRotation Scenario.pocket Scenario.uprightT (-1) = Some p
    /\ Physics.canPieceFitAt Scenario.pocket p (Piece.gridX p) (Piece.gridY p)
       = true.
Proof.
  eexists. split; [reflexivity |].
  apply (tryRotation_result Scenario.pocket Scenario.uprightT _ (-1)).
  reflexivity.
Defined.

Section ClearedLines.

Let collect := fun (cleared : list Z) (row : list cell) (i : Z) =>
  if Physics.row_full row then (cleared ++ [i])%list else cleared.

Lemma collect_app (board : Board) (i : Z) (cleared : list Z) :
  forEach_i collect board i cleared
  = (cleared ++ forEach_i collect board i [])%list.
Proof.
  revert i cleared. induction board as [| row board IH]; intros i cleared;
    cbn.
  - now rewrite app_nil_r.
  - unfold collect at 2 4. destruct (Physics.row_full row).
    + rewrite (IH (i + 1) (cleared ++ [i])%list).
      rewrite (IH (i + 1) ([] ++ [i])%list).
      now rewrite <- app_assoc.
    + apply IH.
Qed.

Lemma collect_cons (row : list cell) (board : Board) (i : Z) :
  forEach_i collect (row :: board) i []
  = if Physics.row_full row then i :: forEach_i collect board (i + 1) []
    else forEach_i collect board (i + 1) [].
Proof.
  cbn. unfold collect at 2. destruct (Physics.row_full row);
    [| reflexivity].
  now rewrite collect_app.
Qed.

Lemma collect_In (board : Board) (s i : Z) :
  In i (forEach_i collect board s [])
  <-> exists k row,
        i = s + Z.of_nat k /\ nth_error board k = Some row
        /\ Physics.row_full row = true.
Proof.
  revert s. induction board as [| row board IH]; intros s.
  - cbn. split; [contradiction |]. intros ([| k] & r & _ & H & _); discriminate.
  - rewrite collect_cons.
    assert (Htail :
      In i (forEach_i collect board (s + 1) [])
      <-> exists k r, i = s + Z.of_nat (S k) /\ nth_error board k = Some r
                      /\ Physics.row_full r = true).
    { rewrite IH. split; intros (k & r & Hi & H); exists k, r;
        (split; [lia | exact H]). }
    destruct (Physics.row_full row) eqn:Hfull.
    + cbn [In]. rewrite Htail. split.
      * intros [<- | (k & r & Hi & Hk & Hr)].
        -- exists 0%nat, row. repeat split; [lia | exact Hfull].
        -- exists (S k), r. auto.
      * intros ([| k] & r & Hi & Hk & Hr).
        -- left. lia.
        -- right. exists k, r. auto.
    + rewrite Htail. split.
      * intros (k & r & Hi & Hk & Hr). exists (S k), r. auto.
      * intros ([| k] & r & Hi & Hk & Hr).
        -- cbn in Hk. congruence.
        -- exists k, r. auto.
Qed.

Lemma collect_sorted (board : Board) (s : Z) :
  Sorted.StronglySorted Z.lt (forEach_i collect board s []).
Proof.
  revert s. induction board as [| row board IH]; intros s.
  - constructor.
  - rewrite collect_cons. destruct (Physics.row_full row); [| apply IH].
    constructor; [apply IH |].
    apply Forall_forall. intros i Hi.
    apply collect_In in Hi as (k & _ & -> & _). lia.
Qed.

Lemma collect_length (board : Board) (s : Z) :
  List.length (forEach_i collect board s [])
  = List.length (List.filter Physics.row_full board).
Proof.
  revert s. induction board as [| row board IH]; intros s;
    [reflexivity |].
  rewrite collect_cons. cbn [List.filter].
  destruct (Physics.row_full row); cbn [List.length]; now rewrite IH.
Qed.

Lemma includes_In (lines : list Z) (i : Z) :
  Physics.includes lines i = true <-> In i lines.
Proof.
  unfold Physics.includes. rewrite existsb_exists. split.
  - intros (j & Hj & Heq). apply Z.eqb_eq in Heq. now subst.
  - intros H. exists i. split; [exact H | apply Z.eqb_refl].
Qed.

Lemma filter_i_rows (lines : list Z) (board : Board) (s : Z) :
  (forall k row, nth_error board k = Some row ->
                 Physics.includes lines (s + Z.of_nat k)
                 = Physics.row_full row) ->
  Physics.filter_i (fun _ i => negb (Physics.includes lines i)) board s
  = List.filter (fun row => negb (Physics.row_full row)) board.
Proof.
  revert s. induction board as [| row board IH]; intros s H;
    [reflexivity |].
  cbn. pose proof (H 0%nat row eq_refl) as H0. rewrite Z.add_0_r in H0.
  rewrite H0, IH; [reflexivity |].
  intros k r Hk. rewrite <- (H (S k) r Hk). f_equal. lia.
Qed.

Lemma filter_split_length {A : Type} (f : A -> bool) (l : list A) :
  (List.length (List.filter f l)
   + List.length (List.filter (fun a => negb (f a)) l))%nat
  = List.length l.
Proof.
  induction l as [| a l IH]; [reflexivity |].
  cbn. destruct (f a); cbn; lia.
Qed.

Lemma findClearedLines_In (board : Board) (i : Z) :
  In i (Physics.findClearedLines board)
  <-> 0 <= i
      /\ exists row, nth_error board (Z.to_nat i) = Some row
                     /\ Physics.row_full row = true.
Proof.
  unfold Physics.findClearedLines. fold collect. rewrite collect_In. split.
  - intros (k & row & -> & Hk & Hfull). split; [lia |].
    exists row. rewrite Z.add_0_l, Nat2Z.id. auto.
  - intros (Hi & row & Hk & Hfull). exists (Z.to_nat i), row.
    repeat split; [lia | exact Hk | exact Hfull].
Qed.

Lemma findClearedLines_none (board : Board) :
  Forall (fun row => Physics.row_full row = false) board ->
  Physics.findClearedLines board = [].
Proof.
  intros Hrows.
  destruct (Physics.findClearedLines board) as [| i rest] eqn:E;
    [reflexivity |].
  assert (Hin : In i (Physics.findClearedLines board))
    by (rewrite E; now left).
  apply findClearedLines_In in Hin as (_ & row & Hk & Hfull).
  rewrite Forall_forall in Hrows.
  rewrite (Hrows row (nth_error_In _ _ Hk)) in Hfull. discriminate.
Qed.

Lemma removeClearedLines_found (board : Board) :
  Physics.removeClearedLines board (Physics.findClearedLines board)
  = (repeat Physics.emptyRow
       (20 - List.length
               (List.filter (fun row => negb (Physics.row_full row)) board))
     ++ List.filter (fun row => negb (Physics.row_full row)) board)%list.
Proof.
  unfold Physics.removeClearedLines.
  rewrite (filter_i_rows (Physics.findClearedLines board) board 0);
    [reflexivity |].
  intros k row Hk. rewrite Z.add_0_l.
  destruct (Physics.row_full row) eqn:Hfull.
  - apply includes_In, findClearedLines_In. split; [lia |].
    exists row. now rewrite Nat2Z.id.
  - destruct (Physics.includes (Physics.findClearedLines board) (Z.of_nat k))
      eqn:Hin; [| reflexivity].
    apply includes_In, findClearedLines_In in Hin as (_ & r & Hr & Hf).
    rewrite Nat2Z.id in Hr. congruence.
Qed.

End ClearedLines.

(** X8: [findClearedLines] returns exactly the indices of the rows with no
    null cell, each once and in ascending order. *)
Theorem findClearedLines_full_rows (board : Board) :
  (forall i,
      In i (Physics.findClearedLines board)
      <-> 0 <= i
          /\ exists row, nth_error board (Z.to_nat i) = Some row
                         /\ Physics.row_full row = true)
  /\ Sorted.StronglySorted Z.lt (Physics.findClearedLines board)
  /\ List.length (Physics.findClearedLines board)
     = List.length (List.filter Physics.row_full board).
Proof.
  split; [apply findClearedLines_In | split].
  - apply collect_sorted.
  - apply collect_length.
Qed.

(** X9: removing the lines that [findClearedLines] reports from a board of
    20 rows puts as many empty rows on top as lines were found, keeps the
    other rows in their order, and leaves a board on which no line is
    found. *)
Theorem removeClearedLines_compacts (board : Board) :
  List.length board = 20%nat ->
  let cleared := Physics.findClearedLines board in
  Physics.removeClearedLines board cleared
  = (repeat Physics.emptyRow (List.length cleared)
     ++ List.filter (fun row => negb (Physics.row_full row)) board)%list
  /\ Physics.findClearedLines (Physics.removeClearedLines board cleared) = [].
Proof.
  intros Hlen cleared. subst cleared. rewrite removeClearedLines_found.
  pose proof (filter_split_length Physics.row_full board) as Hsplit.
  pose proof (collect_length board 0) as Hcount.
  unfold Physics.findClearedLines at 1 2.
  replace (20 - List.length
                  (List.filter (fun row => negb (Physics.row_full row)) board))%nat
    with (List.length (List.filter Physics.row_full board)) by lia.
  rewrite Hcount. split; [reflexivity |].
  apply findClearedLines_none, Forall_app. split.
  - apply Forall_forall. intros row Hrow. apply repeat_spec in Hrow.
    now subst.
  - apply Forall_forall. intros row Hrow. apply filter_In in Hrow as [_ H].
    now apply negb_true_iff.
Qed.

Lemma removeClearedLines_compacts_witness :
  Physics.findClearedLines
    (Physics.removeClearedLines
       (Physics.placePiece Scenario.lastRowOpen Scenario.flatI)
       (Physics.findClearedLines
          (Physics.placePiece Scenario.lastRowOpen Scenario.flatI))) = [].
Proof.
  apply (removeClearedLines_compacts
           (Physics.placePiece Scenario.lastRowOpen Scenario.flatI)).
  reflexivity.
Defined.

(** ** Pieces and their selection *)

Section Spawn.

Lemma createPiece_pose (type : PieceType) (piece : Piece.t) :
  GameState.createPiece (Some type) = Ok piece -> spawnPose piece.
Proof.
  intros H. unfold spawnPose.
  destruct type; apply Ok_inj in H; subst piece; reflexivity.
Qed.

Lemma createPiece_returns (type : PieceType) :
  exists piece, GameState.createPiece (Some type) = Ok piece.
Proof. destruct type; eexists; reflexivity. Qed.

Lemma spawnPose_fits (board : Board) (piece : Piece.t) :
  spawnPose piece -> fitsBoard board piece.
Proof.
  unfold spawnPose, fitsBoard. intros H.
  destruct (Piece.type piece); apply Ok_inj in H; rewrite <- H;
    reflexivity.
Qed.

Lemma spawnPose_above (piece : Piece.t) (dx dy : nat) :
  spawnPose piece -> occupied piece dx dy ->
  Piece.gridY piece + Z.of_nat dy < 0
  /\ 0 <= Piece.gridX piece + Z.of_nat dx < 10.
Proof.
  unfold spawnPose. intros H (row & c & Hrow & Hc & Hocc).
  destruct (Piece.type piece); apply Ok_inj in H; rewrite <- H in *;
    cbn [Piece.shape] in Hrow; cbn [Piece.gridX Piece.gridY];
    repeat (destruct dy as [| dy]; cbn in Hrow; try discriminate);
    injection Hrow as <-;
    repeat (destruct dx as [| dx]; cbn in Hc; try discriminate);
    injection Hc as <-; cbn in Hocc; try discriminate; lia.
Qed.

End Spawn.

(** X10: every piece type has a definition, and the piece [createPiece]
    returns for it is unrotated, lies inside the columns and entirely
    above the board, so [canSpawn] accepts it on every board; the key
    [undefined] throws. *)
Theorem createPiece_spawns_above (type : PieceType) :
  (exists piece,
      GameState.createPiece (Some type) = Ok piece
      /\ Piece.type piece = type
      /\ Piece.rotation piece = 0
      /\ Piece.upMovesUsed piece = 0
      /\ (forall dx dy,
             occupied piece dx dy ->
             Piece.gridY piece + Z.of_nat dy < 0
             /\ 0 <= Piece.gridX piece + Z.of_nat dx < 10)
      /\ forall board, Physics.canSpawn board piece = true)
  /\ GameState.createPiece None = Err UnknownPieceType.
Proof.
  split; [| reflexivity].
  destruct (createPiece_returns type) as [piece H]. exists piece.
  pose proof (createPiece_pose type piece H) as Hpose.
  split; [exact H |].
  repeat split.
  - destruct type; apply Ok_inj in H; now subst piece.
  - destruct type; apply Ok_inj in H; now subst piece.
  - destruct type; apply Ok_inj in H; now subst piece.
  - now apply (spawnPose_above piece dx dy).
  - now apply (spawnPose_above piece dx dy).
  - now apply (spawnPose_above piece dx dy).
  - intros board. now apply spawnPose_fits.
Qed.

Section Skill.

Let nonneg (q : Q) : Prop := 0 <= Qnum q.

Lemma nonneg_Qle (q : Q) : nonneg q <-> (0 <= q)%Q.
Proof. unfold nonneg, Qle. cbn. lia. Qed.

Lemma nonneg_inject (z : Z) : 0 <= z -> nonneg (inject_Z z).
Proof. trivial. Qed.

Lemma nonneg_plus (a b : Q) : nonneg a -> nonneg b -> nonneg (a + b).
Proof. unfold nonneg, Qplus. cbn. nia. Qed.

Lemma nonneg_mult (a b : Q) : nonneg a -> nonneg b -> nonneg (a * b).
Proof. unfold nonneg, Qmult. cbn. nia. Qed.

Lemma nonneg_inv (a : Q) : nonneg a -> nonneg (/ a).
Proof.
  unfold nonneg, Qinv. destruct a as [[| n | n] d]; cbn; lia.
Qed.

Lemma nonneg_div (a b : Q) : nonneg a -> nonneg b -> nonneg (a / b).
Proof. intros Ha Hb. apply nonneg_mult; [exact Ha | now apply nonneg_inv]. Qed.

Lemma nonneg_Qmax (a : Q) : nonneg (GameState.Qmax 1 a).
Proof.
  unfold GameState.Qmax. destruct (Qle_bool 1 a) eqn:E; [| unfold nonneg; cbn; lia].
  apply Qle_bool_iff in E. apply nonneg_Qle.
  apply Qle_trans with (y := 1%Q); [discriminate | exact E].
Qed.

Lemma calculateSkillScore_nonneg (state : State) (now : Z) :
  0 <= lines state -> 0 <= pieces state -> 0 <= combo state ->
  0 <= GameState.calculateSkillScore state now.
Proof.
  intros Hlines Hpieces Hcombo. unfold GameState.calculateSkillScore.
  destruct (startTime state) as [start |]; [| lia].
  destruct (_ || _); [lia |].
  change 0 with (Qfloor 0) at 1. apply Qfloor_resp_le, nonneg_Qle.
  repeat apply nonneg_plus.
  - apply nonneg_inject. lia.
  - apply nonneg_mult; [| now apply nonneg_inject].
    apply nonneg_div; [now apply nonneg_inject | apply nonneg_Qmax].
  - apply nonneg_mult; [| now apply nonneg_inject].
    apply nonneg_div; now apply nonneg_inject.
  - apply nonneg_inject. lia.
Qed.

End Skill.

Section Selection.

Lemma tiers_accumulate (low high : Z) (type : PieceType) :
  low <= high ->
  In type (flat_map snd
             (filter (fun tier : Z * list PieceType => low >=? fst tier)
                GameState.PIECE_PROGRESSION)) ->
  In type (flat_map snd
             (filter (fun tier : Z * list PieceType => high >=? fst tier)
                GameState.PIECE_PROGRESSION)).
Proof.
  intros Hle. rewrite !in_flat_map.
  intros (tier & Htier & Hin). exists tier. split; [| exact Hin].
  apply filter_In in Htier as [Hmem Hskill]. apply filter_In.
  split; [exact Hmem |]. apply Z.geb_le in Hskill. apply Z.geb_le. lia.
Qed.

Lemma available_base (state : State) (now : Z) :
  mode state = GameState.neonDrop ->
  0 <= GameState.calculateSkillScore state now ->
  exists rest,
    GameState.getAvailablePieces state now
    = I_ :: O_ :: T_ :: L_ :: FLOAT :: rest.
Proof.
  intros Hmode Hskill. unfold GameState.getAvailablePieces.
  rewrite Hmode. cbn [GameState.neonDrop Mode.progressive negb].
  unfold GameState.PIECE_PROGRESSION. cbn [filter fst].
  destruct (Z.geb_spec (GameState.calculateSkillScore state now) 0);
    [| lia].
  eexists. cbn [flat_map snd app]. reflexivity.
Qed.

Lemma selectWeightedPiece_returns (rest : list PieceType) (rng : Z) :
  0 <= rng ->
  exists type rng',
    GameState.selectWeightedPiece (I_ :: O_ :: T_ :: L_ :: FLOAT :: rest) rng
    = (Some type, rng')
    /\ In type (I_ :: O_ :: T_ :: L_ :: FLOAT :: rest)
    /\ 0 <= rng' < Random.modulus.
Proof.
  intros Hrng. unfold GameState.selectWeightedPiece.
  cbn [existsb PieceType_eqb orb].
  pose proof (next_state_range rng Hrng) as Hnext.
  destruct (Random.next rng) as [value rng1]. cbn [snd] in Hnext.
  destruct (GameState.below_7_percent value).
  - exists FLOAT, rng1. split; [reflexivity |]. split; [| exact Hnext].
    cbn. tauto.
  - set (weighted := flat_map _ _).
    assert (Hne : weighted <> []) by (subst weighted; cbn; discriminate).
    destruct (choice_some weighted rng1 (proj1 Hnext) Hne) as (a & Ha & Hin).
    pose proof (next_state_range rng1 (proj1 Hnext)) as Hnext'.
    unfold Random.choice in *. destruct (Random.next rng1) as [value' rng2].
    cbn [fst snd] in *. exists a, rng2. rewrite Ha.
    split; [reflexivity |]. split; [| exact Hnext'].
    subst weighted. apply in_flat_map in Hin as (piece & Hpiece & Hrep).
    apply repeat_spec in Hrep. subst a.
    apply filter_In in Hpiece as [Hmem _]. exact Hmem.
Qed.

Lemma getNextPiece_ready (state : State) (now r : Z) :
  mode state = GameState.neonDrop ->
  rng state = Some r -> 0 <= r ->
  0 <= lines state -> 0 <= pieces state -> 0 <= combo state ->
  exists piece rng',
    GameState.getNextPiece state now = Ok (piece, rng')
    /\ spawnPose piece
    /\ In (Piece.type piece) (GameState.getAvailablePieces state now)
    /\ 0 <= rng' < Random.modulus.
Proof.
  intros Hmode Hsome Hrng Hlines Hpieces Hcombo.
  pose proof (calculateSkillScore_nonneg state now Hlines Hpieces Hcombo)
    as Hskill.
  destruct (available_base state now Hmode Hskill) as [rest Havail].
  unfold GameState.getNextPiece. rewrite Hsome, Havail.
  destruct (selectWeightedPiece_returns rest r Hrng)
    as (type & rng' & -> & Hin & Hrange).
  destruct (createPiece_returns type) as [piece Hpiece].
  exists piece, rng'. rewrite Hpiece. cbv beta iota.
  split; [reflexivity |]. split; [now apply (createPiece_pose type) |].
  split; [| exact Hrange].
  replace (Piece.type piece) with type; [exact Hin |].
  destruct type; apply Ok_inj in Hpiece; now subst piece.
Qed.

Lemma getNextPiece_pose (state : State) (now : Z) (piece : Piece.t)
  (rng' : Random.RNG) :
  GameState.getNextPiece state now = Ok (piece, rng') -> spawnPose piece.
Proof.
  unfold GameState.getNextPiece. intros H.
  destruct (rng state) as [rng |]; [| discriminate].
  destruct (GameState.getAvailablePieces state now); [discriminate |].
  destruct (GameState.selectWeightedPiece _ _) as [[type |] rng1];
    [| discriminate].
  destruct (GameState.createPiece (Some type)) as [created |] eqn:Hcreated;
    cbv beta iota in H; [| discriminate].
  apply Ok_inj in H. apply pair_equal_spec in H as [<- _].
  now apply (createPiece_pose type).
Qed.

End Selection.

(** X11: in the mode of the game, with a generator whose state is in
    [0, 2^53] and counters that are not negative, [getNextPiece] does not
    throw: it returns a piece as [createPiece] makes it, of one of the
    kinds available at the skill score, and leaves the generator in a
    32-bit state. *)
Theorem getNextPiece_returns (state : State) (now r : Z) :
  mode state = GameState.neonDrop ->
  rng state = Some r -> 0 <= r <= 2 ^ 53 ->
  0 <= lines state -> 0 <= pieces state -> 0 <= combo state ->
  exists piece rng',
    GameState.getNextPiece state now = Ok (piece, rng')
    /\ GameState.createPiece (Some (Piece.type piece)) = Ok piece
    /\ In (Piece.type piece) (GameState.getAvailablePieces state now)
    /\ 0 <= rng' < 2 ^ 32.
Proof.
  intros Hmode Hsome [Hrng _]. now apply (getNextPiece_ready state now r).
Qed.

Lemma getNextPiece_returns_witness :
  exists piece rng',
    GameState.getNextPiece (Scenario.seeded 3) Scenario.T0 = Ok (piece, rng')
    /\ GameState.createPiece (Some (Piece.type piece)) = Ok piece
    /\ In (Piece.type piece)
         (GameState.getAvailablePieces (Scenario.seeded 3) Scenario.T0)
    /\ 0 <= rng' < 2 ^ 32.
Proof.
  apply (getNextPiece_returns (Scenario.seeded 3) Scenario.T0 3);
    first [reflexivity | cbn; lia].
Defined.

(** X12: the kinds of pieces available grow with the skill score: a kind
    available at a skill score is available at every higher one, the
    five kinds of the first tier are available from the score 0, and all
    eleven from the score 300. *)
Theorem available_pieces_accumulate (state state' : State) (now now' : Z) :
  mode state = GameState.neonDrop -> mode state' = GameState.neonDrop ->
  GameState.calculateSkillScore state now
  <= GameState.calculateSkillScore state' now' ->
  incl (GameState.getAvailablePieces state now)
    (GameState.getAvailablePieces state' now')
  /\ (0 <= GameState.calculateSkillScore state now ->
      incl [I_; O_; T_; L_; FLOAT] (GameState.getAvailablePieces state now))
  /\ (300 <= GameState.calculateSkillScore state now ->
      forall type, In type (GameState.getAvailablePieces state now)).
Proof.
  intros Hmode Hmode' Hle. split; [| split].
  - intros type. unfold GameState.getAvailablePieces.
    rewrite Hmode, Hmode'. cbn [GameState.neonDrop Mode.progressive negb].
    now apply tiers_accumulate.
  - intros Hskill. destruct (available_base state now Hmode Hskill)
      as [rest ->].
    intros type Hin. cbn in Hin |- *. tauto.
  - intros Hskill type. unfold GameState.getAvailablePieces.
    rewrite Hmode. cbn [GameState.neonDrop Mode.progressive negb].
    unfold GameState.PIECE_PROGRESSION. cbn [filter fst].
    repeat match goal with
           | |- context [?a >=? ?b] =>
               destruct (Z.geb_spec a b); [| lia]
           end.
    destruct type; cbn; tauto.
Qed.

Lemma available_pieces_accumulate_witness :
  incl (GameState.getAvailablePieces (Scenario.seeded 3) Scenario.T0)
    (GameState.getAvailablePieces (Scenario.seeded 3) (Scenario.T0 + 500)).
Proof.
  apply (proj1 (available_pieces_accumulate (Scenario.seeded 3)
                  (Scenario.seeded 3) Scenario.T0 (Scenario.T0 + 500)
                  eq_refl eq_refl ltac:(cbn; lia))).
Defined.

(** ** Board statistics and state validation *)

Section BoardStatistics.

Lemma count_row (h : Z) (row : list cell) (j : Z) (acc : Z * Z) :
  forEach_i (fun (acc : Z * Z) c (_ : Z) =>
               if GameState.cellFilled c
               then (fst acc + 1, Z.max (snd acc) h)
               else acc) row j acc
  = (fst acc + Z.of_nat (List.length (filter GameState.cellFilled row)),
     if existsb GameState.cellFilled row then Z.max (snd acc) h
     else snd acc).
Proof.
  revert j acc. induction row as [| c row IH]; intros j [filled height].
  - cbn. now rewrite Z.add_0_r.
  - cbn [forEach_i filter existsb]. rewrite IH.
    destruct (GameState.cellFilled c); cbn [fst snd orb List.length].
    + f_equal; [lia |]. destruct (existsb _ row); lia.
    + reflexivity.
Qed.

Lemma count_rows (total : Z) (rows : Board) (y : Z) (acc : Z * Z) :
  forEach_i (fun (acc : Z * Z) row y =>
               forEach_i (fun (acc : Z * Z) c (_ : Z) =>
                            if GameState.cellFilled c
                            then (fst acc + 1, Z.max (snd acc) (total - y))
                            else acc) row 0 acc) rows y acc
  = (fst acc
     + Z.of_nat (List.length (filter GameState.cellFilled (List.concat rows))),
     match firstFilledRow rows with
     | Some k => Z.max (snd acc) (total - y - Z.of_nat k)
     | None => snd acc
     end).
Proof.
  revert y acc. induction rows as [| row rows IH]; intros y [filled height].
  - cbn. now rewrite Z.add_0_r.
  - cbn [forEach_i List.concat firstFilledRow]. rewrite count_row, IH.
    cbn [fst snd]. rewrite filter_app, length_app.
    f_equal; [lia |].
    destruct (existsb GameState.cellFilled row);
      destruct (firstFilledRow rows) as [k |]; cbn [option_map]; lia.
Qed.

Lemma firstFilledRow_bound (board : Board) (y : nat) :
  firstFilledRow board = Some y ->
  (y < List.length board)%nat
  /\ (exists row, nth_error board y = Some row
                  /\ existsb GameState.cellFilled row = true)
  /\ forall k row, (k < y)%nat -> nth_error board k = Some row ->
                   existsb GameState.cellFilled row = false.
Proof.
  revert y. induction board as [| row board IH]; intros y H; cbn in H;
    [discriminate |].
  destruct (existsb GameState.cellFilled row) eqn:Hrow.
  - injection H as <-. cbn. split; [lia |]. split; [now exists row |].
    intros k r Hk. lia.
  - destruct (firstFilledRow board) as [k |]; [| discriminate].
    injection H as <-. destruct (IH k eq_refl) as (Hlt & Hrow' & Hbefore).
    cbn. split; [lia |]. split; [exact Hrow' |].
    intros [| j] r Hj Hr; cbn in Hr.
    + now injection Hr as <-.
    + apply (Hbefore j); [lia | exact Hr].
Qed.

End BoardStatistics.

(** X13: on a board with at least one row [getBoardStats] counts the
    filled cells of all rows, and reports as the height the number of
    rows from the first row that holds a filled cell to the last row, 0
    on a board without filled cells; on a 20 x 10 board the count is at
    most 200, the height at most 20, and the density is the count over
    200.  On a board without rows it throws. *)
Theorem getBoardStats_counts (board : Board) :
  board <> [] ->
  (exists stats,
      GameState.getBoardStats board = Ok stats
      /\ BoardStats.filledCells stats
         = Z.of_nat (List.length
                       (filter GameState.cellFilled (List.concat board)))
      /\ BoardStats.maxHeight stats
         = match firstFilledRow board with
           | Some y => Z.of_nat (List.length board) - Z.of_nat y
           | None => 0
           end
      /\ (wf_board board ->
          0 <= BoardStats.filledCells stats <= 200
          /\ 0 <= BoardStats.maxHeight stats <= 20
          /\ BoardStats.density stats
             = Some (inject_Z (BoardStats.filledCells stats) / inject_Z 200)%Q))
  /\ GameState.getBoardStats [] = Err (TypeError "board[0] is undefined").
Proof.
  intros Hne. split; [| reflexivity].
  destruct board as [| row0 rest]; [congruence |].
  unfold GameState.getBoardStats.
  remember (row0 :: rest) as board eqn:Eboard.
  unfold GameState.countCells. rewrite count_rows. cbn [fst snd].
  eexists. split; [reflexivity |]. cbn [BoardStats.filledCells
    BoardStats.maxHeight BoardStats.density].
  assert (Hheight :
    match firstFilledRow board with
    | Some k => Z.max 0 (Z.of_nat (List.length board) - 0 - Z.of_nat k)
    | None => 0
    end
    = match firstFilledRow board with
      | Some y => Z.of_nat (List.length board) - Z.of_nat y
      | None => 0
      end).
  { destruct (firstFilledRow board) as [k |] eqn:Efirst; [| reflexivity].
    apply firstFilledRow_bound in Efirst as [Hlt _]. lia. }
  split; [lia |]. split; [exact Hheight |].
  intros [Hlen Hrows].
  assert (Hcells : List.length (List.concat board) = 200%nat).
  { assert (Hgen : List.length (List.concat board)
                   = (10 * List.length board)%nat).
    { clear - Hrows.
      induction Hrows as [| row rows Hrow _ IH]; [reflexivity |].
      cbn [List.concat List.length]. rewrite length_app, Hrow, IH. lia. }
    rewrite Hgen, Hlen. reflexivity. }
  pose proof (filter_length_le GameState.cellFilled (List.concat board)) as Hle.
  split; [lia |]. split.
  - rewrite Hheight. destruct (firstFilledRow board); lia.
  - assert (Hrow0 : List.length row0 = 10%nat).
    { rewrite Eboard in Hrows. now apply Forall_cons_iff in Hrows. }
    rewrite Hlen, Hrow0. reflexivity.
Qed.

Lemma getBoardStats_counts_witness :
  exists stats,
    GameState.getBoardStats Scenario.pocket = Ok stats
    /\ BoardStats.filledCells stats = 11
    /\ BoardStats.maxHeight stats = 4.
Proof.
  destruct (proj1 (getBoardStats_counts Scenario.pocket
                     ltac:(discriminate))) as (stats & H & Hf & Hm & _).
  exists stats. split; [exact H |]. split; [exact Hf | exact Hm].
Defined.

(** ** The ledger, the snapshots and the replay *)

Section LedgerGrowth.

Lemma ledgerPoints_app (l1 l2 : list ScoreEvent.t) :
  ledgerPoints (l1 ++ l2) = ledgerPoints l1 + ledgerPoints l2.
Proof.
  unfold ledgerPoints. induction l1 as [| e l1 IH]; cbn; [reflexivity |].
  fold ledgerPoints in *. rewrite IH. lia.
Qed.

(** [this'] is [this] with [n] more events worth [points], and validates
    if [this] did. *)
Let grown (this this' : ScoringEngine) (points : Z) (n : nat) : Prop :=
  exists events,
    scoreLedger this' = (scoreLedger this ++ events)%list
    /\ ledgerPoints events = points
    /\ List.length events = n
    /\ (Scoring.validateScoreLedger this = true ->
        Scoring.validateScoreLedger this' = true).

Lemma grown_refl (this : ScoringEngine) : grown this this 0 0.
Proof. exists []. rewrite app_nil_r. repeat split. trivial. Qed.

Lemma grown_stats (this this' : ScoringEngine) (points : Z) (n : nat)
  (stats' : Stats.t) :
  grown this this' points n -> grown this (set_stats stats' this') points n.
Proof. intros H. exact H. Qed.

Lemma grown_add (this this' : ScoringEngine) (points : Z) (n : nat)
  (type : ScoreEventType) (bonus : Z) (metadata : Metadata) (now : Z) :
  grown this this' points n ->
  grown this (Scoring.addScoreEvent this' type bonus metadata now)
    (points + bonus) (S n).
Proof.
  intros (events & Hledger & Hpoints & Hlen & Hvalid).
  destruct (last_event_addScoreEvent this' type bonus metadata now
              (stats (Scoring.addScoreEvent this' type bonus metadata now)))
    as (prefix & event & Hlast & _ & Hbonus).
  assert (Hprefix : prefix = scoreLedger this').
  { unfold Scoring.addScoreEvent in Hlast.
    cbn [scoreLedger set_stats set_scoreLedger] in Hlast.
    now apply app_inj_tail in Hlast as [<- _]. }
  subst prefix. cbn [scoreLedger set_stats] in Hlast.
  exists (events ++ [event])%list. split; [| split; [| split]].
  - rewrite Hlast, Hledger. now rewrite app_assoc.
  - rewrite ledgerPoints_app, Hpoints. cbn. lia.
  - rewrite length_app, Hlen. cbn. lia.
  - intros Hv. now apply validate_addScoreEvent, Hvalid.
Qed.

Lemma scoreLineClears_grown (this this' : ScoringEngine) (state : State)
  (linesCleared : Z) (lastMove : option LastMove.t) (now points : Z) :
  Scoring.scoreLineClears this state linesCleared lastMove now
  = Ok (points, this') ->
  exists n, grown this this' points n /\ (1 <= n <= 4)%nat.
Proof.
  intros H. unfold Scoring.scoreLineClears in H.
  unfold_ok H; apply pair_equal_spec in H as [<- <-];
    eexists; (split; [| shelve]);
    match goal with
    | |- grown _ ?x ?pts _ =>
        let Hg := fresh "Hg" in
        eassert (Hg : grown this x _ _)
          by (repeat lazymatch goal with
                     | |- grown _ (set_stats _ _) _ _ => apply grown_stats
                     | |- grown _ (Scoring.addScoreEvent _ _ _ _ _) _ _ =>
                         apply grown_add
                     | |- grown _ _ _ _ => apply grown_refl
                     end);
        destruct Hg as (events & Hledger & Hpoints & Hlen & Hvalid);
        exists events; split; [exact Hledger |];
        split; [rewrite Hpoints; lia |];
        split; [exact Hlen | exact Hvalid]
    end.
  Unshelve. all: lia.
Qed.

Lemma scoreLineClears_accounts (this this' : ScoringEngine) (state : State)
  (linesCleared : Z) (lastMove : option LastMove.t) (now points : Z) :
  Scoring.scoreLineClears this state linesCleared lastMove now
  = Ok (points, this') ->
  exists events,
    scoreLedger this' = (scoreLedger this ++ events)%list
    /\ ledgerPoints events = points
    /\ (1 <= List.length events <= 4)%nat
    /\ (Scoring.validateScoreLedger this = true ->
        Scoring.validateScoreLedger this' = true).
Proof.
  intros H. apply scoreLineClears_grown in H as (n & Hg & Hn).
  destruct Hg as (events & Hledger & Hpoints & Hlen & Hvalid).
  exists events. rewrite Hlen. auto.
Qed.

Lemma scoreDrop_accounts (this : ScoringEngine) (type : ScoreEventType)
  (points : Z) (metadata : Metadata) (now : Z) :
  exists event,
    scoreLedger (Scoring.addScoreEvent this type points metadata now)
    = (scoreLedger this ++ [event])%list
    /\ ScoreEvent.points event = points
    /\ ScoreEvent.type event = type.
Proof.
  unfold Scoring.addScoreEvent. cbn [scoreLedger set_scoreLedger].
  eexists. split; [reflexivity |]. split; reflexivity.
Qed.

End LedgerGrowth.

(** X14: a call of [scoreLineClears] that returns a score only appends to
    the ledger, between one and four events; the points of the appended
    events add up to the score it returns, and a ledger that validated
    before the call validates after it. *)
Theorem scoreLineClears_ledger (this this' : ScoringEngine) (state : State)
  (linesCleared : Z) (lastMove : option LastMove.t) (now points : Z) :
  Scoring.scoreLineClears this state linesCleared lastMove now
  = Ok (points, this') ->
  exists events,
    scoreLedger this' = (scoreLedger this ++ events)%list
    /\ ledgerPoints events = points
    /\ (1 <= List.length events <= 4)%nat
    /\ (Scoring.validateScoreLedger this = true ->
        Scoring.validateScoreLedger this' = true).
Proof. apply scoreLineClears_accounts. Qed.


Lemma scoreLineClears_ledger_witness :
  exists points this' events,
    Scoring.scoreLineClears Scoring.new (GameState.createInitialState 0) 1
      None Scenario.T0 = Ok (points, this')
    /\ scoreLedger this' = (scoreLedger Scoring.new ++ events)%list
    /\ ledgerPoints events = points.
Proof.
  do 2 eexists.
  match goal with
  | |- exists events, ?E /\ _ => assert (H : E) by (vm_compute; reflexivity)
  end.
  destruct (scoreLineClears_ledger _ _ _ _ _ _ _ H) as (events & H1 & H2 & _).
  exists events. split; [exact H |]. split; [exact H1 | exact H2].
Defined.

Section Truncation.

Lemma validate_from_prefix (l1 l2 : list ScoreEvent.t) (prevHash : string) :
  Scoring.validate_from (l1 ++ l2) prevHash = true ->
  Scoring.validate_from l1 prevHash = true.
Proof.
  rewrite validate_from_app. intros H. now apply andb_true_iff in H.
Qed.

End Truncation.

(** X15: a ledger that validates still validates after any number of its
    last events is dropped: validation checks the chain from the first
    event on and nothing ties it to the last. *)
Theorem truncated_ledger_validates (this : ScoringEngine) (n : nat) :
  Scoring.validateScoreLedger this = true ->
  Scoring.validateScoreLedger
    (set_scoreLedger (firstn n (scoreLedger this)) this) = true.
Proof.
  unfold Scoring.validateScoreLedger. cbn [scoreLedger set_scoreLedger].
  intros H. rewrite <- (firstn_skipn n (scoreLedger this)) in H.
  now apply validate_from_prefix in H.
Qed.

Lemma truncated_ledger_validates_witness :
  Scoring.validateScoreLedger
    (set_scoreLedger (firstn 0 (scoreLedger Scenario.oneClear))
       Scenario.oneClear) = true.
Proof.
  apply (truncated_ledger_validates Scenario.oneClear 0).
  vm_compute. reflexivity.
Defined.

Section Hash.

Lemma to_int32_range (z : Z) : - 2 ^ 31 <= Scoring.to_int32 z < 2 ^ 31.
Proof.
  unfold Scoring.to_int32.
  pose proof (Z.mod_pos_bound (z + 2 ^ 31) (2 ^ 32) ltac:(lia)). lia.
Qed.

Lemma hash_loop_range (str : string) (hash : Z) :
  - 2 ^ 31 <= hash < 2 ^ 31 ->
  - 2 ^ 31 <= Scoring.hash_loop str hash < 2 ^ 31.
Proof.
  revert hash. induction str as [| char rest IH]; intros hash Hhash; cbn.
  - exact Hhash.
  - apply IH. unfold Scoring.hash_step. apply to_int32_range.
Qed.

End Hash.

(** X16: [simpleHash] prints a number between 0 and 2^31: the hash of any
    text is one of 2^31 + 1 values. *)
Theorem simpleHash_range (str : string) :
  exists n,
    Scoring.simpleHash str = Scoring.to_hex n /\ 0 <= n <= 2 ^ 31.
Proof.
  exists (Z.abs (Scoring.hash_loop str 0)). split; [reflexivity |].
  pose proof (hash_loop_range str 0 ltac:(lia)). lia.
Qed.

Section Snapshots.

Lemma snapshots_from_sorted (snapshots : list Snapshot.t)
  (prevFrame prevScore : Z) :
  Scoring.snapshots_from snapshots prevFrame prevScore = true
  <-> Sorted.StronglySorted snapshotOrder snapshots
      /\ Forall (fun snapshot => prevFrame < Snapshot.frame snapshot
                                 /\ prevScore <= Snapshot.score snapshot)
           snapshots.
Proof.
  revert prevFrame prevScore.
  induction snapshots as [| s rest IH]; intros prevFrame prevScore; cbn.
  - split; [| reflexivity]. intros _. split; constructor.
  - destruct (Z.leb_spec (Snapshot.frame s) prevFrame) as [Hf | Hf].
    { split; [discriminate |]. intros [_ H].
      apply Forall_cons_iff in H as [[H _] _]. lia. }
    destruct (Z.ltb_spec (Snapshot.score s) prevScore) as [Hs | Hs].
    { split; [discriminate |]. intros [_ H].
      apply Forall_cons_iff in H as [[_ H] _]. lia. }
    rewrite IH. split.
    + intros [Hsorted Hall]. split.
      * constructor; [exact Hsorted |]. exact Hall.
      * constructor; [lia |].
        eapply Forall_impl; [| exact Hall]. cbn. intros a. lia.
    + intros [Hsorted Hall]. apply Sorted.StronglySorted_inv in Hsorted.
      destruct Hsorted as [Hsorted Hhead]. split; [exact Hsorted |].
      exact Hhead.
Qed.

End Snapshots.

(** X17: [validateSnapshots] accepts exactly the lists in which, between
    any two snapshots, the frame strictly increases and the score does
    not decrease, and in which no frame is negative and no score is below
    -1. *)
Theorem validateSnapshots_sorted (stateSnapshots : list Snapshot.t) :
  Scoring.validateSnapshots stateSnapshots = true
  <-> Sorted.StronglySorted snapshotOrder stateSnapshots
      /\ Forall (fun snapshot => 0 <= Snapshot.frame snapshot
                                 /\ -1 <= Snapshot.score snapshot)
           stateSnapshots.
Proof.
  unfold Scoring.validateSnapshots. rewrite snapshots_from_sorted.
  split; intros [Hsorted Hall]; (split; [exact Hsorted |]);
    (eapply Forall_impl; [| exact Hall]); cbn; intros a; lia.
Qed.

Section RunLengths.

Let differ (a b : CompressedInput.t) : Prop :=
  CompressedInput.key a <> CompressedInput.key b.

Let run (key : string) (count : Z) (frame : option Z) : CompressedInput.t :=
  {| CompressedInput.key := key;
     CompressedInput.count := count;
     CompressedInput.frame := frame |}.

Lemma append_nonempty (a b : string) (c : ascii) :
  String.eqb (a ++ String c b) EmptyString = false.
Proof. destruct a; reflexivity. Qed.

Lemma input_key_truthy (input : ReplayInput.t) :
  Scoring.current_truthy (Some (Scoring.input_key input)) = true.
Proof.
  unfold Scoring.current_truthy, Scoring.input_key.
  change ("|" ++ Scoring.action_dx (ReplayInput.action input)
          ++ "|" ++ Scoring.action_dy (ReplayInput.action input))%string
    with (String "|" (Scoring.action_dx (ReplayInput.action input)
                      ++ "|" ++ Scoring.action_dy (ReplayInput.action input))).
  now rewrite append_nonempty.
Qed.

Lemma expandRuns_app (l1 l2 : list CompressedInput.t) :
  expandRuns (l1 ++ l2) = (expandRuns l1 ++ expandRuns l2)%list.
Proof. unfold expandRuns. apply flat_map_app. Qed.

Lemma repeat_succ (key : string) (count : Z) :
  0 <= count ->
  repeat key (Z.to_nat (count + 1)) = (repeat key (Z.to_nat count) ++ [key])%list.
Proof.
  intros H. replace (Z.to_nat (count + 1)) with (Z.to_nat count + 1)%nat by lia.
  now rewrite repeat_app.
Qed.

Lemma Sorted_snoc (l : list CompressedInput.t) (a b : CompressedInput.t) :
  Sorted.Sorted differ (l ++ [a]) -> differ a b ->
  Sorted.Sorted differ ((l ++ [a]) ++ [b]).
Proof.
  intros Hsorted Hab. induction l as [| x l IH]; cbn in *.
  - repeat constructor. exact Hab.
  - apply Sorted.Sorted_inv in Hsorted as [Hrest Hhd].
    constructor; [now apply IH |].
    destruct l as [| y l]; cbn in *; constructor;
      now apply Sorted.HdRel_inv in Hhd.
Qed.

(** The loop from inside a run of [count] inputs with the key of
    [input]. *)
Lemma compress_loop_runs (inputs : list ReplayInput.t)
  (input : ReplayInput.t) (count : Z)
  (compressedInputs : list CompressedInput.t) :
  1 <= count ->
  Forall (fun r => 1 <= CompressedInput.count r) compressedInputs ->
  (forall count' frame,
      Sorted.Sorted differ
        (compressedInputs
         ++ [run (Scoring.input_key input) count' frame])) ->
  let result :=
    Scoring.compress_loop inputs (Some (Scoring.input_key input)) count
      compressedInputs in
  expandRuns result
  = (expandRuns compressedInputs
     ++ repeat (Scoring.input_key input) (Z.to_nat count)
     ++ List.map Scoring.input_key inputs)%list
  /\ Forall (fun r => 1 <= CompressedInput.count r) result
  /\ Sorted.Sorted differ result
  /\ exists init last,
       result = (compressedInputs ++ init ++ [last])%list
       /\ CompressedInput.frame last = None
       /\ Forall (fun r => CompressedInput.frame r <> None) init.
Proof.
  revert input count compressedInputs.
  induction inputs as [| next rest IH];
    intros input count compressedInputs Hcount Hcounts Hsorted; cbn zeta.
  - cbn [Scoring.compress_loop]. rewrite input_key_truthy.
    split; [| split; [| split]].
    + rewrite expandRuns_app. cbn. now rewrite !app_nil_r.
    + apply Forall_app. split; [exact Hcounts |]. now repeat constructor.
    + apply Hsorted.
    + exists [], (run (Scoring.input_key input) count None).
      repeat split. constructor.
  - cbn [Scoring.compress_loop].
    destruct (String.eqb_spec (Scoring.input_key next)
                (Scoring.input_key input)) as [Hsame | Hdiff].
    + destruct (IH input (count + 1) compressedInputs) as (He & Hc & Hs & Hl);
        [lia | exact Hcounts | exact Hsorted |].
      split; [| split; [| split]]; try assumption.
      rewrite He. f_equal. rewrite repeat_succ by lia.
      rewrite <- app_assoc. cbn. now rewrite Hsame.
    + rewrite input_key_truthy.
      set (entry := {| CompressedInput.key := Scoring.input_key input;
                       CompressedInput.count := count;
                       CompressedInput.frame :=
                         Some (ReplayInput.frame next - count) |}).
      destruct (IH next 1 (compressedInputs ++ [entry])%list)
        as (He & Hc & Hs & Hl).
      * lia.
      * apply Forall_app. split; [exact Hcounts |]. now repeat constructor.
      * intros count' frame. apply Sorted_snoc; [apply Hsorted |].
        unfold differ. cbn. congruence.
      * split; [| split; [| split]]; try assumption.
        -- rewrite He, expandRuns_app. cbn. rewrite app_nil_r.
           now rewrite <- app_assoc.
        -- destruct Hl as (init & last & Hresult & Hlast & Hinit).
           exists (entry :: init), last. split; [| split].
           ++ rewrite Hresult. now rewrite <- app_assoc.
           ++ exact Hlast.
           ++ constructor; [discriminate | exact Hinit].
Qed.

Lemma compressReplay_cons (input : ReplayInput.t)
  (rest : list ReplayInput.t) :
  Scoring.compressReplay (input :: rest)
  = Scoring.compress_loop rest (Some (Scoring.input_key input)) 1 [].
Proof. reflexivity. Qed.

Lemma compressReplay_runs (inputs : list ReplayInput.t) :
  expandRuns (Scoring.compressReplay inputs)
  = List.map Scoring.input_key inputs
  /\ Forall (fun r => 1 <= CompressedInput.count r)
       (Scoring.compressReplay inputs)
  /\ Sorted.Sorted differ (Scoring.compressReplay inputs)
  /\ (inputs <> [] ->
      exists init last,
        Scoring.compressReplay inputs = (init ++ [last])%list
        /\ CompressedInput.frame last = None
        /\ Forall (fun r => CompressedInput.frame r <> None) init).
Proof.
  destruct inputs as [| input rest].
  - repeat split; try constructor. congruence.
  - rewrite compressReplay_cons.
    destruct (compress_loop_runs rest input 1 []) as (He & Hc & Hs & Hl);
      [lia | constructor | intros; repeat constructor |].
    repeat split; try assumption. intros _. exact Hl.
Qed.

End RunLengths.

(** X18: [compressReplay] is a run-length encoding of the keys of the
    inputs: expanding every run to [count] copies of its key gives back
    the keys in order, every count is at least 1, neighbouring runs have
    different keys, and of a non-empty input list only the last run is
    pushed without a frame. *)
Theorem compressReplay_run_lengths (inputs : list ReplayInput.t) :
  expandRuns (Scoring.compressReplay inputs)
  = List.map Scoring.input_key inputs
  /\ Forall (fun r => 1 <= CompressedInput.count r)
       (Scoring.compressReplay inputs)
  /\ Sorted.Sorted
       (fun a b => CompressedInput.key a <> CompressedInput.key b)
       (Scoring.compressReplay inputs)
  /\ (inputs <> [] ->
      exists init last,
        Scoring.compressReplay inputs = (init ++ [last])%list
        /\ CompressedInput.frame last = None
        /\ Forall (fun r => CompressedInput.frame r <> None) init).
Proof. apply compressReplay_runs. Qed.

Section Directions.

Lemma sameButDirection_key (a b : ReplayInput.t) :
  sameButDirection a b -> Scoring.input_key a = Scoring.input_key b.
Proof.
  unfold sameButDirection, Scoring.input_key. intros [_ H].
  destruct (ReplayInput.action a), (ReplayInput.action b);
    try discriminate; try reflexivity;
    injection H; intros; subst; reflexivity.
Qed.

Lemma compress_loop_directions (inputs inputs' : list ReplayInput.t)
  (current : option string) (count : Z)
  (compressedInputs : list CompressedInput.t) :
  Forall2 sameButDirection inputs inputs' ->
  Scoring.compress_loop inputs current count compressedInputs
  = Scoring.compress_loop inputs' current count compressedInputs.
Proof.
  intros H. revert current count compressedInputs.
  induction H as [| a b l l' Hab _ IH]; intros current count compressedInputs;
    [reflexivity |].
  cbn [Scoring.compress_loop].
  rewrite (sameButDirection_key a b Hab). destruct Hab as [-> _].
  destruct current as [key' |]; [destruct (String.eqb _ key') |];
    now rewrite IH.
Qed.

End Directions.

(** X19: the compressed replay does not record the direction of a
    rotation: two input lists that differ only in the directions of their
    rotations and in their time stamps compress to the same runs. *)
Theorem compressReplay_drops_direction (inputs inputs' : list ReplayInput.t) :
  Forall2 sameButDirection inputs inputs' ->
  Scoring.compressReplay inputs = Scoring.compressReplay inputs'.
Proof. apply compress_loop_directions. Qed.

Lemma compressReplay_drops_direction_witness :
  Scoring.compressReplay
    [{| ReplayInput.frame := 7; ReplayInput.action := Action.ROTATE 1;
        ReplayInput.timestamp := 120 |}]
  = Scoring.compressReplay
      [{| ReplayInput.frame := 7; ReplayInput.action := Action.ROTATE (-1);
          ReplayInput.timestamp := 125 |}].
Proof.
  apply compressReplay_drops_direction.
  constructor; [| constructor]. split; [reflexivity | exact I].
Defined.

(** ** Invariants of a session *)

Section Play.

Ltac core_intro H :=
  destruct H as (Hmode & Hnext & Hhold & Hlevel & Hlines & Hcombo & Hpieces
                 & Hscore & Hledger).

Ltac core_split :=
  unfold playCore, ledgerAccounts; state_simpl;
  (split; [| split; [| split; [| split; [| split; [| split; [| split;
    [| split]]]]]]]).

Ltac play_split :=
  unfold playInvariant, equipped, toppedOut; state_simpl;
  (split; [| split; [| split]]).

Lemma ledgerAccounts_add (state : State) (engine : ScoringEngine)
  (type : ScoreEventType) (points : Z) (metadata : Metadata) (now : Z) :
  ledgerAccounts state engine ->
  ledgerAccounts (set_score (score state + points) state)
    (Scoring.addScoreEvent engine type points metadata now).
Proof.
  intros [Hvalid Hsum]. split.
  - now apply validate_addScoreEvent.
  - destruct (scoreDrop_accounts engine type points metadata now)
      as (event & -> & Hpoints & _).
    rewrite ledgerPoints_app. state_simpl. rewrite Hsum. cbn. lia.
Qed.

Lemma gameOver_play (state : State) :
  playCore state ->
  (exists piece, deathPiece state = Some piece /\ Piece.gridY piece < 0) ->
  playInvariant (Engine.gameOver state).
Proof.
  intros Hcore Hdeath. core_intro Hcore. unfold Engine.gameOver.
  destruct (scoringEngine state) as [engine |] eqn:Eengine;
    play_split; try exact I; try discriminate;
    try (intros _; exact Hdeath);
    core_split; try assumption; try exact I;
    first [ rewrite Eengine; exact I | cbn [whenSome] in *; exact Hledger ].
Qed.

Lemma spawned_fits (board : Board) (piece : Piece.t) (generation : Z) :
  spawnPose piece ->
  Physics.canSpawn board
    (Piece.set_upMovesUsed 0
       (Piece.set_generation (Some generation) piece)) = true.
Proof. intros H. exact (spawnPose_fits board piece H). Qed.

Lemma spawnNextPiece_play (state state' : State) (now : Z) :
  playCore state -> equipped state -> inPlay (phase state) = true ->
  Engine.spawnNextPiece state now = Ok state' -> playInvariant state'.
Proof.
  intros Hcore Hequip Hphase H. core_intro Hcore.
  destruct (Hequip Hphase) as (_ & Hrng & Hengine).
  unfold Engine.spawnNextPiece in H.
  destruct (phase state) eqn:Ephase; try discriminate;
    (destruct (next state) as [piece |] eqn:Enext; [| discriminate]);
    cbn [whenSome] in Hnext;
    rewrite (spawned_fits (board state) piece (generation state + 1) Hnext)
      in H;
    cbv beta iota in H; cbn [negb] in H;
    (destruct (GameState.getNextPiece state now) as [[nextPiece rng'] |]
       eqn:Enew; cbv beta iota in H; [| discriminate]);
    apply Ok_inj in H; subst state';
    apply getNextPiece_pose in Enew;
    (play_split;
     [ core_split; try assumption; try lia
     | exact (spawned_fits (board state) piece (generation state + 1) Hnext)
     | intros _; repeat split; try discriminate; assumption
     | discriminate ]).
Qed.

Lemma lockPiece_play (state state' : State) (now : Z) :
  playCore state -> equipped state -> inPlay (phase state) = true ->
  Engine.lockPiece state now = Ok state' -> playInvariant state'.
Proof.
  intros Hcore Hequip Hphase H.
  pose proof Hcore as Hcore'. core_intro Hcore'.
  unfold Engine.lockPiece, Engine.current_piece in H.
  destruct (current state) as [piece |]; cbv beta iota in H; [| discriminate].
  destruct (Z.ltb_spec (Piece.gridY piece) 0) as [Habove | Hon].
  - apply Ok_inj in H. subst state'. apply gameOver_play.
    + exact Hcore.
    + exists piece. now split.
  - destruct (Physics.findClearedLines _) as [| line rest].
    + apply spawnNextPiece_play in H; [exact H | | |].
      * destruct (scoringEngine state) as [engine |] eqn:Eengine;
          core_split; try assumption; try lia.
        rewrite Eengine. exact I.
      * destruct (scoringEngine state) as [engine |]; [| exact Hequip].
        intros Hp. destruct (Hequip Hp) as (Hn & Hr & _).
        repeat split; try assumption. discriminate.
      * destruct (scoringEngine state); exact Hphase.
    + apply Ok_inj in H. subst state'.
      destruct (Hequip Hphase) as (Hn & Hr & He).
      destruct (scoringEngine state) as [engine |]; [| congruence].
      play_split.
      * core_split; assumption.
      * exact I.
      * intros _. repeat split; try assumption. discriminate.
      * discriminate.
Qed.

Lemma finishClearing_play (state state' : State) (now : Z) :
  playCore state -> equipped state -> inPlay (phase state) = true ->
  Engine.finishClearing state now = Ok state' -> playInvariant state'.
Proof.
  intros Hcore Hequip Hphase H. core_intro Hcore.
  destruct (Hequip Hphase) as (Hn & Hr & He).
  unfold Engine.finishClearing in H.
  pose proof (Nat2Z.is_nonneg (List.length (clearingLines state))) as Hcount.
  destruct (scoringEngine state) as [engine |] eqn:Eengine; [| congruence].
  destruct (Scoring.scoreLineClears _ _ _ _ _) as [[points engine'] |] eqn:E;
    cbv beta iota in H; [| discriminate].
  assert (Hlevel' : 0 <= level state)
    by (rewrite Hlevel; pose proof (Z.div_pos (lines state) 10); lia).
  pose proof (scoreLineClears_nonneg _ _ _ _ _ _ _ Hlevel' Hcombo E)
    as Hpoints.
  apply scoreLineClears_accounts in E
    as (events & Hevents & Hsum & _ & Hvalid).
  apply spawnNextPiece_play in H; [exact H | | |].
  - core_split; try assumption; try lia.
    + destruct (0 <? _); lia.
    + cbn [whenSome] in *. destruct Hledger as [Hv Hs]. split.
      * now apply Hvalid.
      * rewrite Hevents, ledgerPoints_app, Hsum. lia.
  - intros _. state_simpl. repeat split; try assumption. discriminate.
  - exact Hphase.
Qed.

Lemma active_inPlay (phase : Phase) :
  fallingOrLocking phase = true -> inPlay phase = true.
Proof. now destruct phase. Qed.

Lemma executeMove_play (state state' : State) (piece : Piece.t)
  (newX newY dx dy now : Z) :
  playInvariant state ->
  fallingOrLocking (phase state) = true ->
  current state = Some piece ->
  Physics.canPieceFitAt (board state) piece newX newY = true ->
  Engine.executeMove state newX newY dx dy now = Ok state' ->
  playInvariant state'.
Proof.
  intros (Hcore & _ & Hequip & _) Hphase Hcur Hfit H. core_intro Hcore.
  destruct (Hequip (active_inPlay _ Hphase)) as (Hn & Hr & He).
  unfold Engine.executeMove, Engine.current_piece in H.
  rewrite Hcur in H. unfold Scoring.scoreSoftDrop in H.
  cbv beta iota zeta in H.
  destruct (scoringEngine state) as [engine |] eqn:Eengine; [| congruence].
  cbn [whenSome] in Hledger.
  assert (Hmoved : forall p,
    p = Piece.set_gridY newY (Piece.set_gridX newX piece)
    \/ p = Piece.set_upMovesUsed (Piece.upMovesUsed piece + 1)
             (Piece.set_gridY newY (Piece.set_gridX newX piece)) ->
    fitsBoard (board state) p)
    by (intros p [-> | ->]; exact Hfit).
  destruct (Engine.isFloat piece && (dy <? 0));
    destruct (negb (dy =? 0));
    destruct (phase state) eqn:Ephase; try discriminate;
    unfold_ok H; subst state';
    (play_split;
     [ core_split; try assumption;
       repeat match goal with
              | Hb : (0 <? _) = true |- _ => apply Z.ltb_lt in Hb
              end;
       try lia;
       first [ rewrite Eengine; exact Hledger
             | apply (ledgerAccounts_add state engine); exact Hledger
             | idtac ]
     | apply Hmoved; auto
     | intros _; repeat split;
       first [assumption | rewrite ?Eengine; discriminate]
     | rewrite ?Ephase; discriminate ]).
Qed.

Lemma lastMove_play (state : State) (lastMove' : option LastMove.t) :
  playInvariant state -> playInvariant (set_lastMove lastMove' state).
Proof. intros H. exact H. Qed.

Lemma move_play (state state' : State) (dx dy now : Z) :
  playInvariant state ->
  fallingOrLocking (phase state) = true ->
  Engine.move state dx dy now = Ok state' -> playInvariant state'.
Proof.
  unfold Engine.move, Engine.current_piece. intros Hinv Hphase H.
  destruct (current state) as [piece |] eqn:Hcur; cbv beta iota in H;
    [| discriminate].
  destruct (Physics.canPieceFitAt _ _ _ _) eqn:Hfit.
  - now apply (executeMove_play state state' piece) in H.
  - match type of H with
    | (if ?b then _ else _) = _ => destruct b eqn:Hdrift
    end.
    + apply (executeMove_play state state' piece) in H; try assumption.
      now apply andb_true_iff in Hdrift.
    + apply Ok_inj in H. subst state'. now apply lastMove_play.
Qed.

Lemma rotate_play (state state' : State) (direction : Z) :
  playInvariant state ->
  fallingOrLocking (phase state) = true ->
  Engine.rotate state direction = Ok state' -> playInvariant state'.
Proof.
  unfold Engine.rotate, Engine.current_piece.
  intros Hinv Hphase H. pose proof Hinv as (Hcore & _ & Hequip & _).
  destruct (Hequip (active_inPlay _ Hphase)) as (Hn & Hr & He).
  destruct (current state) as [piece |]; cbv beta iota in H; [| discriminate].
  destruct (Physics.tryRotation _ _ _) as [rotated |] eqn:Hrot.
  - apply tryRotation_some in Hrot as [Hfit _].
    destruct (phase state) eqn:Ephase; try discriminate;
      unfold_ok H; subst state';
      (play_split;
       [ exact Hcore
       | exact Hfit
       | intros _; repeat split; assumption
       | rewrite ?Ephase; discriminate ]).
  - apply Ok_inj in H. subst state'. exact Hinv.
Qed.

Lemma hardDrop_play (state state' : State) (now : Z) :
  playInvariant state ->
  fallingOrLocking (phase state) = true ->
  Engine.hardDrop state now = Ok state' -> playInvariant state'.
Proof.
  unfold Engine.hardDrop, Engine.current_piece.
  intros (Hcore & _ & Hequip & _) Hphase H.
  pose proof (active_inPlay _ Hphase) as Hplay.
  destruct (Hequip Hplay) as (Hn & Hr & He).
  destruct (current state) as [piece |]; cbv beta iota in H; [| discriminate].
  unfold Scoring.scoreHardDrop in H. cbv beta iota zeta in H.
  core_intro Hcore.
  destruct (scoringEngine state) as [engine |] eqn:Eengine; [| congruence].
  cbn [whenSome] in Hledger.
  destruct (Z.ltb_spec 0 (Physics.calculateShadow (board state) piece
                          - Piece.gridY piece)) as [Hdrop | Hdrop];
    (apply lockPiece_play in H; [exact H | | | exact Hplay]);
    try (core_split; try assumption; try lia;
         first [ rewrite Eengine; exact Hledger
               | apply (ledgerAccounts_add state engine); exact Hledger ]);
    intros _; state_simpl; repeat split;
    first [assumption | rewrite ?Eengine; discriminate].
Qed.

Lemma tryHold_play (state state' : State) (now : Z) :
  playInvariant state ->
  fallingOrLocking (phase state) = true ->
  Engine.tryHold state now = Ok state' -> playInvariant state'.
Proof.
  unfold Engine.tryHold. intros Hinv Hphase H.
  pose proof Hinv as (Hcore & _ & Hequip & _).
  destruct (Hequip (active_inPlay _ Hphase)) as (Hn & Hr & He).
  destruct (current state) as [held |]; [| now apply Ok_inj in H; subst].
  destruct (canHold state); cbv beta iota in H;
    [| now apply Ok_inj in H; subst].
  core_intro Hcore.
  destruct (createPiece_returns (Piece.type held)) as [heldPiece Hheld].
  rewrite Hheld in H. apply createPiece_pose in Hheld.
  destruct (hold state) as [stored |] eqn:Ehold.
  - cbv beta iota in H.
    destruct (GameState.createPiece (Some (Piece.type stored)))
      as [created |] eqn:Hcreated; cbv beta iota in H; [| discriminate].
    apply createPiece_pose in Hcreated.
    apply Ok_inj in H. subst state'.
    play_split.
    + core_split; assumption.
    + exact (spawned_fits (board state) created (generation state + 1)
               Hcreated).
    + intros _. repeat split; assumption.
    + discriminate.
  - destruct (next state) as [upcoming |] eqn:Enext; [| congruence].
    cbv beta iota in H.
    destruct (GameState.createPiece (Some (Piece.type upcoming)))
      as [created |] eqn:Hcreated; cbv beta iota in H; [| discriminate].
    apply createPiece_pose in Hcreated.
    destruct (GameState.getNextPiece state now) as [[nextPiece rng'] |]
      eqn:Enew; cbv beta iota in H; [| discriminate].
    apply getNextPiece_pose in Enew.
    apply Ok_inj in H. subst state'.
    play_split.
    + core_split; assumption.
    + exact (spawned_fits (board state) created (generation state + 1)
               Hcreated).
    + intros _. repeat split; try assumption; discriminate.
    + discriminate.
Qed.

Lemma handleInput_play (state state' : State) (action : Action.t)
  (now : Z) :
  playInvariant state ->
  Engine.handleInput state action now = Ok state' -> playInvariant state'.
Proof.
  unfold Engine.handleInput. intros Hinv H.
  destruct (phase state) eqn:Ephase;
    try (apply Ok_inj in H; subst state'; exact Hinv);
    (destruct (current state) as [piece |];
     [| apply Ok_inj in H; subst state'; exact Hinv]);
    destruct action;
    try (apply Ok_inj in H; subst state'; exact Hinv);
    try (destruct (Engine.isFloat piece && _));
    first [ now apply move_play in H; rewrite ?Ephase
          | now apply rotate_play in H; rewrite ?Ephase
          | now apply hardDrop_play in H; rewrite ?Ephase
          | now apply tryHold_play in H; rewrite ?Ephase ].
Qed.

Lemma tick_play (state state' : State) (deltaTime : Q) (now : Z) :
  hasCurrent state = holdsPiece (phase state) ->
  playInvariant state ->
  Engine.tick state deltaTime now = Ok state' -> playInvariant state'.
Proof.
  unfold Engine.tick. intros Hpiece Hinv H.
  pose proof Hinv as (Hcore & Hfits & Hequip & Htop).
  destruct (phase state) eqn:Ephase;
    try (apply Ok_inj in H; subst state'; exact Hinv);
    (assert (Hplay : inPlay (phase state) = true)
       by (rewrite Ephase; reflexivity));
    destruct (Hequip Hplay) as (Hn & Hr & He).
  - unfold Engine.processFalling in H. unfold hasCurrent in Hpiece.
    destruct (current state) as [piece |] eqn:Hcur; [| discriminate].
    cbn [whenSome] in Hfits.
    unfold_ok H; subst state';
      (play_split;
       [ exact Hcore
       | first [ rewrite Hcur; exact Hfits
               | match goal with
                 | Hc : Engine.canFallFrom _ _ = true |- _ => exact Hc
                 end ]
       | intros _; repeat split; assumption
       | rewrite ?Ephase; discriminate ]).
  - unfold Engine.processLocking, Engine.current_piece in H.
    destruct (current state) as [piece |] eqn:Hcur; cbv beta iota in H;
      [| discriminate].
    cbn [whenSome] in Hfits.
    destruct (Engine.canFallFrom _ _).
    { apply Ok_inj in H. subst state'.
      play_split;
        [ exact Hcore | rewrite Hcur; exact Hfits
        | intros _; repeat split; assumption | discriminate ]. }
    destruct (Engine.Qge_bool _ _).
    { now apply lockPiece_play in H. }
    destruct (Engine.Qge_bool _ _).
    { now apply lockPiece_play in H. }
    apply Ok_inj in H. subst state'.
    play_split;
      [ exact Hcore | rewrite Hcur; exact Hfits
      | intros _; repeat split; assumption
      | rewrite Ephase; discriminate ].
  - unfold Engine.processClearing in H.
    destruct (Engine.Qge_bool _ _).
    + now apply finishClearing_play in H.
    + apply Ok_inj in H. subst state'. exact Hinv.
Qed.

Lemma initial_play (highScore : Z) :
  playInvariant (GameState.createInitialState highScore).
Proof.
  play_split; try exact I; try discriminate.
  core_split; try exact I; try reflexivity; lia.
Qed.

Lemma startGame_play (state state' : State) (now : Z) :
  playInvariant state ->
  Engine.startGame state now = Ok state' -> playInvariant state'.
Proof.
  unfold Engine.startGame. intros Hinv H.
  pose proof Hinv as (Hcore & _). core_intro Hcore.
  destruct (phase state);
    try (apply Ok_inj in H; subst state'; exact Hinv);
    (destruct (GameState.getNextPiece _ now) as [[firstPiece rng1] |]
       eqn:Efirst; cbv beta iota in H; [| discriminate]);
    (destruct (GameState.getNextPiece _ now) as [[nextPiece rng2] |]
       eqn:Enext in H; cbv beta iota in H; [| discriminate]);
    apply Ok_inj in H; subst state';
    apply getNextPiece_pose in Efirst; apply getNextPiece_pose in Enext;
    (play_split;
     [ core_split; try assumption; try reflexivity; try lia;
       split; reflexivity
     | exact (spawned_fits GameState.createEmptyBoard firstPiece 1 Efirst)
     | intros _; repeat split; discriminate
     | discriminate ]).
Qed.

Lemma handleAction_play (state state' : State) (action : Action.t)
  (now highScore : Z) :
  playInvariant state ->
  Main.handleAction state action now highScore = Ok state' ->
  playInvariant state'.
Proof.
  unfold Main.handleAction. intros Hinv H.
  pose proof Hinv as (Hcore & Hfits & Hequip & Htop).
  destruct (phase state) eqn:Ephase; destruct action;
    try (now apply startGame_play in H);
    try (now apply handleInput_play in H);
    apply Ok_inj in H; subst state';
    first [ exact Hinv
          | apply initial_play
          | play_split;
            [ exact Hcore | exact Hfits
            | intros _; apply Hequip; rewrite Ephase; reflexivity
            | discriminate ] ].
Qed.

Lemma step_play (state state' : State) :
  hasCurrent state = holdsPiece (phase state) ->
  playInvariant state -> step state state' -> playInvariant state'.
Proof.
  intros Hpiece Hinv Hstep.
  destruct Hstep as [? ? ? H | ? ? ? ? H | ? ? ? ? H | ? ? ? ? ? H].
  - now apply startGame_play in H.
  - now apply tick_play in H.
  - now apply handleInput_play in H.
  - now apply handleAction_play in H.
Qed.

Lemma reachable_play (state : State) :
  reachable state -> playInvariant state.
Proof.
  induction 1 as [highScore | state state' Hreach IH Hstep].
  - apply initial_play.
  - apply (step_play state); [now apply reachable_inv | exact IH | exact Hstep].
Qed.

(** *** What a call needs to return *)

Let seeded (state : State) : Prop :=
  whenSome (fun seed => 0 <= seed) (rng state).

Lemma spawnNextPiece_returns (state : State) (now : Z) :
  playCore state -> equipped state -> inPlay (phase state) = true ->
  seeded state ->
  exists state', Engine.spawnNextPiece state now = Ok state'.
Proof.
  intros Hcore Hequip Hphase Hseed. core_intro Hcore.
  destruct (Hequip Hphase) as (Hn & Hr & _).
  unfold Engine.spawnNextPiece.
  destruct (next state) as [piece |] eqn:Enext; [| congruence].
  cbn [whenSome] in Hnext.
  rewrite (spawned_fits (board state) piece (generation state + 1) Hnext).
  cbn [negb].
  unfold seeded in Hseed.
  destruct (rng state) as [seed |] eqn:Erng; [| congruence].
  cbn [whenSome] in Hseed.
  destruct (getNextPiece_ready state now seed Hmode Erng Hseed Hlines
              Hpieces Hcombo) as (nextPiece & rng' & -> & _).
  cbv beta iota. destruct (phase state); eexists; reflexivity.
Qed.

Lemma lockPiece_returns (state : State) (now : Z) :
  playCore state -> equipped state -> inPlay (phase state) = true ->
  seeded state -> current state <> None ->
  exists state', Engine.lockPiece state now = Ok state'.
Proof.
  intros Hcore Hequip Hphase Hseed Hcur.
  unfold Engine.lockPiece, Engine.current_piece.
  destruct (current state) as [piece |]; [| congruence]. cbv beta iota.
  destruct (Piece.gridY piece <? 0); [eexists; reflexivity |].
  destruct (Physics.findClearedLines _); [| eexists; reflexivity].
  destruct (Hequip Hphase) as (Hn & Hr & He).
  core_intro Hcore.
  destruct (scoringEngine state) as [engine |] eqn:Eengine; [| congruence].
  apply spawnNextPiece_returns.
  - core_split; try assumption; lia.
  - intros _. state_simpl. repeat split; first [assumption | discriminate].
  - exact Hphase.
  - exact Hseed.
Qed.

Lemma finishClearing_returns (state : State) (now : Z) :
  playCore state -> equipped state -> inPlay (phase state) = true ->
  seeded state -> current state = None ->
  exists state', Engine.finishClearing state now = Ok state'.
Proof.
  intros Hcore Hequip Hphase Hseed Hcur.
  pose proof Hcore as Hcore'. core_intro Hcore'.
  destruct (Hequip Hphase) as (Hn & Hr & He).
  pose proof (Nat2Z.is_nonneg (List.length (clearingLines state))) as Hcount.
  destruct (scoringEngine state) as [engine |] eqn:Eengine; [| congruence].
  destruct (scoreLineClears_returns engine state
              (Z.of_nat (List.length (clearingLines state)))
              (lastMove state) now Hcur Hcount) as (points & engine' & E).
  unfold Engine.finishClearing. rewrite Eengine, E. cbv beta iota.
  assert (Hlevel' : 0 <= level state)
    by (rewrite Hlevel; pose proof (Z.div_pos (lines state) 10); lia).
  pose proof (scoreLineClears_nonneg _ _ _ _ _ _ _ Hlevel' Hcombo E)
    as Hpoints.
  apply scoreLineClears_accounts in E
    as (events & Hevents & Hsum & _ & Hvalid).
  apply spawnNextPiece_returns.
  - core_split; try assumption; try lia.
    + destruct (0 <? _); lia.
    + cbn [whenSome] in *. destruct Hledger as [Hv Hs]. split.
      * now apply Hvalid.
      * rewrite Hevents, ledgerPoints_app, Hsum. lia.
  - intros _. state_simpl. repeat split; try assumption. discriminate.
  - exact Hphase.
  - exact Hseed.
Qed.

Lemma tick_returns (state : State) (deltaTime : Q) (now : Z) :
  reachable state -> seeded state ->
  exists state', Engine.tick state deltaTime now = Ok state'.
Proof.
  intros Hreach Hseed.
  pose proof (reachable_inv state Hreach) as Hpiece.
  destruct (reachable_play state Hreach) as (Hcore & _ & Hequip & _).
  unfold Engine.tick. unfold hasCurrent in Hpiece.
  destruct (phase state) eqn:Ephase; try (eexists; reflexivity);
    (assert (Hplay : inPlay (phase state) = true)
       by (rewrite Ephase; reflexivity)).
  - unfold Engine.processFalling.
    destruct (current state); [| eexists; reflexivity].
    destruct (Engine.Qge_bool _ _); [| eexists; reflexivity].
    destruct (Engine.canFallFrom _ _); eexists; reflexivity.
  - unfold Engine.processLocking, Engine.current_piece.
    destruct (current state) as [piece |] eqn:Hcur; [| discriminate].
    cbv beta iota.
    assert (Hlock : exists state', Engine.lockPiece state now = Ok state')
      by (apply lockPiece_returns; try assumption; congruence).
    destruct (Engine.canFallFrom _ _); [eexists; reflexivity |].
    destruct (Engine.Qge_bool _ _); [exact Hlock |].
    destruct (Engine.Qge_bool _ _); [exact Hlock | eexists; reflexivity].
  - unfold Engine.processClearing.
    destruct (Engine.Qge_bool _ _); [| eexists; reflexivity].
    apply finishClearing_returns; try assumption.
    now destruct (current state).
Qed.

Lemma executeMove_returns (state : State) (piece : Piece.t)
  (newX newY dx dy now : Z) :
  current state = Some piece ->
  (exists state', Engine.executeMove state newX newY dx dy now = Ok state')
  \/ (phase state = LOCKING
      /\ Engine.executeMove state newX newY dx dy now
         = Err (ReferenceError "piece")).
Proof.
  intros Hcur. unfold Engine.executeMove, Engine.current_piece.
  rewrite Hcur. cbv beta iota zeta.
  destruct (phase state); cbv beta iota;
    try (destruct (negb (Engine.canFallFrom _ _)); cbv beta iota);
    try (destruct (Engine.canFallFrom _ _) eqn:Hfall; cbv beta iota);
    try (right; split; reflexivity);
    left; destruct (scoringEngine state); try (destruct (0 <? dy));
    try (destruct (Scoring.scoreSoftDrop _ _ _)); eexists; reflexivity.
Qed.

Lemma rotate_returns (state : State) (piece : Piece.t) (direction : Z) :
  current state = Some piece ->
  exists state', Engine.rotate state direction = Ok state'.
Proof.
  intros Hcur. unfold Engine.rotate, Engine.current_piece.
  rewrite Hcur. cbv beta iota.
  destruct (Physics.tryRotation _ _ _); [| eexists; reflexivity].
  destruct (phase state); try (eexists; reflexivity);
    destruct (Engine.canFallFrom _ _); eexists; reflexivity.
Qed.

Lemma move_returns (state : State) (piece : Piece.t) (dx dy now : Z) :
  current state = Some piece ->
  (exists state', Engine.move state dx dy now = Ok state')
  \/ (phase state = LOCKING
      /\ Engine.move state dx dy now = Err (ReferenceError "piece")).
Proof.
  intros Hcur. unfold Engine.move, Engine.current_piece.
  rewrite Hcur. cbv beta iota zeta.
  destruct (Physics.canPieceFitAt _ _ _ _);
    [now apply (executeMove_returns state piece) |].
  match goal with
  | |- context [if ?b then _ else _] => destruct b
  end; [now apply (executeMove_returns state piece) |].
  left. eexists. reflexivity.
Qed.

Lemma hardDrop_returns (state : State) (piece : Piece.t) (now : Z) :
  playCore state -> equipped state -> inPlay (phase state) = true ->
  seeded state -> current state = Some piece ->
  exists state', Engine.hardDrop state now = Ok state'.
Proof.
  intros Hcore Hequip Hphase Hseed Hcur.
  destruct (Hequip Hphase) as (Hn & Hr & He). core_intro Hcore.
  unfold Engine.hardDrop, Engine.current_piece. rewrite Hcur.
  unfold Scoring.scoreHardDrop. cbv beta iota zeta.
  destruct (scoringEngine state) as [engine |] eqn:Eengine; [| congruence].
  cbn [whenSome] in Hledger.
  destruct (Z.ltb_spec 0 (Physics.calculateShadow (board state) piece
                          - Piece.gridY piece)) as [Hdrop | Hdrop];
    (apply lockPiece_returns;
     [ core_split; try assumption; try lia;
       first [ rewrite Eengine; exact Hledger
             | apply (ledgerAccounts_add state engine); exact Hledger ]
     | intros _; state_simpl; repeat split;
       first [assumption | rewrite ?Eengine; discriminate]
     | exact Hphase
     | exact Hseed
     | state_simpl; discriminate ]).
Qed.

Lemma tryHold_returns (state : State) (now : Z) :
  playCore state -> equipped state -> inPlay (phase state) = true ->
  seeded state ->
  exists state', Engine.tryHold state now = Ok state'.
Proof.
  intros Hcore Hequip Hphase Hseed.
  destruct (Hequip Hphase) as (Hn & Hr & He). core_intro Hcore.
  unfold Engine.tryHold.
  destruct (current state) as [held |]; [| eexists; reflexivity].
  destruct (canHold state); cbn [negb]; [| eexists; reflexivity].
  destruct (createPiece_returns (Piece.type held)) as [heldPiece Hheld].
  rewrite Hheld.
  destruct (hold state) as [stored |].
  - destruct (createPiece_returns (Piece.type stored)) as [created ->].
    cbv beta iota. eexists. reflexivity.
  - destruct (next state) as [upcoming |]; [| congruence].
    destruct (createPiece_returns (Piece.type upcoming)) as [created ->].
    unfold seeded in Hseed.
    destruct (rng state) as [seed |] eqn:Erng; [| congruence].
    cbn [whenSome] in Hseed.
    destruct (getNextPiece_ready state now seed Hmode Erng Hseed Hlines
                Hpieces Hcombo) as (nextPiece & rng' & -> & _).
    cbv beta iota. eexists. reflexivity.
Qed.

Lemma handleInput_returns (state : State) (action : Action.t) (now : Z) :
  reachable state -> seeded state ->
  (exists state', Engine.handleInput state action now = Ok state')
  \/ (phase state = LOCKING
      /\ Engine.handleInput state action now
         = Err (ReferenceError "piece")).
Proof.
  intros Hreach Hseed.
  destruct (reachable_play state Hreach) as (Hcore & _ & Hequip & _).
  unfold Engine.handleInput.
  destruct (phase state) eqn:Ephase; try (left; eexists; reflexivity);
    (assert (Hplay : inPlay (phase state) = true)
       by (rewrite Ephase; reflexivity));
    (destruct (current state) as [piece |] eqn:Hcur;
     [| left; eexists; reflexivity]);
    destruct action; try (left; eexists; reflexivity);
    try (destruct (Engine.isFloat piece && _));
    first [ match goal with
            | |- (exists _, Engine.move _ ?dx ?dy _ = _) \/ _ =>
                destruct (move_returns state piece dx dy now Hcur)
                  as [Hok | [Hlock Herr]];
                [ left; exact Hok
                | first [ right; split; [reflexivity | exact Herr]
                        | exfalso; congruence ] ]
            end
          | left; now apply (rotate_returns state piece)
          | left; now apply (hardDrop_returns state piece)
          | left; now apply tryHold_returns ].
Qed.

End Play.

Section Sessions.

Lemma hardDrops_reachable (n : nat) (state state' : State) (now : Z) :
  reachable state -> hardDrops n state now = Ok state' -> reachable state'.
Proof.
  revert state now. induction n as [| n IH]; intros state now Hreach H;
    cbn [hardDrops] in H.
  - apply Ok_inj in H. now subst.
  - destruct (Engine.handleInput state Action.HARD_DROP now)
      as [state1 |] eqn:Hdrop; cbv beta iota in H; [| discriminate].
    apply (IH state1 (now + 100)); [| exact H].
    apply (reachable_step state); [exact Hreach |].
    now apply (step_handleInput state Action.HARD_DROP now).
Qed.

Lemma stackedOut_reachable : reachable stackedOut.
Proof.
  apply (hardDrops_reachable 30 Scenario.playing stackedOut
           (Scenario.T0 + 1000) playing_reachable).
  vm_compute. reflexivity.
Qed.

Lemma seedInRange_seeded (state : State) :
  seedInRange state -> whenSome (fun seed => 0 <= seed) (rng state).
Proof.
  unfold seedInRange. destruct (rng state); cbn; [lia | trivial].
Qed.

End Sessions.

(** X20: in every state of a session the current piece, when there is one,
    fits the board at its position: whatever the inputs, a piece never
    overlaps a filled cell, the walls or the floor. *)
Theorem current_piece_fits (state : State) (piece : Piece.t) :
  reachable state -> current state = Some piece ->
  Physics.canPieceFitAt (board state) piece (Piece.gridX piece)
    (Piece.gridY piece) = true.
Proof.
  intros Hreach Hcur.
  destruct (reachable_play state Hreach) as (_ & Hfits & _).
  rewrite Hcur in Hfits. exact Hfits.
Qed.

Lemma current_piece_fits_witness :
  exists piece,
    current Scenario.dropped = Some piece
    /\ Physics.canPieceFitAt (board Scenario.dropped) piece
         (Piece.gridX piece) (Piece.gridY piece) = true.
Proof.
  eexists. split; [vm_compute; reflexivity |].
  apply current_piece_fits; [| vm_compute; reflexivity].
  apply (reachable_step Scenario.playing); [apply playing_reachable |].
  apply (step_handleInput _ Action.HARD_DROP (Scenario.T0 + 500)).
  vm_compute. reflexivity.
Defined.

(** X21: in every state of a session the level is the number of cleared
    lines divided by ten, rounded down, plus one. *)
Theorem level_follows_lines (state : State) :
  reachable state -> level state = lines state / 10 + 1.
Proof.
  intros Hreach.
  now destruct (reachable_play state Hreach)
    as ((_ & _ & _ & Hlevel & _) & _).
Qed.

Lemma level_follows_lines_witness :
  level stackedOut = lines stackedOut / 10 + 1.
Proof. apply level_follows_lines, stackedOut_reachable. Defined.

(** X22: [validateState] reports no error on any state of a session. *)
Theorem validateState_passes (state : State) :
  reachable state ->
  GameState.validateState state = []
  /\ GameState.valid (GameState.validateState state) = true.
Proof.
  intros Hreach.
  destruct (reachable_session state Hreach) as ((Hlen & Hrows) & _ & _).
  destruct (reachable_play state Hreach)
    as ((_ & _ & _ & Hlevel & Hlines & _ & Hpieces & Hscore & _) & _).
  assert (Hvalid : GameState.validateState state = []).
  { unfold GameState.validateState. rewrite Hlen. cbn [Nat.eqb negb].
    assert (Hwidth : existsb (fun row => negb (Nat.eqb (List.length row) 10))
                       (board state) = false).
    { apply not_true_is_false. intros Hex.
      apply existsb_exists in Hex as (row & Hin & Hbad).
      rewrite Forall_forall in Hrows. rewrite (Hrows row Hin) in Hbad.
      discriminate. }
    rewrite Hwidth.
    pose proof (Z.div_pos (lines state) 10 Hlines ltac:(lia)).
    destruct (Z.ltb_spec (level state) 1); [lia |].
    destruct (Z.ltb_spec (score state) 0); [lia |].
    destruct (Z.ltb_spec (lines state) 0); [lia |].
    destruct (Z.ltb_spec (pieces state) 0); [lia |].
    reflexivity. }
  rewrite Hvalid. split; reflexivity.
Qed.

Lemma validateState_passes_witness :
  GameState.validateState stackedOut = [].
Proof. apply validateState_passes, stackedOut_reachable. Defined.

(** X23: in every state of a session the score ledger of the scoring
    engine validates, and the points of its events add up to the score of
    the state. *)
Theorem ledger_accounts_for_score (state : State) (engine : ScoringEngine) :
  reachable state -> scoringEngine state = Some engine ->
  Scoring.validateScoreLedger engine = true
  /\ score state = ledgerPoints (scoreLedger engine).
Proof.
  intros Hreach Hengine.
  destruct (reachable_play state Hreach)
    as ((_ & _ & _ & _ & _ & _ & _ & _ & Hledger) & _).
  rewrite Hengine in Hledger. exact Hledger.
Qed.

Lemma ledger_accounts_for_score_witness :
  exists engine,
    scoringEngine stackedOut = Some engine
    /\ score stackedOut = ledgerPoints (scoreLedger engine).
Proof.
  eexists. split; [vm_compute; reflexivity |].
  apply ledger_accounts_for_score;
    [apply stackedOut_reachable | vm_compute; reflexivity].
Defined.

Section GameOver.

Ltac state_simpl_in H :=
  cbn [
    board current next hold canHold deathPiece phase mode score
    highScore lines level combo backToBackCounter lockTimer
    totalLockTime clearTimer gravityAccumulator pieces startTime
    generation lastMove clearingLines rng scoringEngine set_board
    set_current set_next set_hold set_canHold set_deathPiece set_phase
    set_mode set_score set_highScore set_lines set_level set_combo
    set_backToBackCounter set_lockTimer set_totalLockTime
    set_clearTimer set_gravityAccumulator set_pieces set_startTime
    set_generation set_lastMove set_clearingLines set_rng
    set_scoringEngine ] in H.

(** The step from [state] to [state'] locked the current piece of
    [state], as it was or hard-dropped to its shadow, above the board. *)
Let lockedAbove (state state' : State) : Prop :=
  exists piece locked,
    current state = Some piece
    /\ (locked = piece
        \/ locked
           = Piece.set_gridY (Physics.calculateShadow (board state) piece)
               piece)
    /\ Piece.gridY locked < 0
    /\ deathPiece state' = Some locked
    /\ board state' = Physics.placePiece (board state) locked.

Lemma spawnNextPiece_falling (state state' : State) (now : Z) :
  whenSome spawnPose (next state) -> phase state <> GAME_OVER ->
  Engine.spawnNextPiece state now = Ok state' -> phase state' = FALLING.
Proof.
  intros Hnext Hphase H. unfold Engine.spawnNextPiece in H.
  destruct (phase state) eqn:Ephase; try congruence;
    (destruct (next state) as [piece |]; [| discriminate]);
    cbn [whenSome] in Hnext;
    rewrite (spawned_fits (board state) piece (generation state + 1) Hnext)
      in H;
    cbv beta iota in H; cbn [negb] in H;
    (destruct (GameState.getNextPiece state now) as [[nextPiece rng'] |];
     cbv beta iota in H; [| discriminate]);
    apply Ok_inj in H; subst state'; reflexivity.
Qed.

Lemma Some_inj {A : Type} (a b : A) : Some a = Some b -> a = b.
Proof. intros H. now injection H. Qed.

Lemma gameOver_keeps (state : State) :
  deathPiece (Engine.gameOver state) = deathPiece state
  /\ board (Engine.gameOver state) = board state.
Proof.
  unfold Engine.gameOver. destruct (scoringEngine state); split; reflexivity.
Qed.

Lemma lockPiece_over (state state' : State) (now : Z) :
  whenSome spawnPose (next state) -> phase state <> GAME_OVER ->
  Engine.lockPiece state now = Ok state' -> phase state' = GAME_OVER ->
  exists piece,
    current state = Some piece
    /\ Piece.gridY piece < 0
    /\ deathPiece state' = Some piece
    /\ board state' = Physics.placePiece (board state) piece.
Proof.
  intros Hnext Hphase H Hover.
  unfold Engine.lockPiece, Engine.current_piece in H.
  destruct (current state) as [piece |]; cbv beta iota in H; [| discriminate].
  destruct (Z.ltb_spec (Piece.gridY piece) 0) as [Habove | Hon].
  - apply Ok_inj in H. subst state'. exists piece.
    destruct (gameOver_keeps
                (set_deathPiece (Some piece)
                   (set_board (Physics.placePiece (board state) piece)
                      state))) as [-> ->].
    repeat split. exact Habove.
  - destruct (Physics.findClearedLines _) as [| line rest].
    + apply spawnNextPiece_falling in H.
      * congruence.
      * destruct (scoringEngine state); exact Hnext.
      * destruct (scoringEngine state); exact Hphase.
    + apply Ok_inj in H. subst state'.
      destruct (scoringEngine state); discriminate.
Qed.

Lemma finishClearing_falling (state state' : State) (now : Z) :
  whenSome spawnPose (next state) -> phase state <> GAME_OVER ->
  Engine.finishClearing state now = Ok state' -> phase state' = FALLING.
Proof.
  intros Hnext Hphase H. unfold Engine.finishClearing in H.
  destruct (scoringEngine state) as [engine |].
  - destruct (Scoring.scoreLineClears _ _ _ _ _) as [[points engine'] |];
      cbv beta iota in H; [| discriminate].
    now apply spawnNextPiece_falling in H.
  - now apply spawnNextPiece_falling in H.
Qed.

Lemma executeMove_active (state state' : State) (newX newY dx dy now : Z) :
  fallingOrLocking (phase state) = true ->
  Engine.executeMove state newX newY dx dy now = Ok state' ->
  fallingOrLocking (phase state') = true.
Proof.
  unfold Engine.executeMove, Engine.current_piece. intros Hphase H.
  destruct (current state) as [piece |]; cbv beta iota in H; [| discriminate].
  destruct (negb (dy =? 0));
    destruct (phase state) eqn:Ephase; try discriminate;
    unfold_ok H; subst state'; state_simpl; rewrite ?Ephase; reflexivity.
Qed.

Lemma move_active (state state' : State) (dx dy now : Z) :
  fallingOrLocking (phase state) = true ->
  Engine.move state dx dy now = Ok state' ->
  fallingOrLocking (phase state') = true.
Proof.
  unfold Engine.move, Engine.current_piece. intros Hphase H.
  destruct (current state) as [piece |]; cbv beta iota in H; [| discriminate].
  destruct (Physics.canPieceFitAt _ _ _ _).
  - now apply executeMove_active in H.
  - match type of H with
    | (if ?b then _ else _) = _ => destruct b
    end.
    + now apply executeMove_active in H.
    + apply Ok_inj in H. subst state'. exact Hphase.
Qed.

Lemma rotate_active (state state' : State) (direction : Z) :
  fallingOrLocking (phase state) = true ->
  Engine.rotate state direction = Ok state' ->
  fallingOrLocking (phase state') = true.
Proof.
  unfold Engine.rotate, Engine.current_piece. intros Hphase H.
  destruct (current state) as [piece |]; cbv beta iota in H; [| discriminate].
  destruct (Physics.tryRotation _ _ _) as [rotated |].
  - destruct (phase state) eqn:Ephase; try discriminate;
      unfold_ok H; subst state'; state_simpl; rewrite ?Ephase; reflexivity.
  - apply Ok_inj in H. subst state'. exact Hphase.
Qed.

Lemma tryHold_active (state state' : State) (now : Z) :
  fallingOrLocking (phase state) = true ->
  Engine.tryHold state now = Ok state' ->
  fallingOrLocking (phase state') = true.
Proof.
  unfold Engine.tryHold. intros Hphase H.
  destruct (current state) as [held |]; [| now apply Ok_inj in H; subst].
  destruct (canHold state); cbn [negb] in H; cbv beta iota in H;
    [| now apply Ok_inj in H; subst].
  unfold_ok H; subst state'; reflexivity.
Qed.

Lemma hardDrop_over (state state' : State) (now : Z) :
  whenSome spawnPose (next state) -> phase state <> GAME_OVER ->
  Engine.hardDrop state now = Ok state' -> phase state' = GAME_OVER ->
  lockedAbove state state'.
Proof.
  unfold Engine.hardDrop, Engine.current_piece. intros Hnext Hphase H Hover.
  destruct (current state) as [piece |] eqn:Hcur; cbv beta iota in H;
    [| discriminate].
  unfold Scoring.scoreHardDrop in H. cbv beta iota zeta in H.
  destruct (scoringEngine state) as [engine |];
    [destruct (0 <? _) |];
    (apply lockPiece_over in H; [| exact Hnext | exact Hphase | exact Hover]);
    destruct H as (locked & Hlocked & Habove & Hdeath & Hboard);
    state_simpl_in Hlocked; state_simpl_in Hboard;
    apply Some_inj in Hlocked; subst locked;
    exists piece;
    exists (Piece.set_gridY (Physics.calculateShadow (board state) piece)
              piece);
    (split; [exact Hcur |]); (split; [now right |]);
    repeat split; assumption.
Qed.

Lemma handleInput_over (state state' : State) (action : Action.t)
  (now : Z) :
  whenSome spawnPose (next state) -> phase state <> GAME_OVER ->
  Engine.handleInput state action now = Ok state' ->
  phase state' = GAME_OVER -> lockedAbove state state'.
Proof.
  unfold Engine.handleInput. intros Hnext Hphase H Hover.
  assert (Hactive : forall s, fallingOrLocking (phase s) = true ->
                              phase s <> GAME_OVER).
  { intros s Hs E. rewrite E in Hs. discriminate. }
  destruct (phase state) eqn:Ephase;
    try (apply Ok_inj in H; subst state'; congruence);
    (destruct (current state) as [piece |] eqn:Hcur;
     [| apply Ok_inj in H; subst state'; congruence]);
    destruct action;
    try (apply Ok_inj in H; subst state'; congruence);
    try (destruct (Engine.isFloat piece && _));
    first [ apply move_active in H;
            [exfalso; now apply (Hactive state') | now rewrite Ephase]
          | apply rotate_active in H;
            [exfalso; now apply (Hactive state') | now rewrite Ephase]
          | apply tryHold_active in H;
            [exfalso; now apply (Hactive state') | now rewrite Ephase]
          | apply hardDrop_over in H; try assumption;
            rewrite Ephase; discriminate ].
Qed.

Lemma tick_over (state state' : State) (deltaTime : Q) (now : Z) :
  hasCurrent state = holdsPiece (phase state) ->
  whenSome spawnPose (next state) -> phase state <> GAME_OVER ->
  Engine.tick state deltaTime now = Ok state' ->
  phase state' = GAME_OVER -> lockedAbove state state'.
Proof.
  unfold Engine.tick. intros Hpiece Hnext Hphase H Hover.
  unfold hasCurrent in Hpiece.
  destruct (phase state) eqn:Ephase;
    try (apply Ok_inj in H; subst state'; congruence).
  - unfold Engine.processFalling in H.
    destruct (current state) as [piece |]; [| discriminate].
    unfold_ok H; subst state'; state_simpl_in Hover;
      rewrite ?Ephase in Hover; discriminate.
  - unfold Engine.processLocking, Engine.current_piece in H.
    destruct (current state) as [piece |] eqn:Hcur; cbv beta iota in H;
      [| discriminate].
    assert (Hlock : Engine.lockPiece state now = Ok state' ->
                    lockedAbove state state').
    { intros Hl. apply lockPiece_over in Hl; try assumption;
        [| rewrite Ephase; discriminate].
      destruct Hl as (locked & Hlocked & Habove & Hdeath & Hboard).
      exists locked, locked.
      split; [exact Hlocked |]. split; [now left |].
      split; [exact Habove |]. split; [exact Hdeath | exact Hboard]. }
    destruct (Engine.canFallFrom _ _).
    { apply Ok_inj in H. subst state'. discriminate. }
    destruct (Engine.Qge_bool _ _); [now apply Hlock |].
    destruct (Engine.Qge_bool _ _); [now apply Hlock |].
    apply Ok_inj in H. subst state'. state_simpl_in Hover. congruence.
  - unfold Engine.processClearing in H.
    destruct (Engine.Qge_bool _ _).
    + apply finishClearing_falling in H; try assumption; [congruence |].
      rewrite Ephase. discriminate.
    + apply Ok_inj in H. subst state'. state_simpl_in Hover. congruence.
Qed.

Lemma startGame_not_over (state state' : State) (now : Z) :
  phase state <> GAME_OVER ->
  Engine.startGame state now = Ok state' -> phase state' <> GAME_OVER.
Proof.
  unfold Engine.startGame. intros Hphase H.
  destruct (phase state) eqn:Ephase;
    try (apply Ok_inj in H; subst state'; congruence);
    unfold_ok H; subst state'; discriminate.
Qed.

Lemma step_over (state state' : State) :
  reachable state -> step state state' ->
  phase state <> GAME_OVER -> phase state' = GAME_OVER ->
  lockedAbove state state'.
Proof.
  intros Hreach Hstep Hphase Hover.
  pose proof (reachable_inv state Hreach) as Hpiece.
  destruct (reachable_play state Hreach) as ((_ & Hnext & _) & _).
  destruct Hstep as [? ? ? H | ? ? ? ? H | ? ? ? ? H | ? ? ? ? ? H].
  - now apply startGame_not_over in H.
  - now apply tick_over in H.
  - now apply handleInput_over in H.
  - unfold Main.handleAction in H.
    destruct (phase state) eqn:Ephase; try congruence; destruct action;
      try (exfalso;
           refine (startGame_not_over _ _ _ _ H Hover);
           rewrite Ephase; discriminate);
      try (refine (handleInput_over _ _ _ _ Hnext _ H Hover);
           rewrite Ephase; discriminate);
      apply Ok_inj in H; subst state'; state_simpl_in Hover; congruence.
Qed.

End GameOver.

(** X24: a session is over only after a piece has locked above the board.
    In every state of a session: (1) in the phase GAME_OVER the recorded
    death piece has a negative row; (2) the next piece passes the test
    [canSpawn] of [spawnNextPiece] on every board, so the game-over branch
    of [spawnNextPiece] is not taken; (3) in the phase FALLING there is a
    current piece, so the game-over branch of [processFalling] is not
    taken; (4) every step that enters the phase GAME_OVER has locked the
    current piece, as it was or hard-dropped to its shadow, at a negative
    row: that piece is the death piece of the new state and is placed on
    its board. *)
Theorem game_over_by_top_out (state : State) :
  reachable state ->
  (phase state = GAME_OVER ->
   exists piece, deathPiece state = Some piece /\ Piece.gridY piece < 0)
  /\ (forall piece board generation,
         next state = Some piece ->
         Physics.canSpawn board
           (Piece.set_upMovesUsed 0
              (Piece.set_generation (Some generation) piece)) = true)
  /\ (phase state = FALLING -> current state <> None)
  /\ (forall state',
         step state state' ->
         phase state <> GAME_OVER -> phase state' = GAME_OVER ->
         exists piece locked,
           current state = Some piece
           /\ (locked = piece
               \/ locked
                  = Piece.set_gridY
                      (Physics.calculateShadow (board state) piece) piece)
           /\ Piece.gridY locked < 0
           /\ deathPiece state' = Some locked
           /\ board state' = Physics.placePiece (board state) locked).
Proof.
  intros Hreach.
  destruct (reachable_play state Hreach) as ((_ & Hnext & _) & _ & _ & Htop).
  split; [exact Htop | split; [| split]].
  - intros piece board generation Hpiece. rewrite Hpiece in Hnext.
    now apply spawned_fits.
  - intros Hphase Hcur. pose proof (reachable_inv state Hreach) as Hpiece.
    unfold hasCurrent in Hpiece. rewrite Hphase, Hcur in Hpiece.
    discriminate.
  - intros state' Hstep Hphase Hover. now apply (step_over state state').
Qed.

Lemma game_over_by_top_out_witness :
  exists piece, deathPiece stackedOut = Some piece /\ Piece.gridY piece < 0.
Proof.
  apply (proj1 (game_over_by_top_out stackedOut stackedOut_reachable)).
  vm_compute. reflexivity.
Defined.

(** X25: in a session whose generator state is in [0, 2^53], [tick] never
    throws, whatever the phase, the time step and the clock. *)
Theorem tick_never_throws (state : State) (deltaTime : Q) (now : Z) :
  reachable state -> seedInRange state ->
  exists state', Engine.tick state deltaTime now = Ok state'.
Proof.
  intros Hreach Hseed. apply tick_returns; [exact Hreach |].
  now apply seedInRange_seeded.
Qed.

Lemma tick_never_throws_witness :
  exists state',
    Engine.tick Scenario.playing 1000 (Scenario.T0 + 1000) = Ok state'.
Proof.
  apply tick_never_throws; [apply playing_reachable |].
  vm_compute. split; discriminate.
Defined.

(** X26: in a session whose generator state is in [0, 2^53], the only way
    [handleInput] throws is the [ReferenceError] of [executeMove], and
    only in the phase LOCKING. *)
Theorem handleInput_throws_only_while_locking (state : State)
  (action : Action.t) (now : Z) :
  reachable state -> seedInRange state ->
  (exists state', Engine.handleInput state action now = Ok state')
  \/ (phase state = LOCKING
      /\ Engine.handleInput state action now
         = Err (ReferenceError "piece")).
Proof.
  intros Hreach Hseed. apply handleInput_returns; [exact Hreach |].
  now apply seedInRange_seeded.
Qed.

Lemma handleInput_throws_only_while_locking_witness :
  (exists state',
      Engine.handleInput Scenario.playing Action.HOLD (Scenario.T0 + 100)
      = Ok state')
  \/ (phase Scenario.playing = LOCKING
      /\ Engine.handleInput Scenario.playing Action.HOLD (Scenario.T0 + 100)
         = Err (ReferenceError "piece")).
Proof.
  apply handleInput_throws_only_while_locking; [apply playing_reachable |].
  vm_compute. split; discriminate.
Defined.

(** X27: while a piece is locking, an input that moves it to a position
    from which it can fall makes [handleInput] throw: [executeMove] reads
    the variable [piece], which it does not declare. *)
Theorem moving_locking_piece_off_its_rest_throws (state : State)
  (piece : Piece.t) (dx dy now : Z) :
  phase state = LOCKING -> current state = Some piece ->
  Physics.canPieceFitAt (board state) piece (Piece.gridX piece + dx)
    (Piece.gridY piece + dy) = true ->
  Physics.canPieceFitAt (board state) piece (Piece.gridX piece + dx)
    (Piece.gridY piece + dy + 1) = true ->
  Engine.handleInput state (Action.MOVE dx dy) now
  = Err (ReferenceError "piece").
Proof.
  intros Hphase Hcur Hfit Hfall.
  unfold Engine.handleInput. rewrite Hphase, Hcur.
  unfold Engine.move, Engine.current_piece. rewrite Hcur.
  cbv beta iota zeta. rewrite Hfit.
  unfold Engine.executeMove, Engine.current_piece. rewrite Hcur, Hphase.
  cbv beta iota zeta.
  assert (Hcan : forall moved,
    Piece.shape moved = Piece.shape piece ->
    Piece.gridX moved = Piece.gridX piece + dx ->
    Piece.gridY moved = Piece.gridY piece + dy ->
    Engine.canFallFrom (board state) moved = true).
  { intros moved Hshape Hx Hy.
    unfold Engine.canFallFrom, Physics.canPieceFitAt.
    rewrite Hshape, Hx, Hy. exact Hfall. }
  destruct (Engine.isFloat piece && (dy <? 0));
    rewrite Hcan by reflexivity; reflexivity.
Qed.

Lemma moving_locking_piece_off_its_rest_throws_witness :
  Engine.handleInput (Scenario.unwrap Scenario.restingFloat)
    (Action.MOVE 0 (-1)) (Scenario.T0 + 100)
  = Err (ReferenceError "piece").
Proof.
  apply (moving_locking_piece_off_its_rest_throws
           (Scenario.unwrap Scenario.restingFloat)
           {| Piece.type := FLOAT;
              Piece.shape := [[1]];
              Piece.color := "#FFFFFF";
              Piece.gridX := 4;
              Piece.gridY := 19;
              Piece.rotation := 0;
              Piece.upMovesUsed := 0;
              Piece.generation := Some 1 |});
    vm_compute; reflexivity.
Defined.

Section Counters.

Lemma spawnNextPiece_pieces (state state' : State) (now : Z) :
  Engine.spawnNextPiece state now = Ok state' ->
  phase state' = FALLING -> pieces state' = pieces state + 1.
Proof.
  unfold Engine.spawnNextPiece. intros H Hphase.
  destruct (phase state) eqn:Ephase;
    unfold_ok H; subst state'; rewrite ?gameOver_phase in Hphase;
    try congruence; reflexivity.
Qed.

End Counters.

(** X28: a lock that clears no line and spawns the next piece raises the
    piece counter by two, once in [lockPiece] and once in
    [spawnNextPiece]; a lock that starts a clear leaves the counter as it
    is. *)
Theorem lockPiece_counts_pieces (state state' : State) (now : Z) :
  Engine.lockPiece state now = Ok state' ->
  (phase state' = FALLING -> pieces state' = pieces state + 2)
  /\ (phase state' = CLEARING -> pieces state' = pieces state).
Proof.
  unfold Engine.lockPiece, Engine.current_piece. intros H.
  destruct (current state) as [piece |]; cbv beta iota in H; [| discriminate].
  destruct (Piece.gridY piece <? 0).
  - apply Ok_inj in H. subst state'. rewrite gameOver_phase.
    split; discriminate.
  - destruct (Physics.findClearedLines _) as [| line rest].
    + split.
      * intros Hphase. apply spawnNextPiece_pieces in H; [| exact Hphase].
        rewrite H. destruct (scoringEngine state); state_simpl; lia.
      * intros Hphase. now apply spawnNextPiece_not_clearing in H.
    + apply Ok_inj in H. subst state'.
      destruct (scoringEngine state); state_simpl;
        (split; [discriminate | reflexivity]).
Qed.

Lemma lockPiece_counts_pieces_witness :
  pieces (Scenario.unwrap
            (Engine.lockPiece (Scenario.unwrap Scenario.restingFloat)
               (Scenario.T0 + 500)))
  = pieces (Scenario.unwrap Scenario.restingFloat) + 2.
Proof.
  apply (proj1 (lockPiece_counts_pieces
                  (Scenario.unwrap Scenario.restingFloat) _
                  (Scenario.T0 + 500) ltac:(vm_compute; reflexivity))).
  vm_compute. reflexivity.
Defined.

(** X29: a hold that takes place stores the current piece as
    [createPiece] makes a piece of its type, puts the game in the phase
    FALLING and clears [canHold], so that a second hold leaves the state
    as it is; the piece brought into play is unrotated and above the
    board. *)
Theorem hold_once_per_piece (state state' : State) (held : Piece.t)
  (now : Z) :
  Engine.tryHold state now = Ok state' ->
  current state = Some held -> canHold state = true ->
  canHold state' = false
  /\ phase state' = FALLING
  /\ (exists heldPiece,
         GameState.createPiece (Some (Piece.type held)) = Ok heldPiece
         /\ hold state' = Some heldPiece)
  /\ (exists active,
         current state' = Some active
         /\ Piece.rotation active = 0
         /\ Piece.gridY active < 0)
  /\ forall now', Engine.tryHold state' now' = Ok state'.
Proof.
  unfold Engine.tryHold at 1. intros H Hcur Hcan.
  rewrite Hcur, Hcan in H. cbn [negb] in H.
  destruct (createPiece_returns (Piece.type held)) as [heldPiece Hheld].
  rewrite Hheld in H.
  assert (Hactive : forall type created generation,
    GameState.createPiece (Some type) = Ok created ->
    Piece.rotation
      (Piece.set_upMovesUsed 0
         (Piece.set_generation generation created)) = 0
    /\ Piece.gridY
         (Piece.set_upMovesUsed 0
            (Piece.set_generation generation created)) < 0).
  { intros type created generation E.
    destruct type; apply Ok_inj in E; subst created; cbn; lia. }
  assert (Hagain : forall s, current s <> None -> canHold s = false ->
                             forall now', Engine.tryHold s now' = Ok s).
  { intros s Hc Hh now'. unfold Engine.tryHold.
    destruct (current s); [| congruence]. now rewrite Hh. }
  destruct (hold state) as [stored |].
  - cbv beta iota in H.
    destruct (GameState.createPiece (Some (Piece.type stored)))
      as [created |] eqn:Hcreated; cbv beta iota in H; [| discriminate].
    apply Ok_inj in H. subst state'. state_simpl.
    split; [reflexivity |]. split; [reflexivity |].
    split; [now exists heldPiece |].
    split; [eexists; split; [reflexivity | now apply (Hactive _ _ _ Hcreated)] |].
    apply Hagain; state_simpl; [discriminate | reflexivity].
  - destruct (next state) as [upcoming |]; [| discriminate].
    cbv beta iota in H.
    destruct (GameState.createPiece (Some (Piece.type upcoming)))
      as [created |] eqn:Hcreated; cbv beta iota in H; [| discriminate].
    destruct (GameState.getNextPiece state now) as [[nextPiece rng'] |];
      cbv beta iota in H; [| discriminate].
    apply Ok_inj in H. subst state'. state_simpl.
    split; [reflexivity |]. split; [reflexivity |].
    split; [now exists heldPiece |].
    split; [eexists; split; [reflexivity | now apply (Hactive _ _ _ Hcreated)] |].
    apply Hagain; state_simpl; [discriminate | reflexivity].
Qed.

Lemma hold_once_per_piece_witness :
  canHold (Scenario.unwrap
             (Engine.tryHold Scenario.playing (Scenario.T0 + 100)))
  = false.
Proof.
  refine (proj1 (hold_once_per_piece Scenario.playing _ _
                   (Scenario.T0 + 100) _ _ _));
    vm_compute; reflexivity.
Defined.

(** X30: a hard drop with a scoring engine adds to the score exactly two
    points for every row between the piece and its shadow, and nothing
    else: the lock and the spawn that follow leave the score as it is. *)
Theorem hardDrop_scores_two_per_row (state state' : State)
  (piece : Piece.t) (engine : ScoringEngine) (now : Z) :
  Engine.hardDrop state now = Ok state' ->
  current state = Some piece -> scoringEngine state = Some engine ->
  0 <= Physics.calculateShadow (board state) piece - Piece.gridY piece
  /\ score state'
     = score state
       + 2 * (Physics.calculateShadow (board state) piece
              - Piece.gridY piece).
Proof.
  unfold Engine.hardDrop, Engine.current_piece. intros H Hcur Hengine.
  rewrite Hcur, Hengine in H. cbv beta iota in H.
  apply lockPiece_score in H.
  destruct (calculateShadow_stops (board state) piece) as [Hle _].
  cbv zeta in Hle. split; [lia |]. rewrite H.
  unfold Scoring.scoreHardDrop.
  destruct (Z.ltb_spec 0 (Physics.calculateShadow (board state) piece
                          - Piece.gridY piece)); state_simpl; lia.
Qed.

Lemma hardDrop_scores_two_per_row_witness :
  exists piece,
    current Scenario.playing = Some piece
    /\ score Scenario.dropped
       = score Scenario.playing
         + 2 * (Physics.calculateShadow (board Scenario.playing) piece
                - Piece.gridY piece).
Proof.
  eexists. split; [vm_compute; reflexivity |].
  refine (proj2 (hardDrop_scores_two_per_row Scenario.playing
                   Scenario.dropped _ _ (Scenario.T0 + 500) _ _ _));
    vm_compute; reflexivity.
Defined.
